(** * BusTub buffer pool: clock replacer and buffer pool manager instance

    A shallow embedding of [src/buffer/clock_replacer.cpp] and
    [src/buffer/buffer_pool_manager_instance.cpp], and the properties of the
    buffer pool specification checked against it.

    Conventions.
    - Frame ids and page ids ([frame_id_t], [page_id_t]) are 32-bit signed
      integers. They are modelled as [Z]; the one place where the code can
      take such a value out of the 32-bit range, the page id counter, wraps
      explicitly with [wrap32]. The pin count of a frame is an [int]; it
      is incremented only when it is not positive and decremented only when
      it is positive, so it cannot overflow.
    - The [size_t] counters of the replacer ([max_size_], [now_], [size_])
      and [pool_size_] are bounded by the length of an allocated vector, so
      they are modelled as [nat] and never wrap.
    - A call either returns, stops the process (a failed assertion, an access
      outside [pages_]), or keeps running; see [outcome].
    - The mutexes are not modelled: every method runs under its lock from
      entry to return, so calls are atomic steps on the state. *)

From stdpp Require Import base option list gmap.
From Stdlib Require Import ZArith Lia.
From Stdlib Require Import Init.Byte.

Local Open Scope Z_scope.

(** ** Outcomes of a call *)

Inductive outcome (A : Type) : Type :=
| Done (a : A)   (* the call returns [a] *)
| Abort          (* the process stops: assertion failure or invalid access *)
| Diverge.       (* the fuel given to the call was not enough *)

Arguments Done {A} a.
Arguments Abort {A}.
Arguments Diverge {A}.

Global Instance outcome_ret : MRet outcome := fun A a => Done a.

Global Instance outcome_bind : MBind outcome := fun A B k m =>
  match m with
  | Done a => k a
  | Abort => Abort
  | Diverge => Diverge
  end.

(** ** The clock replacer ([clock_replacer.cpp]) *)

Module ClockReplacer.

(** The member variables of [ClockReplacer]. A slot [i] is empty when
    [frame_ids_[i] == -1]. *)
Record t : Type := mk {
  frame_ids_ : list Z;
  pinned_ : list bool;
  ref_bits_ : list bool;
  max_size_ : nat;
  now_ : nat;
  size_ : nat
}.

(** [ClockReplacer::ClockReplacer(size_t num_pages)] *)
Definition new (num_pages : nat) : t :=
  {| frame_ids_ := replicate num_pages (-1);
     pinned_ := replicate num_pages false;
     ref_bits_ := replicate num_pages false;
     max_size_ := num_pages;
     now_ := 0;
     size_ := 0 |}.

(** First index [i] with [l[i] == x]: the loops
    [for (i = 0; i < max_size_; i++) if (frame_ids_[i] == x) ...]. *)
Fixpoint find_slot (x : Z) (l : list Z) : option nat :=
  match l with
  | [] => None
  | y :: l' => if y =? x then Some 0%nat else S <$> find_slot x l'
  end.

(** Number of slots, among the paired prefixes, that pass [test]. *)
Fixpoint count_slots (test : Z -> bool -> bool) (ids : list Z) (ps : list bool) : nat :=
  match ids, ps with
  | f :: ids', p :: ps' => ((if test f p then 1 else 0) + count_slots test ids' ps')%nat
  | _, _ => 0%nat
  end.

Definition is_pinned_slot (f : Z) (p : bool) : bool := negb (f =? -1) && p.
Definition is_evictable_slot (f : Z) (p : bool) : bool := negb (f =? -1) && negb p.

(** The first loop of [Victim]: [pinned_cnt] over the slots below [size_]. *)
Definition pinned_cnt (r : t) : nat :=
  count_slots is_pinned_slot (take (size_ r) (frame_ids_ r)) (take (size_ r) (pinned_ r)).

(** The loop increment [now_ = (now_ + 1) % size_]. *)
Definition advance (r : t) : t :=
  {| frame_ids_ := frame_ids_ r; pinned_ := pinned_ r; ref_bits_ := ref_bits_ r;
     max_size_ := max_size_ r;
     now_ := (now_ r + 1) `mod` size_ r;
     size_ := size_ r |}.

Definition clear_ref (i : nat) (r : t) : t :=
  {| frame_ids_ := frame_ids_ r; pinned_ := pinned_ r;
     ref_bits_ := <[i := false]> (ref_bits_ r);
     max_size_ := max_size_ r; now_ := now_ r; size_ := size_ r |}.

Definition clear_slot (i : nat) (r : t) : t :=
  {| frame_ids_ := <[i := -1]> (frame_ids_ r);
     pinned_ := pinned_ r; ref_bits_ := ref_bits_ r;
     max_size_ := max_size_ r; now_ := now_ r; size_ := size_ r |}.

(** The [for (;; now_ = (now_ + 1) % size_)] loop of [Victim]; one unit of
    fuel per visited slot. The result is the victim and the new state.
    [Victim] enters the loop only with [size_ != 0]. *)
Fixpoint sweep (fuel : nat) (r : t) : outcome (Z * t) :=
  match fuel with
  | O => Diverge
  | S fuel' =>
      match frame_ids_ r !! now_ r, pinned_ r !! now_ r, ref_bits_ r !! now_ r with
      | Some f, Some p, Some rb =>
          if p || (f =? -1) then sweep fuel' (advance r)
          else if rb : bool then sweep fuel' (advance (clear_ref (now_ r) r))
          else Done (f, advance (clear_slot (now_ r) r))
      | _, _, _ => Abort
      end
  end.

(** [bool ClockReplacer::Victim(frame_id_t *frame_id)]: [Some f] stands for
    [true] with [*frame_id = f], [None] for [false]. *)
Definition Victim (fuel : nat) (r : t) : outcome (option Z * t) :=
  if (size_ r =? 0)%nat then Done (None, r)
  else if (pinned_cnt r =? size_ r)%nat then Done (None, r)
  else
    match sweep fuel r with
    | Done (f, r') => Done (Some f, r')
    | Abort => Abort
    | Diverge => Diverge
    end.

(** [void ClockReplacer::Pin(frame_id_t frame_id)] *)
Definition Pin (frame_id : Z) (r : t) : t :=
  match find_slot frame_id (take (max_size_ r) (frame_ids_ r)) with
  | Some i =>
      {| frame_ids_ := frame_ids_ r;
         pinned_ := <[i := true]> (pinned_ r);
         ref_bits_ := <[i := true]> (ref_bits_ r);
         max_size_ := max_size_ r; now_ := now_ r; size_ := size_ r |}
  | None =>
      match find_slot (-1) (take (max_size_ r) (frame_ids_ r)) with
      | Some i =>
          {| frame_ids_ := <[i := frame_id]> (frame_ids_ r);
             pinned_ := <[i := true]> (pinned_ r);
             ref_bits_ := <[i := false]> (ref_bits_ r);
             max_size_ := max_size_ r; now_ := now_ r;
             size_ := (size_ r + 1) `min` max_size_ r |}
      | None => r
      end
  end.

(** [void ClockReplacer::Unpin(frame_id_t frame_id)] *)
Definition Unpin (frame_id : Z) (r : t) : t :=
  match find_slot frame_id (take (max_size_ r) (frame_ids_ r)) with
  | Some i =>
      match pinned_ r !! i with
      | Some true =>
          {| frame_ids_ := frame_ids_ r;
             pinned_ := <[i := false]> (pinned_ r);
             ref_bits_ := <[i := true]> (ref_bits_ r);
             max_size_ := max_size_ r; now_ := now_ r; size_ := size_ r |}
      | _ => r
      end
  | None =>
      match find_slot (-1) (take (max_size_ r) (frame_ids_ r)) with
      | Some i =>
          {| frame_ids_ := <[i := frame_id]> (frame_ids_ r);
             pinned_ := <[i := false]> (pinned_ r);
             ref_bits_ := <[i := false]> (ref_bits_ r);
             max_size_ := max_size_ r; now_ := now_ r;
             size_ := (size_ r + 1) `min` max_size_ r |}
      | None => r
      end
  end.

(** [size_t ClockReplacer::Size()] *)
Definition Size (r : t) : nat :=
  count_slots is_evictable_slot
    (take (max_size_ r) (frame_ids_ r)) (take (max_size_ r) (pinned_ r)).

End ClockReplacer.

(** ** Fixed-width arithmetic *)

(** Modelled from the spec: page ids are signed integers (section 3); their
    type [page_id_t] is declared in [common/config.h], where BusTub makes it
    [int32_t]. [wrap32 z] is [z] converted to [int32_t]. *)
Definition wrap32 (z : Z) : Z := (z + 2 ^ 31) `mod` 2 ^ 32 - 2 ^ 31.

(** The conversion to [uint32_t], the type of [num_instances_] and
    [instance_index_]. *)
Definition to_uint32 (z : Z) : Z := z `mod` 2 ^ 32.

(** ** The buffer pool manager instance ([buffer_pool_manager_instance.cpp]) *)

Module BufferPoolManagerInstance.

(** Modelled from the spec: [INVALID_PAGE_ID] is declared in
    [common/config.h]; section 6 gives the sentinel as -1. *)
Definition INVALID_PAGE_ID : Z := -1.

(** Modelled from the spec: [PAGE_SIZE] is declared in [common/config.h];
    section 6 gives the usual value, 4096 bytes. *)
Definition PAGE_SIZE : nat := 4096.

(** Modelled from the spec: the class [Page] is declared in
    [storage/page/page.h]; section 3 lists its fields. *)
Record Page : Type := mkPage {
  page_id_ : Z;
  pin_count_ : Z;
  is_dirty_ : bool;
  data_ : list byte
}.

(** [Page::ResetMemory] zeroes the buffer. *)
Definition zero_data : list byte := replicate PAGE_SIZE x00.

(** A default-constructed [Page]. *)
Definition empty_page : Page :=
  {| page_id_ := INVALID_PAGE_ID; pin_count_ := 0; is_dirty_ := false; data_ := zero_data |}.

(** The member variables of [BufferPoolManagerInstance] that the methods
    use. [disk_manager_] holds the state of the disk manager, see
    [WritePage] and [ReadPage]; [deallocated_] records the calls of
    [DeallocatePage]. The log manager is never called. *)
Record t : Type := mk {
  pool_size_ : nat;
  num_instances_ : Z;
  instance_index_ : Z;
  next_page_id_ : Z;
  pages_ : list Page;
  replacer_ : ClockReplacer.t;
  page_table_ : gmap Z Z;
  free_list_ : list Z;
  disk_manager_ : gmap Z (list byte);
  deallocated_ : list Z
}.

Definition set_next_page_id (x : Z) (b : t) : t :=
  {| pool_size_ := pool_size_ b; num_instances_ := num_instances_ b;
     instance_index_ := instance_index_ b; next_page_id_ := x;
     pages_ := pages_ b; replacer_ := replacer_ b; page_table_ := page_table_ b;
     free_list_ := free_list_ b; disk_manager_ := disk_manager_ b;
     deallocated_ := deallocated_ b |}.

Definition set_pages (x : list Page) (b : t) : t :=
  {| pool_size_ := pool_size_ b; num_instances_ := num_instances_ b;
     instance_index_ := instance_index_ b; next_page_id_ := next_page_id_ b;
     pages_ := x; replacer_ := replacer_ b; page_table_ := page_table_ b;
     free_list_ := free_list_ b; disk_manager_ := disk_manager_ b;
     deallocated_ := deallocated_ b |}.

Definition set_replacer (x : ClockReplacer.t) (b : t) : t :=
  {| pool_size_ := pool_size_ b; num_instances_ := num_instances_ b;
     instance_index_ := instance_index_ b; next_page_id_ := next_page_id_ b;
     pages_ := pages_ b; replacer_ := x; page_table_ := page_table_ b;
     free_list_ := free_list_ b; disk_manager_ := disk_manager_ b;
     deallocated_ := deallocated_ b |}.

Definition set_page_table (x : gmap Z Z) (b : t) : t :=
  {| pool_size_ := pool_size_ b; num_instances_ := num_instances_ b;
     instance_index_ := instance_index_ b; next_page_id_ := next_page_id_ b;
     pages_ := pages_ b; replacer_ := replacer_ b; page_table_ := x;
     free_list_ := free_list_ b; disk_manager_ := disk_manager_ b;
     deallocated_ := deallocated_ b |}.

Definition set_free_list (x : list Z) (b : t) : t :=
  {| pool_size_ := pool_size_ b; num_instances_ := num_instances_ b;
     instance_index_ := instance_index_ b; next_page_id_ := next_page_id_ b;
     pages_ := pages_ b; replacer_ := replacer_ b; page_table_ := page_table_ b;
     free_list_ := x; disk_manager_ := disk_manager_ b;
     deallocated_ := deallocated_ b |}.

Definition set_disk_manager (x : gmap Z (list byte)) (b : t) : t :=
  {| pool_size_ := pool_size_ b; num_instances_ := num_instances_ b;
     instance_index_ := instance_index_ b; next_page_id_ := next_page_id_ b;
     pages_ := pages_ b; replacer_ := replacer_ b; page_table_ := page_table_ b;
     free_list_ := free_list_ b; disk_manager_ := x;
     deallocated_ := deallocated_ b |}.

Definition set_deallocated (x : list Z) (b : t) : t :=
  {| pool_size_ := pool_size_ b; num_instances_ := num_instances_ b;
     instance_index_ := instance_index_ b; next_page_id_ := next_page_id_ b;
     pages_ := pages_ b; replacer_ := replacer_ b; page_table_ := page_table_ b;
     free_list_ := free_list_ b; disk_manager_ := disk_manager_ b;
     deallocated_ := x |}.

(** [pages_[frame_id]]: an index outside the array is an invalid access. *)
Definition page_at (pages : list Page) (frame_id : Z) : option Page :=
  if frame_id <? 0 then None else pages !! Z.to_nat frame_id.

Definition get_page (b : t) (frame_id : Z) : outcome Page :=
  match page_at (pages_ b) frame_id with
  | Some pg => Done pg
  | None => Abort
  end.

(** Store [pg] at [pages_[frame_id]]; only used after [get_page] succeeded. *)
Definition put_page (frame_id : Z) (pg : Page) (b : t) : t :=
  set_pages (<[Z.to_nat frame_id := pg]> (pages_ b)) b.

(** Modelled from the spec: the disk manager is an external collaborator
    (section 6). [WritePage] stores the bytes of a page; the state of the
    disk is the map from page ids to the bytes last written. *)
Definition WritePage (page_id : Z) (d : list byte) (b : t) : t :=
  set_disk_manager (<[page_id := d]> (disk_manager_ b)) b.

(** Modelled from the spec: [ReadPage] fills the buffer, zeroed just before
    by [ResetMemory], with the bytes of the page; a page that was never
    written leaves the zeroes. *)
Definition ReadPage (page_id : Z) (b : t) : list byte :=
  default zero_data (disk_manager_ b !! page_id).

(** Modelled from the spec: [DeallocatePage], declared in the class header,
    is the deallocation hook of section 4.2.6; its calls are recorded. *)
Definition DeallocatePage (page_id : Z) (b : t) : t :=
  set_deallocated (page_id :: deallocated_ b) b.

(** The constructor. The two [BUSTUB_ASSERT]s stop the process when they
    fail. [num_instances] and [instance_index] are [uint32_t];
    [next_page_id_] is a [page_id_t] initialised from [instance_index].
    Frame [i] enters the free list as [static_cast<int>(i)], which is [i]
    itself: [i < pool_size_], the length of the allocated array [pages_]. *)
Definition new (pool_size : nat) (num_instances instance_index : Z)
    (disk_manager : gmap Z (list byte)) : outcome t :=
  if negb (0 <? num_instances) then Abort
  else if negb (instance_index <? num_instances) then Abort
  else Done
    {| pool_size_ := pool_size;
       num_instances_ := num_instances;
       instance_index_ := instance_index;
       next_page_id_ := wrap32 instance_index;
       pages_ := replicate pool_size empty_page;
       replacer_ := ClockReplacer.new pool_size;
       page_table_ := ∅;
       free_list_ := Z.of_nat <$> seq 0 pool_size;
       disk_manager_ := disk_manager;
       deallocated_ := [] |}.

(** [ValidatePageId]: the operands of [%] and [==] are converted to
    [uint32_t]. *)
Definition ValidatePageId (page_id : Z) (b : t) : bool :=
  to_uint32 page_id `mod` num_instances_ b =? instance_index_ b.

(** [AllocatePage]: the counter is a [page_id_t], so the sum wraps. *)
Definition AllocatePage (b : t) : outcome (Z * t) :=
  let next_page_id := next_page_id_ b in
  let b' := set_next_page_id (wrap32 (next_page_id_ b + num_instances_ b)) b in
  if ValidatePageId next_page_id b' then Done (next_page_id, b') else Abort.

(** [FlushPgImp] *)
Definition FlushPgImp (page_id : Z) (b : t) : outcome (bool * t) :=
  match page_table_ b !! page_id with
  | Some frame_id =>
      pg ← get_page b frame_id;
      let b1 := WritePage page_id (data_ pg) b in
      Done (true, put_page frame_id
                    {| page_id_ := page_id_ pg; pin_count_ := pin_count_ pg;
                       is_dirty_ := false; data_ := data_ pg |} b1)
  | None => Done (false, b)
  end.

(** [FlushAllPgsImp]: the body of the loop over [page_table_], applied to
    the entries in turn. *)
Fixpoint write_entries (entries : list (Z * Z)) (b : t) : outcome t :=
  match entries with
  | [] => Done b
  | (page_id, frame_id) :: rest =>
      pg ← get_page b frame_id;
      write_entries rest (WritePage page_id (data_ pg) b)
  end.

Definition FlushAllPgsImp (b : t) : outcome t :=
  write_entries (map_to_list (page_table_ b)) b.

(** The first loop of [NewPgImp]: [flag] stays [true] when every frame has
    a positive pin count. *)
Definition all_pinned (b : t) : bool :=
  forallb (fun pg => negb (pin_count_ pg <=? 0)) (take (pool_size_ b) (pages_ b)).

(** [free_list_.front(); free_list_.pop_front()] when the list is not
    empty; [frame_id] stays -1 otherwise. *)
Definition pop_free (b : t) : Z * t :=
  match free_list_ b with
  | f :: rest => (f, set_free_list rest b)
  | [] => (-1, b)
  end.

(** The tail of [NewPgImp], from the call of [AllocatePage] on. The result
    is the frame (the returned [Page *]) and the value of [*page_id]. *)
Definition install_new (frame_id : Z) (b : t) : outcome (option (Z * Z) * t) :=
  '(next_page_id, b1) ← AllocatePage b;
  pg ← get_page b1 frame_id;
  let b2 := put_page frame_id
              {| page_id_ := next_page_id; pin_count_ := 1;
                 is_dirty_ := true; data_ := zero_data |} b1 in
  let b3 := set_page_table (<[next_page_id := frame_id]> (page_table_ b2)) b2 in
  let b4 := set_replacer (ClockReplacer.Pin frame_id (replacer_ b3)) b3 in
  Done (Some (frame_id, next_page_id), b4).

(** [NewPgImp] *)
Definition NewPgImp (fuel : nat) (b : t) : outcome (option (Z * Z) * t) :=
  if all_pinned b then Done (None, b)
  else
    let '(frame_id, b1) := pop_free b in
    if frame_id =? -1 then
      '(victim, r) ← ClockReplacer.Victim fuel (replacer_ b1);
      let b2 := set_replacer r b1 in
      match victim with
      | None => Done (None, b2)
      | Some frame_id =>
          pg ← get_page b2 frame_id;
          '(_, b3) ← (if is_dirty_ pg then FlushPgImp (page_id_ pg) b2
                      else Done (false, b2));
          pg' ← get_page b3 frame_id;
          let b4 := set_page_table (delete (page_id_ pg') (page_table_ b3)) b3 in
          install_new frame_id b4
      end
    else install_new frame_id b1.

(** The tail of [FetchPgImp], once a replacement frame is chosen. *)
Definition install_fetched (page_id frame_id : Z) (b : t) : outcome (option Z * t) :=
  pg ← get_page b frame_id;
  let b1 := if is_dirty_ pg then WritePage (page_id_ pg) (data_ pg) b else b in
  let b2 := set_page_table (<[page_id := frame_id]> (delete (page_id_ pg) (page_table_ b1))) b1 in
  let b3 := put_page frame_id
              {| page_id_ := page_id; pin_count_ := 1;
                 is_dirty_ := false; data_ := ReadPage page_id b2 |} b2 in
  let b4 := set_replacer (ClockReplacer.Pin frame_id (replacer_ b3)) b3 in
  Done (Some frame_id, b4).

(** [FetchPgImp]: the result is the frame of the returned [Page *]. *)
Definition FetchPgImp (fuel : nat) (page_id : Z) (b : t) : outcome (option Z * t) :=
  match page_table_ b !! page_id with
  | Some frame_id =>
      pg ← get_page b frame_id;
      if 0 <? pin_count_ pg then Done (None, b)
      else
        let b1 := put_page frame_id
                    {| page_id_ := page_id_ pg; pin_count_ := pin_count_ pg + 1;
                       is_dirty_ := is_dirty_ pg; data_ := data_ pg |} b in
        Done (Some frame_id, set_replacer (ClockReplacer.Pin frame_id (replacer_ b1)) b1)
  | None =>
      let '(frame_id, b1) := pop_free b in
      if frame_id =? -1 then
        '(victim, r) ← ClockReplacer.Victim fuel (replacer_ b1);
        let b2 := set_replacer r b1 in
        match victim with
        | None => Done (None, b2)
        | Some frame_id => install_fetched page_id frame_id b2
        end
      else install_fetched page_id frame_id b1
  end.

(** [DeletePgImp] *)
Definition DeletePgImp (page_id : Z) (b : t) : outcome (bool * t) :=
  match page_table_ b !! page_id with
  | None => Done (true, DeallocatePage page_id b)
  | Some frame_id =>
      pg ← get_page b frame_id;
      if 0 <? pin_count_ pg then Done (false, b)
      else
        let b1 := put_page frame_id
                    {| page_id_ := INVALID_PAGE_ID; pin_count_ := 0;
                       is_dirty_ := false; data_ := data_ pg |} b in
        let b2 := set_free_list (frame_id :: free_list_ b1) b1 in
        let b3 := set_page_table (delete page_id (page_table_ b2)) b2 in
        Done (true, DeallocatePage page_id b3)
  end.

(** [UnpinPgImp] *)
Definition UnpinPgImp (page_id : Z) (is_dirty : bool) (b : t) : outcome (bool * t) :=
  match page_table_ b !! page_id with
  | None => Done (false, b)
  | Some frame_id =>
      pg ← get_page b frame_id;
      if 0 <? pin_count_ pg then
        let cnt := pin_count_ pg - 1 in
        let r := if cnt =? 0 then ClockReplacer.Unpin frame_id (replacer_ b)
                 else replacer_ b in
        let dirty := if negb (is_dirty_ pg) then is_dirty else is_dirty_ pg in
        Done (true, set_replacer r
                      (put_page frame_id
                         {| page_id_ := page_id_ pg; pin_count_ := cnt;
                            is_dirty_ := dirty; data_ := data_ pg |} b))
      else Done (false, b)
  end.

End BufferPoolManagerInstance.

Import ClockReplacer BufferPoolManagerInstance.

(** ** Observations on a replacer *)

(** The slot in which [Pin] and [Unpin] find frame [f]. *)
Definition slot_of (r : ClockReplacer.t) (f : Z) : option nat :=
  find_slot f (take (max_size_ r) (frame_ids_ r)).

(** Frame [f] is registered: some slot holds it (-1 marks an empty slot). *)
Definition registered (r : ClockReplacer.t) (f : Z) : Prop :=
  f ≠ -1 ∧ is_Some (slot_of r f).

Definition has_free_slot (r : ClockReplacer.t) : Prop := is_Some (slot_of r (-1)).

Definition pinned_flag (r : ClockReplacer.t) (f : Z) : option bool :=
  i ← slot_of r f; pinned_ r !! i.

Definition ref_bit (r : ClockReplacer.t) (f : Z) : option bool :=
  i ← slot_of r f; ref_bits_ r !! i.

(** The three vectors keep the length they were created with, the hand stays
    below [size_], and every occupied slot lies below [size_]. *)
Record wf (r : ClockReplacer.t) : Prop := {
  wf_frame_ids : length (frame_ids_ r) = max_size_ r;
  wf_pinned : length (pinned_ r) = max_size_ r;
  wf_ref_bits : length (ref_bits_ r) = max_size_ r;
  wf_size : (size_ r ≤ max_size_ r)%nat;
  wf_now : (now_ r < size_ r)%nat ∨ (size_ r = 0%nat ∧ now_ r = 0%nat);
  wf_occupied : ∀ i f, frame_ids_ r !! i = Some f → f ≠ -1 → (i < size_ r)%nat
}.

(** States of a replacer that its public methods can produce. *)
Inductive reachable_replacer : ClockReplacer.t → Prop :=
| reachable_replacer_new num_pages :
    reachable_replacer (ClockReplacer.new num_pages)
| reachable_replacer_Pin f r :
    f ≠ -1 → reachable_replacer r → reachable_replacer (Pin f r)
| reachable_replacer_Unpin f r :
    f ≠ -1 → reachable_replacer r → reachable_replacer (Unpin f r)
| reachable_replacer_Victim fuel r v r' :
    reachable_replacer r → Victim fuel r = Done (v, r') → reachable_replacer r'.

(** [ClockReplacer(1); Pin(0); Unpin(0); Victim(&f)] leaves the only slot
    empty and [size_ == 1]. *)
Definition hole_replacer : ClockReplacer.t :=
  {| frame_ids_ := [-1]; pinned_ := [false]; ref_bits_ := [false];
     max_size_ := 1; now_ := 0; size_ := 1 |}.

(** ** The requests served by a buffer pool manager instance *)

Inductive request : Type :=
| NewPage
| FetchPage (page_id : Z)
| UnpinPage (page_id : Z) (is_dirty : bool)
| FlushPage (page_id : Z)
| FlushAllPages
| DeletePage (page_id : Z).

(** The state after serving a request that returns. *)
Definition serve (fuel : nat) (q : request) (b : BufferPoolManagerInstance.t)
    : outcome BufferPoolManagerInstance.t :=
  match q with
  | NewPage => '(_, b') ← NewPgImp fuel b; Done b'
  | FetchPage page_id => '(_, b') ← FetchPgImp fuel page_id b; Done b'
  | UnpinPage page_id is_dirty => '(_, b') ← UnpinPgImp page_id is_dirty b; Done b'
  | FlushPage page_id => '(_, b') ← FlushPgImp page_id b; Done b'
  | FlushAllPages => FlushAllPgsImp b
  | DeletePage page_id => '(_, b') ← DeletePgImp page_id b; Done b'
  end.

(** Serving a sequence of requests, each one after the other returned. *)
Fixpoint serves (fuel : nat) (qs : list request) (b : BufferPoolManagerInstance.t)
    : outcome BufferPoolManagerInstance.t :=
  match qs with
  | [] => Done b
  | q :: qs' => b' ← serve fuel q b; serves fuel qs' b'
  end.

(** States reachable from a freshly constructed instance. The constructor
    arguments [num_instances] and [instance_index] are [uint32_t] values. *)
Inductive reachable : BufferPoolManagerInstance.t → Prop :=
| reachable_new pool_size num_instances instance_index disk b :
    0 ≤ num_instances < 2 ^ 32 → 0 ≤ instance_index < 2 ^ 32 →
    BufferPoolManagerInstance.new pool_size num_instances instance_index disk = Done b →
    reachable b
| reachable_serve fuel q b b' :
    reachable b → serve fuel q b = Done b' → reachable b'.

(** A request is admissible when [FetchPage] is not asked for the sentinel
    and [NewPage] is not about to hand out the sentinel or an id that is
    already in the page table. *)
Definition admissible (q : request) (b : BufferPoolManagerInstance.t) : Prop :=
  match q with
  | NewPage =>
      next_page_id_ b ≠ INVALID_PAGE_ID ∧ page_table_ b !! next_page_id_ b = None
  | FetchPage page_id => page_id ≠ INVALID_PAGE_ID
  | _ => True
  end.

Inductive reachable_admissible : BufferPoolManagerInstance.t → Prop :=
| reachable_admissible_new pool_size num_instances instance_index disk b :
    0 ≤ num_instances < 2 ^ 32 → 0 ≤ instance_index < 2 ^ 32 →
    BufferPoolManagerInstance.new pool_size num_instances instance_index disk = Done b →
    reachable_admissible b
| reachable_admissible_serve fuel q b b' :
    reachable_admissible b → admissible q b → serve fuel q b = Done b' →
    reachable_admissible b'.

(** [n] successive calls of [AllocatePage], with the ids they return. *)
Fixpoint allocate_n (n : nat) (b : BufferPoolManagerInstance.t)
    : outcome (list Z * BufferPoolManagerInstance.t) :=
  match n with
  | O => Done ([], b)
  | S n' =>
      '(id, b1) ← AllocatePage b;
      '(ids, b2) ← allocate_n n' b1;
      Done (id :: ids, b2)
  end.


(** Every frame id held by the free list, the page table or the replacer is
    an index of [pages_]. *)
Record frames_ok (b : BufferPoolManagerInstance.t) : Prop := {
  fo_pages : length (pages_ b) = pool_size_ b;
  fo_replacer : wf (replacer_ b);
  fo_free : ∀ f, f ∈ free_list_ b → 0 ≤ f < Z.of_nat (pool_size_ b);
  fo_table : ∀ p f, page_table_ b !! p = Some f → 0 ≤ f < Z.of_nat (pool_size_ b);
  fo_slots : ∀ i f, frame_ids_ (replacer_ b) !! i = Some f → f ≠ -1 →
             0 ≤ f < Z.of_nat (pool_size_ b)
}.

(** The page id stored in frame [f], when [f] is a frame of the pool. *)
Definition frame_page_id (pages : list Page) (f : Z) : option Z :=
  page_id_ <$> page_at pages f.

(** The page table and the free list partition the frames, and agree with
    the page ids stored in the frames. *)
Record directory_ok (b : BufferPoolManagerInstance.t) : Prop := {
  do_nodup : NoDup (free_list_ b);
  do_free : ∀ f, f ∈ free_list_ b →
            frame_page_id (pages_ b) f = Some INVALID_PAGE_ID;
  do_table : ∀ p f, page_table_ b !! p = Some f →
             frame_page_id (pages_ b) f = Some p;
  do_invalid : page_table_ b !! INVALID_PAGE_ID = None;
  do_resident : ∀ f p, frame_page_id (pages_ b) f = Some p → f ∉ free_list_ b →
                page_table_ b !! p = Some f;
  do_count : pool_size_ b = (length (free_list_ b) + size (page_table_ b))%nat
}.

(** The occupied slots of [r'] are occupied slots of [r]. *)
Definition slots_within (r' r : ClockReplacer.t) : Prop :=
  ∀ i g, frame_ids_ r' !! i = Some g → g ≠ -1 → frame_ids_ r !! i = Some g.

(** Slot [e] holds a frame that is not pinned. *)
Definition evictable_at (r : ClockReplacer.t) (e : nat) : Prop :=
  ∃ f, frame_ids_ r !! e = Some f ∧ f ≠ -1 ∧ pinned_ r !! e = Some false.

(** Every slot below [size_] is empty or pinned. *)
Definition nothing_evictable (r : ClockReplacer.t) : Prop :=
  ∀ i f p, (i < size_ r)%nat →
    frame_ids_ r !! i = Some f → pinned_ r !! i = Some p → p || (f =? -1) = true.

(** ** Invariants of the replacer and of the pool *)

(** No frame occupies two slots. *)
Definition slots_distinct (r : ClockReplacer.t) : Prop :=
  ∀ i j f, frame_ids_ r !! i = Some f → frame_ids_ r !! j = Some f → f ≠ -1 → i = j.

(** A truth value as a count. *)
Definition bit (b : bool) : nat := if b then 1%nat else 0%nat.

(** No slot below [size_] is empty. *)
Definition no_holes (r : ClockReplacer.t) : Prop :=
  ∀ i, (i < size_ r)%nat → frame_ids_ r !! i ≠ Some (-1).

(** What holds of the frames, the free list and the page table in every
    reachable state, whatever the page ids that were asked for. *)
Record pages_ok (b : BufferPoolManagerInstance.t) : Prop := {
  pk_nodup : NoDup (free_list_ b);
  pk_free : ∀ f, f ∈ free_list_ b →
            ∃ pg, page_at (pages_ b) f = Some pg ∧ page_id_ pg = INVALID_PAGE_ID ∧
                  pin_count_ pg = 0 ∧ is_dirty_ pg = false;
  pk_table : ∀ p f, page_table_ b !! p = Some f →
             frame_page_id (pages_ b) f = Some p;
  pk_disjoint : ∀ p f, page_table_ b !! p = Some f → f ∉ free_list_ b;
  pk_pins : ∀ f pg, page_at (pages_ b) f = Some pg → 0 ≤ pin_count_ pg ≤ 1
}.

(** The pin count stored in frame [f], when [f] is a frame of the pool. *)
Definition frame_pin_count (pages : list Page) (f : Z) : option Z :=
  pin_count_ <$> page_at pages f.

(** How the replacer follows the frames in every reachable state: it has a
    slot for each frame, holds a frame once, has no hole, knows every frame
    that is not on the free list, and its pinned flag tells whether the pin
    count is positive. *)
Record replacer_ok (b : BufferPoolManagerInstance.t) : Prop := {
  rk_max : max_size_ (replacer_ b) = pool_size_ b;
  rk_distinct : slots_distinct (replacer_ b);
  rk_holes : no_holes (replacer_ b);
  rk_known : ∀ f, 0 ≤ f < Z.of_nat (pool_size_ b) →
             registered (replacer_ b) f ∨ f ∈ free_list_ b;
  rk_mirror : ∀ f n, frame_pin_count (pages_ b) f = Some n →
              registered (replacer_ b) f →
              pinned_flag (replacer_ b) f = Some (0 <? n)
}.

(** * Properties of the clock replacer *)

Section find_slot_facts.

Lemma find_slot_Some x l i :
  find_slot x l = Some i → l !! i = Some x.
Proof.
  revert i. induction l as [|y l IH]; intros i; simpl; [done|].
  destruct (Z.eqb_spec y x) as [->|Hne].
  - by intros [= <-].
  - destruct (find_slot x l) as [j|]; simpl; [|done].
    intros [= <-]. by apply IH.
Qed.

Lemma find_slot_lt x l i :
  find_slot x l = Some i → (i < length l)%nat.
Proof. intros H. apply find_slot_Some in H. by eapply lookup_lt_Some. Qed.

Lemma find_slot_None x l :
  find_slot x l = None → x ∉ l.
Proof.
  induction l as [|y l IH]; simpl; [intros _; apply not_elem_of_nil|].
  destruct (Z.eqb_spec y x) as [->|Hne]; [done|].
  destruct (find_slot x l); simpl; [done|].
  intros _. rewrite not_elem_of_cons. split; [congruence | by apply IH].
Qed.

Lemma find_slot_is_Some x l :
  x ∈ l → is_Some (find_slot x l).
Proof.
  intros Hin. destruct (find_slot x l) eqn:E; [by eexists|].
  by apply find_slot_None in E.
Qed.

(** Writing [x] over another value at slot [i], with no [x] before. *)
Lemma find_slot_insert_new x l i :
  find_slot x l = None → (i < length l)%nat →
  find_slot x (<[i := x]> l) = Some i.
Proof.
  revert i. induction l as [|y l IH]; intros i; simpl; [lia|].
  destruct (Z.eqb_spec y x) as [->|Hne]; [done|].
  destruct (find_slot x l) eqn:E; simpl; [done|].
  intros _ Hi. destruct i as [|i]; simpl.
  - by rewrite Z.eqb_refl.
  - destruct (Z.eqb_spec y x); [done|].
    rewrite IH; [done..|lia].
Qed.

(** Writing at slot [i] does not move the first slot of another value [x],
    when neither the old nor the new content of slot [i] is [x]. *)
Lemma find_slot_insert_other x y l i :
  x ≠ y → l !! i ≠ Some x →
  find_slot x (<[i := y]> l) = find_slot x l.
Proof.
  intros Hxy. revert i. induction l as [|z l IH]; intros i Hi; [done|].
  destruct i as [|i]; simpl in *.
  - destruct (Z.eqb_spec y x); [congruence|].
    destruct (Z.eqb_spec z x); [congruence|done].
  - destruct (Z.eqb_spec z x); [done|]. by rewrite IH.
Qed.

End find_slot_facts.

Lemma count_slots_le test ids ps :
  (count_slots test ids ps ≤ length ids)%nat.
Proof.
  revert ps. induction ids as [|f ids IH]; intros [|p ps]; simpl; try lia.
  specialize (IH ps). destruct (test f p); lia.
Qed.

Section replacer_wf.

Lemma wf_new num_pages : wf (ClockReplacer.new num_pages).
Proof.
  split; simpl; rewrite ?length_replicate; try done; try lia.
  intros i f [-> _]%lookup_replicate. done.
Qed.

Lemma slot_of_lt r f i : slot_of r f = Some i → (i < max_size_ r)%nat.
Proof.
  unfold slot_of. intros H%find_slot_lt. rewrite length_take in H. lia.
Qed.

Lemma slot_of_lookup r f i : slot_of r f = Some i → frame_ids_ r !! i = Some f.
Proof.
  unfold slot_of. intros H. pose proof (find_slot_lt _ _ _ H) as Hlt.
  apply find_slot_Some in H. rewrite lookup_take_Some in H. tauto.
Qed.

(** Registering [f] in the first empty slot. *)
Lemma wf_register r f i p rb :
  wf r → slot_of r (-1) = Some i →
  wf {| frame_ids_ := <[i := f]> (frame_ids_ r);
        pinned_ := <[i := p]> (pinned_ r);
        ref_bits_ := <[i := rb]> (ref_bits_ r);
        max_size_ := max_size_ r; now_ := now_ r;
        size_ := (size_ r + 1) `min` max_size_ r |}.
Proof.
  intros [H1 H2 H3 H4 H5 H6] Hi.
  pose proof (slot_of_lt _ _ _ Hi) as Hlt.
  split; simpl; rewrite ?length_insert; try done; try lia.
  intros j g Hj Hg. destruct (decide (j = i)) as [->|Hne].
  - (* all the slots below the first empty one are occupied *)
    destruct (decide (i < size_ r)%nat); [lia|].
    assert (i = size_ r) as ->; [|lia].
    apply Nat.le_antisymm; [|lia].
    destruct (decide (i ≤ size_ r)%nat) as [|Hgt]; [done|exfalso].
    assert (is_Some (frame_ids_ r !! size_ r)) as [h Hh]
      by (apply lookup_lt_is_Some; lia).
    destruct (decide (h = -1)) as [->|Hh1]; [|specialize (H6 _ _ Hh Hh1); lia].
    (* an empty slot before [i] contradicts the choice of [i] *)
    unfold slot_of in Hi. rewrite take_ge in Hi by lia.
    clear -Hi Hh Hgt. revert Hi Hh Hgt. generalize (size_ r) as k.
    revert i. induction (frame_ids_ r) as [|y l IH]; intros i k; simpl; [done|].
    destruct (Z.eqb_spec y (-1)) as [->|Hy].
    + intros [= <-]. lia.
    + destruct (find_slot (-1) l) eqn:E; simpl; [|done].
      intros [= <-] Hk Hlt. destruct k as [|k]; simpl in Hk; [congruence|].
      eapply (IH n k); [done..|lia].
  - rewrite list_lookup_insert_ne in Hj by done.
    specialize (H6 _ _ Hj Hg). lia.
Qed.

Lemma wf_Pin f r : wf r → wf (Pin f r).
Proof.
  intros Hwf. unfold Pin.
  destruct (find_slot f _) as [i|] eqn:E.
  - destruct Hwf. split; simpl; rewrite ?length_insert; done.
  - destruct (find_slot (-1) _) as [i|] eqn:E'; [|done].
    by apply wf_register.
Qed.

Lemma wf_Unpin f r : wf r → wf (Unpin f r).
Proof.
  intros Hwf. unfold Unpin.
  destruct (find_slot f _) as [i|] eqn:E.
  - destruct (pinned_ r !! i) as [[]|]; [|done..].
    destruct Hwf. split; simpl; rewrite ?length_insert; done.
  - destruct (find_slot (-1) _) as [i|] eqn:E'; [|done].
    by apply wf_register.
Qed.

(** The hand only advances inside the sweep, where [size_ != 0]. *)
Lemma wf_advance r : wf r → size_ r ≠ 0%nat → wf (advance r).
Proof.
  intros [H1 H2 H3 H4 H5 H6] Hsz. split; simpl; try done.
  left. by apply Nat.mod_upper_bound.
Qed.

Lemma wf_clear_ref i r : wf r → wf (clear_ref i r).
Proof. intros []. split; simpl; rewrite ?length_insert; done. Qed.

Lemma wf_clear_slot i r : wf r → wf (clear_slot i r).
Proof.
  intros [H1 H2 H3 H4 H5 H6]. split; simpl; rewrite ?length_insert; try done.
  intros j f Hj Hf. destruct (decide (j = i)) as [->|Hne].
  - apply list_lookup_insert_Some in Hj as [(_ & ? & _)|(? & _)]; congruence.
  - rewrite list_lookup_insert_ne in Hj by done. eauto.
Qed.

Lemma wf_sweep fuel r f r' :
  wf r → size_ r ≠ 0%nat → sweep fuel r = Done (f, r') → wf r'.
Proof.
  revert r. induction fuel as [|fuel IH]; intros r Hwf Hsz; simpl; [done|].
  destruct (frame_ids_ r !! now_ r) as [g|]; [|done].
  destruct (pinned_ r !! now_ r) as [p|]; [|done].
  destruct (ref_bits_ r !! now_ r) as [rb|]; [|done].
  destruct (p || (g =? -1)).
  - apply IH; [by apply wf_advance|done].
  - destruct rb.
    + apply IH; [by apply wf_advance; [apply wf_clear_ref|]|done].
    + intros [= _ <-]. by apply wf_advance; [apply wf_clear_slot|].
Qed.

Lemma wf_Victim fuel r v r' :
  wf r → Victim fuel r = Done (v, r') → wf r'.
Proof.
  intros Hwf. unfold Victim.
  destruct (Nat.eqb_spec (size_ r) 0); [by intros [= _ <-]|].
  destruct (pinned_cnt r =? size_ r)%nat; [by intros [= _ <-]|].
  destruct (sweep fuel r) as [[f r'']| |] eqn:E; [|done..].
  intros [= _ <-]. by eapply wf_sweep.
Qed.

Lemma reachable_replacer_wf r : reachable_replacer r → wf r.
Proof.
  induction 1; eauto using wf_new, wf_Pin, wf_Unpin, wf_Victim.
Qed.

End replacer_wf.

Section replacer_observations.

Lemma slot_of_full r f : wf r → slot_of r f = find_slot f (frame_ids_ r).
Proof. intros Hwf. unfold slot_of. rewrite take_ge; [done|]. by rewrite wf_frame_ids. Qed.

(** A frame that is found is marked in place: the slots keep their frames. *)
Lemma Pin_registered r f i :
  slot_of r f = Some i →
  Pin f r = {| frame_ids_ := frame_ids_ r;
               pinned_ := <[i := true]> (pinned_ r);
               ref_bits_ := <[i := true]> (ref_bits_ r);
               max_size_ := max_size_ r; now_ := now_ r; size_ := size_ r |}.
Proof. unfold slot_of, Pin. by intros ->. Qed.

(** A frame that is not found takes the first empty slot. *)
Lemma Pin_fresh r f i :
  slot_of r f = None → slot_of r (-1) = Some i →
  Pin f r = {| frame_ids_ := <[i := f]> (frame_ids_ r);
               pinned_ := <[i := true]> (pinned_ r);
               ref_bits_ := <[i := false]> (ref_bits_ r);
               max_size_ := max_size_ r; now_ := now_ r;
               size_ := (size_ r + 1) `min` max_size_ r |}.
Proof. unfold slot_of, Pin. by intros -> ->. Qed.

Lemma Pin_full r f :
  slot_of r f = None → slot_of r (-1) = None → Pin f r = r.
Proof. unfold slot_of, Pin. by intros -> ->. Qed.

Lemma Unpin_fresh r f i :
  slot_of r f = None → slot_of r (-1) = Some i →
  Unpin f r = {| frame_ids_ := <[i := f]> (frame_ids_ r);
                 pinned_ := <[i := false]> (pinned_ r);
                 ref_bits_ := <[i := false]> (ref_bits_ r);
                 max_size_ := max_size_ r; now_ := now_ r;
                 size_ := (size_ r + 1) `min` max_size_ r |}.
Proof. unfold slot_of, Unpin. by intros -> ->. Qed.

End replacer_observations.

(** C8, as the code has it: [Pin(f)] on a frame that is not registered, with
    an empty slot left, registers [f] and marks it pinned, and leaves its
    reference bit clear; on a registered frame it marks [f] pinned and sets
    its reference bit. *)
Theorem Pin_registers_clear_or_marks_set (r : ClockReplacer.t) (f : Z) :
  wf r → f ≠ -1 →
  (¬ registered r f → has_free_slot r →
     registered (Pin f r) f ∧
     pinned_flag (Pin f r) f = Some true ∧
     ref_bit (Pin f r) f = Some false) ∧
  (registered r f →
     registered (Pin f r) f ∧
     pinned_flag (Pin f r) f = Some true ∧
     ref_bit (Pin f r) f = Some true).
Proof.
  intros Hwf Hf. split.
  - intros Hnot [i Hi].
    assert (slot_of r f = None) as Hnone.
    { destruct (slot_of r f) eqn:E; [|done]. destruct Hnot. split; [done|by eexists]. }
    rewrite (Pin_fresh _ _ _ Hnone Hi).
    pose proof (slot_of_lt _ _ _ Hi) as Hlt.
    rewrite slot_of_full in Hnone, Hi by done.
    assert (find_slot f (<[i := f]> (frame_ids_ r)) = Some i) as Hslot.
    { apply find_slot_insert_new; [done|]. by rewrite wf_frame_ids. }
    unfold registered, pinned_flag, ref_bit, slot_of; simpl.
    rewrite take_ge by (rewrite length_insert, wf_frame_ids; done).
    rewrite Hslot; simpl. split_and!; [done|by eexists|..].
    + apply list_lookup_insert_eq. by rewrite wf_pinned.
    + apply list_lookup_insert_eq. by rewrite wf_ref_bits.
  - intros [_ [i Hi]].
    rewrite (Pin_registered _ _ _ Hi).
    pose proof (slot_of_lt _ _ _ Hi) as Hlt.
    unfold registered, pinned_flag, ref_bit. unfold slot_of in *; simpl.
    rewrite Hi; simpl. split_and!; [done|by eexists|..].
    + apply list_lookup_insert_eq. by rewrite wf_pinned.
    + apply list_lookup_insert_eq. by rewrite wf_ref_bits.
Qed.

Lemma Pin_registers_clear_or_marks_set_witness :
  ref_bit (Pin 0 (ClockReplacer.new 2)) 0 = Some false ∧
  ref_bit (Pin 7 (Unpin 7 (ClockReplacer.new 2))) 7 = Some true.
Proof.
  split.
  - apply (Pin_registers_clear_or_marks_set (ClockReplacer.new 2) 0).
    + apply wf_new.
    + lia.
    + intros [_ [i Hi]]. vm_compute in Hi. discriminate.
    + exists 0%nat. reflexivity.
  - apply (Pin_registers_clear_or_marks_set (Unpin 7 (ClockReplacer.new 2)) 7).
    + apply wf_Unpin, wf_new.
    + lia.
    + split; [lia|]. exists 0%nat. reflexivity.
Defined.

(** C8 as stated fails: on a fresh replacer, [Pin(0)] registers frame 0
    with its reference bit clear, not set. *)
Lemma Pin_fresh_frame_ref_bit_not_set :
  ¬ registered (ClockReplacer.new 1) 0 ∧
  has_free_slot (ClockReplacer.new 1) ∧
  registered (Pin 0 (ClockReplacer.new 1)) 0 ∧
  pinned_flag (Pin 0 (ClockReplacer.new 1)) 0 = Some true ∧
  ref_bit (Pin 0 (ClockReplacer.new 1)) 0 ≠ Some true.
Proof.
  split_and!.
  - intros [_ [i Hi]]. vm_compute in Hi. discriminate.
  - exists 0%nat. reflexivity.
  - split; [lia|]. exists 0%nat. reflexivity.
  - reflexivity.
  - vm_compute. discriminate.
Qed.

(** C10: [Unpin(f)] on a frame that is registered and not pinned changes
    nothing: the reference bit, the pinned flag and [Size()] are as before. *)
Theorem Unpin_unpinned_unchanged (r : ClockReplacer.t) (f : Z) :
  registered r f → pinned_flag r f = Some false →
  Unpin f r = r ∧
  ref_bit (Unpin f r) f = ref_bit r f ∧
  pinned_flag (Unpin f r) f = Some false ∧
  Size (Unpin f r) = Size r.
Proof.
  intros [_ [i Hi]] Hp.
  assert (Unpin f r = r) as ->; [|done].
  unfold pinned_flag in Hp. rewrite Hi in Hp; simpl in Hp.
  unfold Unpin. unfold slot_of in Hi. by rewrite Hi, Hp.
Qed.

Lemma Unpin_unpinned_unchanged_witness :
  Unpin 3 (Unpin 3 (ClockReplacer.new 2)) = Unpin 3 (ClockReplacer.new 2) ∧
  ref_bit (Unpin 3 (Unpin 3 (ClockReplacer.new 2))) 3
    = ref_bit (Unpin 3 (ClockReplacer.new 2)) 3 ∧
  pinned_flag (Unpin 3 (Unpin 3 (ClockReplacer.new 2))) 3 = Some false ∧
  Size (Unpin 3 (Unpin 3 (ClockReplacer.new 2))) = Size (Unpin 3 (ClockReplacer.new 2)).
Proof.
  apply (Unpin_unpinned_unchanged (Unpin 3 (ClockReplacer.new 2)) 3).
  - split; [lia|]. exists 0%nat. reflexivity.
  - reflexivity.
Defined.

(** ** Termination of the sweep *)

Section sweep_termination.

Implicit Types r : ClockReplacer.t.

Lemma sweep_fuel_mono k k' r x :
  sweep k r = Done x → (k ≤ k')%nat → sweep k' r = Done x.
Proof.
  revert k' r. induction k as [|k IH]; intros k' r; simpl; [done|].
  intros H Hle. destruct k' as [|k']; [lia|]. simpl.
  destruct (frame_ids_ r !! now_ r) as [g|]; [|done].
  destruct (pinned_ r !! now_ r) as [p|]; [|done].
  destruct (ref_bits_ r !! now_ r) as [rb|]; [|done].
  destruct (p || (g =? -1)); [apply IH; [done|lia]|].
  destruct rb; [apply IH; [done|lia]|done].
Qed.

Lemma evictable_at_advance r e : evictable_at r e → evictable_at (advance r) e.
Proof. done. Qed.

Lemma evictable_at_clear_ref r i e : evictable_at r e → evictable_at (clear_ref i r) e.
Proof. done. Qed.

Lemma wf_lookups r i :
  wf r → (i < size_ r)%nat →
  ∃ f p rb, frame_ids_ r !! i = Some f ∧ pinned_ r !! i = Some p ∧
            ref_bits_ r !! i = Some rb.
Proof.
  intros [H1 H2 H3 H4 H5 H6] Hi.
  destruct (lookup_lt_is_Some_2 (frame_ids_ r) i) as [f Hf]; [lia|].
  destruct (lookup_lt_is_Some_2 (pinned_ r) i) as [p Hp]; [lia|].
  destruct (lookup_lt_is_Some_2 (ref_bits_ r) i) as [rb Hrb]; [lia|].
  by eexists _, _, _.
Qed.

Lemma wf_now_lt r : wf r → size_ r ≠ 0%nat → (now_ r < size_ r)%nat.
Proof. intros [_ _ _ _ [?|[? _]] _] ?; [done|lia]. Qed.

(** An evictable slot with a clear reference bit, [k] slots ahead of the
    hand, is reached: the sweep returns within [k + 1] visits. *)
Lemma sweep_reaches_clear k r e :
  wf r → size_ r ≠ 0%nat →
  e = ((now_ r + k) `mod` size_ r)%nat →
  evictable_at r e → ref_bits_ r !! e = Some false →
  ∃ x, sweep (S k) r = Done x.
Proof.
  revert r. induction k as [|k IH]; intros r Hwf Hsz He Hev Hrb.
  - rewrite Nat.add_0_r, Nat.mod_small in He by (by apply wf_now_lt). subst e.
    destruct Hev as (f & Hf & Hne & Hp). simpl. rewrite Hf, Hp, Hrb. simpl.
    apply Z.eqb_neq in Hne. rewrite Hne. by eexists.
  - pose proof (wf_now_lt _ Hwf Hsz) as Hnow.
    destruct (wf_lookups _ _ Hwf Hnow) as (f & p & rb & Hf & Hp & Hr).
    cbn [sweep]. rewrite Hf, Hp, Hr.
    assert (e = (now_ (advance r) + k) `mod` size_ r)%nat as He'.
    { simpl. rewrite Nat.Div0.add_mod_idemp_l. rewrite He. f_equal. lia. }
    destruct (p || (f =? -1)).
    + apply IH; [by apply wf_advance|done..].
    + destruct rb; [|by eexists].
      apply IH; [by apply wf_advance; [apply wf_clear_ref|]|done..|].
      simpl. destruct (decide (now_ r = e)) as [->|Hne].
      * apply list_lookup_insert_eq. by eapply lookup_lt_Some.
      * by rewrite list_lookup_insert_ne.
Qed.

(** An evictable slot [k] slots ahead of the hand: the sweep returns within
    [k + 1] visits and one more revolution. *)
Lemma sweep_reaches_evictable k r e :
  wf r → size_ r ≠ 0%nat →
  e = ((now_ r + k) `mod` size_ r)%nat →
  evictable_at r e →
  ∃ x, sweep (S k + size_ r) r = Done x.
Proof.
  revert r. induction k as [|k IH]; intros r Hwf Hsz He Hev.
  - rewrite Nat.add_0_r, Nat.mod_small in He by (by apply wf_now_lt). subst e.
    destruct Hev as (f & Hf & Hne & Hp).
    destruct (wf_lookups _ (now_ r) Hwf) as (? & ? & rb & ? & ? & Hr);
      [by apply wf_now_lt|].
    cbn [sweep Nat.add]. rewrite Hf, Hp, Hr. simpl.
    pose proof Hne as Hne'. apply Z.eqb_neq in Hne'. rewrite Hne'.
    destruct rb; [|by eexists].
    destruct (size_ r) as [|n] eqn:Hn; [done|].
    apply (sweep_reaches_clear n _ (now_ r)).
    + apply wf_advance; [by apply wf_clear_ref|simpl; lia].
    + simpl. lia.
    + simpl. rewrite Hn. rewrite Nat.Div0.add_mod_idemp_l.
      replace (now_ r + 1 + n)%nat with (now_ r + 1 * S n)%nat by lia.
      rewrite Nat.Div0.mod_add. symmetry. apply Nat.mod_small.
      pose proof (wf_now_lt _ Hwf). lia.
    + exists f. simpl. done.
    + simpl. apply list_lookup_insert_eq. by eapply lookup_lt_Some.
  - pose proof (wf_now_lt _ Hwf Hsz) as Hnow.
    destruct (wf_lookups _ _ Hwf Hnow) as (f & p & rb & Hf & Hp & Hr).
    cbn [sweep Nat.add]. rewrite Hf, Hp, Hr.
    assert (e = (now_ (advance r) + k) `mod` size_ r)%nat as He'.
    { simpl. rewrite Nat.Div0.add_mod_idemp_l. rewrite He. f_equal. lia. }
    destruct (p || (f =? -1)).
    + apply (IH (advance r)); [by apply wf_advance|done..].
    + destruct rb; [|by eexists].
      apply (IH (advance (clear_ref (now_ r) r)));
        [by apply wf_advance; [apply wf_clear_ref|]|done..].
Qed.

(** What a returning sweep did: it found a frame that is not pinned in some
    slot, emptied the slot, and left the hand one past it. *)
Lemma sweep_result fuel r f r' :
  sweep fuel r = Done (f, r') →
  ∃ i, frame_ids_ r !! i = Some f ∧ f ≠ -1 ∧ pinned_ r !! i = Some false ∧
       frame_ids_ r' = <[i := -1]> (frame_ids_ r) ∧ pinned_ r' = pinned_ r ∧
       now_ r' = ((i + 1) `mod` size_ r)%nat ∧
       size_ r' = size_ r ∧ max_size_ r' = max_size_ r.
Proof.
  revert r. induction fuel as [|fuel IH]; intros r; simpl; [done|].
  destruct (frame_ids_ r !! now_ r) as [g|] eqn:Hg; [|done].
  destruct (pinned_ r !! now_ r) as [p|] eqn:Hp; [|done].
  destruct (ref_bits_ r !! now_ r) as [rb|]; [|done].
  destruct (p || (g =? -1)) eqn:Hskip.
  - intros H. apply IH in H. exact H.
  - destruct rb.
    + intros H. apply IH in H. exact H.
    + intros [= <- <-]. apply orb_false_iff in Hskip as [-> Hne].
      apply Z.eqb_neq in Hne. exists (now_ r). by split_and!.
Qed.

Lemma count_slots_pos test ids ps :
  (0 < count_slots test ids ps)%nat →
  ∃ i f p, ids !! i = Some f ∧ ps !! i = Some p ∧ test f p = true.
Proof.
  revert ps. induction ids as [|f ids IH]; intros [|p ps]; simpl; try lia.
  destruct (test f p) eqn:Ht.
  - intros _. by exists 0%nat, f, p.
  - intros H. destruct (IH ps) as (i & g & q & ? & ? & ?); [lia|].
    by exists (S i), g, q.
Qed.

Lemma count_slots_0 test ids ps i f p :
  count_slots test ids ps = 0%nat →
  ids !! i = Some f → ps !! i = Some p → test f p = false.
Proof.
  revert ps i. induction ids as [|g ids IH]; intros [|q ps] [|i]; simpl; try done.
  - intros H [= ->] [= ->]. destruct (test f p); [lia|done].
  - intros H. apply IH. destruct (test g q); lia.
Qed.

Lemma count_slots_lt test ids ps i f p :
  ids !! i = Some f → ps !! i = Some p → test f p = false →
  (count_slots test ids ps < length ids)%nat.
Proof.
  revert ps i. induction ids as [|g ids IH]; intros [|q ps] [|i]; simpl; try done.
  - intros [= ->] [= ->] ->. pose proof (count_slots_le test ids ps). lia.
  - intros Hf Hp Ht. specialize (IH _ _ Hf Hp Ht). destruct (test g q); lia.
Qed.

Lemma count_slots_all test ids ps :
  length ids = length ps →
  (∀ i f p, ids !! i = Some f → ps !! i = Some p → test f p = true) →
  count_slots test ids ps = length ids.
Proof.
  revert ps. induction ids as [|g ids IH]; intros [|q ps]; simpl; try done.
  intros [= Hlen] Hall. rewrite (Hall 0%nat g q) by done.
  rewrite IH; [done..|]. intros i f p. apply (Hall (S i)).
Qed.

(** With an evictable frame, [Victim] returns [true] within two
    revolutions of the hand, with a frame that was registered and not
    pinned, and removes it. *)
Lemma Victim_returns_evictable r fuel :
  wf r → (0 < Size r)%nat → (2 * size_ r ≤ fuel)%nat →
  ∃ f r' i, Victim fuel r = Done (Some f, r') ∧
    frame_ids_ r !! i = Some f ∧ f ≠ -1 ∧ pinned_ r !! i = Some false ∧
    frame_ids_ r' = <[i := -1]> (frame_ids_ r) ∧ pinned_ r' = pinned_ r ∧
    now_ r' = ((i + 1) `mod` size_ r)%nat.
Proof.
  intros Hwf Hsize Hfuel.
  apply count_slots_pos in Hsize as (e & f & p & Hf & Hp & Ht).
  apply lookup_take_Some in Hf as [Hf _]. apply lookup_take_Some in Hp as [Hp _].
  apply andb_true_iff in Ht as [Hne%negb_true_iff%Z.eqb_neq ->%negb_true_iff].
  pose proof (wf_occupied _ Hwf _ _ Hf Hne) as He.
  assert (size_ r ≠ 0%nat) as Hsz by lia.
  pose proof (wf_now_lt _ Hwf Hsz) as Hnow.
  unfold Victim. destruct (Nat.eqb_spec (size_ r) 0); [done|].
  assert (pinned_cnt r < size_ r)%nat as Hcnt.
  { unfold pinned_cnt.
    replace (size_ r) with (length (take (size_ r) (frame_ids_ r))) at 3.
    2: { rewrite length_take, (wf_frame_ids _ Hwf). pose proof (wf_size _ Hwf). lia. }
    apply (count_slots_lt _ _ _ e f false).
    - by apply lookup_take_Some.
    - by apply lookup_take_Some.
    - unfold is_pinned_slot. by rewrite andb_false_r. }
  destruct (Nat.eqb_spec (pinned_cnt r) (size_ r)); [lia|].
  set (k := ((e + size_ r - now_ r) `mod` size_ r)%nat).
  assert (k < size_ r)%nat as Hk by (by apply Nat.mod_upper_bound).
  destruct (sweep_reaches_evictable k r e) as [[g r'] Hsw]; [done..| |by exists f|].
  { unfold k. rewrite Nat.Div0.add_mod_idemp_r.
    replace (now_ r + (e + size_ r - now_ r))%nat with (e + 1 * size_ r)%nat by lia.
    rewrite Nat.Div0.mod_add. symmetry. by apply Nat.mod_small. }
  rewrite (sweep_fuel_mono _ fuel _ _ Hsw) by lia.
  apply sweep_result in Hsw as (i & ? & ? & ? & ? & ? & ? & _).
  by exists g, r', i.
Qed.

(** Without an evictable frame, and with every slot below [size_] occupied,
    [Victim] returns [false] and changes nothing. *)
Lemma Victim_all_pinned r fuel :
  wf r → Size r = 0%nat →
  (∀ i, (i < size_ r)%nat → frame_ids_ r !! i ≠ Some (-1)) →
  Victim fuel r = Done (None, r).
Proof.
  intros Hwf Hsize Hfull. unfold Victim.
  destruct (Nat.eqb_spec (size_ r) 0); [done|].
  assert (pinned_cnt r = size_ r) as ->; [|by rewrite Nat.eqb_refl].
  unfold pinned_cnt. pose proof (wf_size _ Hwf) as Hle.
  rewrite count_slots_all.
  - rewrite length_take, (wf_frame_ids _ Hwf). lia.
  - rewrite !length_take, (wf_frame_ids _ Hwf), (wf_pinned _ Hwf). done.
  - intros i f p [Hf Hi]%lookup_take_Some [Hp _]%lookup_take_Some.
    assert (f ≠ -1) as Hne by (intros ->; by apply (Hfull i)).
    assert (is_evictable_slot f p = false) as Hev.
    { apply (count_slots_0 _ _ _ i _ _ Hsize); apply lookup_take_Some;
        (split; [done|lia]). }
    unfold is_evictable_slot, is_pinned_slot in *.
    apply Z.eqb_neq in Hne. rewrite Hne in *. simpl in *.
    by destruct p.
Qed.

Lemma sweep_nothing_evictable fuel r :
  wf r → size_ r ≠ 0%nat → nothing_evictable r → sweep fuel r = Diverge.
Proof.
  revert r. induction fuel as [|fuel IH]; intros r Hwf Hsz Hno; [done|].
  pose proof (wf_now_lt _ Hwf Hsz) as Hnow.
  destruct (wf_lookups _ _ Hwf Hnow) as (f & p & rb & Hf & Hp & Hr).
  simpl. rewrite Hf, Hp, Hr. rewrite (Hno _ _ _ Hnow Hf Hp).
  apply IH; [by apply wf_advance|done..].
Qed.

(** Without an evictable frame, and with an empty slot below [size_],
    [Victim] does not return. *)
Lemma Victim_diverges r :
  wf r → Size r = 0%nat →
  (∃ i, (i < size_ r)%nat ∧ frame_ids_ r !! i = Some (-1)) →
  ∀ fuel, Victim fuel r = Diverge.
Proof.
  intros Hwf Hsize (i & Hi & Hhole) fuel. unfold Victim.
  destruct (Nat.eqb_spec (size_ r) 0); [lia|].
  pose proof (wf_size _ Hwf) as Hle.
  assert (pinned_cnt r < size_ r)%nat as Hcnt.
  { unfold pinned_cnt.
    replace (size_ r) with (length (take (size_ r) (frame_ids_ r))) at 3.
    2: { rewrite length_take, (wf_frame_ids _ Hwf). lia. }
    destruct (lookup_lt_is_Some_2 (pinned_ r) i) as [p Hp];
      [rewrite (wf_pinned _ Hwf); lia|].
    apply (count_slots_lt _ _ _ i (-1) p); [by apply lookup_take_Some..|done]. }
  destruct (Nat.eqb_spec (pinned_cnt r) (size_ r)); [lia|].
  rewrite sweep_nothing_evictable; [done..|].
  intros j f p Hj Hf Hp.
  assert (is_evictable_slot f p = false) as Hev.
  { apply (count_slots_0 _ _ _ j _ _ Hsize); apply lookup_take_Some;
      (split; [done|lia]). }
  unfold is_evictable_slot in Hev. destruct (f =? -1), p; done.
Qed.

End sweep_termination.

(** C2, where the code departs from it: after
    [ClockReplacer(1); Pin(0); Unpin(0); Victim(&f)] no frame is evictable,
    yet a second [Victim] does not return [false]: it never returns. *)
Theorem Victim_diverges_on_hole :
  reachable_replacer hole_replacer ∧
  Size hole_replacer = 0%nat ∧
  ∀ fuel, Victim fuel hole_replacer = Diverge.
Proof.
  split_and!.
  - apply (reachable_replacer_Victim 2 (Unpin 0 (Pin 0 (ClockReplacer.new 1))) (Some 0)).
    + apply reachable_replacer_Unpin; [lia|].
      apply reachable_replacer_Pin; [lia|]. constructor.
    + reflexivity.
  - reflexivity.
  - intros fuel. unfold Victim.
    change (size_ hole_replacer =? 0)%nat with false.
    change (pinned_cnt hole_replacer =? size_ hole_replacer)%nat with false.
    cbv iota.
    assert (sweep fuel hole_replacer = Diverge) as ->; [|done].
    induction fuel as [|fuel IH]; [done|]. exact IH.
Qed.

(** * Properties of the buffer pool manager instance *)

Section call_paths.

(** The hit path of [FetchPgImp] on a frame nobody holds: the pin count is
    incremented, the replacer is told, the frame is returned. *)
Lemma FetchPgImp_hit_unpinned fuel page_id b f pg :
  page_table_ b !! page_id = Some f →
  page_at (pages_ b) f = Some pg →
  pin_count_ pg ≤ 0 →
  FetchPgImp fuel page_id b =
    Done (Some f,
          set_replacer (Pin f (replacer_ b))
            (put_page f {| page_id_ := page_id_ pg; pin_count_ := pin_count_ pg + 1;
                           is_dirty_ := is_dirty_ pg; data_ := data_ pg |} b)).
Proof.
  intros Ht Hp Hc. unfold FetchPgImp, get_page. rewrite Ht, Hp; simpl.
  destruct (Z.ltb_spec 0 (pin_count_ pg)); [lia|done].
Qed.

(** The hit path on a frame that is already pinned: [nullptr], and nothing
    changes. *)
Lemma FetchPgImp_hit_pinned fuel page_id b f pg :
  page_table_ b !! page_id = Some f →
  page_at (pages_ b) f = Some pg →
  0 < pin_count_ pg →
  FetchPgImp fuel page_id b = Done (None, b).
Proof.
  intros Ht Hp Hc. unfold FetchPgImp, get_page. rewrite Ht, Hp; simpl.
  destruct (Z.ltb_spec 0 (pin_count_ pg)); [done|lia].
Qed.

(** The miss path with a frame on the free list. *)
Lemma FetchPgImp_miss_free fuel page_id b f rest :
  page_table_ b !! page_id = None →
  free_list_ b = f :: rest → f ≠ -1 →
  FetchPgImp fuel page_id b = install_fetched page_id f (set_free_list rest b).
Proof.
  intros Ht Hfl Hf. unfold FetchPgImp, pop_free. rewrite Ht, Hfl.
  destruct (Z.eqb_spec f (-1)); done.
Qed.

(** The miss path with an empty free list and a victim. *)
Lemma FetchPgImp_miss_victim fuel page_id b f r :
  page_table_ b !! page_id = None →
  free_list_ b = [] →
  Victim fuel (replacer_ b) = Done (Some f, r) →
  FetchPgImp fuel page_id b = install_fetched page_id f (set_replacer r b).
Proof.
  intros Ht Hfl Hv. unfold FetchPgImp, pop_free. rewrite Ht, Hfl. simpl.
  by rewrite Hv.
Qed.

(** What [install_fetched] leaves behind, field by field. *)
Lemma install_fetched_eq page_id f b pg :
  page_at (pages_ b) f = Some pg →
  install_fetched page_id f b =
    let disk := if is_dirty_ pg
                then <[page_id_ pg := data_ pg]> (disk_manager_ b)
                else disk_manager_ b in
    Done (Some f,
          {| pool_size_ := pool_size_ b;
             num_instances_ := num_instances_ b;
             instance_index_ := instance_index_ b;
             next_page_id_ := next_page_id_ b;
             pages_ := <[Z.to_nat f :=
                         {| page_id_ := page_id; pin_count_ := 1; is_dirty_ := false;
                            data_ := default zero_data (disk !! page_id) |}]> (pages_ b);
             replacer_ := Pin f (replacer_ b);
             page_table_ := <[page_id := f]> (delete (page_id_ pg) (page_table_ b));
             free_list_ := free_list_ b;
             disk_manager_ := disk;
             deallocated_ := deallocated_ b |}).
Proof.
  intros Hp. unfold install_fetched, get_page. rewrite Hp. simpl.
  by destruct (is_dirty_ pg).
Qed.



Lemma UnpinPgImp_pinned page_id d b f pg :
  page_table_ b !! page_id = Some f → page_at (pages_ b) f = Some pg →
  0 < pin_count_ pg →
  UnpinPgImp page_id d b =
    Done (true,
          set_replacer
            (if pin_count_ pg - 1 =? 0 then Unpin f (replacer_ b) else replacer_ b)
            (put_page f {| page_id_ := page_id_ pg;
                           pin_count_ := pin_count_ pg - 1;
                           is_dirty_ := is_dirty_ pg || d;
                           data_ := data_ pg |} b)).
Proof.
  intros Ht Hp Hc. unfold UnpinPgImp, get_page. rewrite Ht, Hp; simpl.
  destruct (Z.ltb_spec 0 (pin_count_ pg)); [|lia].
  by destruct (is_dirty_ pg).
Qed.


(** What [install_new] leaves behind, field by field. *)
Lemma install_new_eq f b pg :
  page_at (pages_ b) f = Some pg →
  ValidatePageId (next_page_id_ b) b = true →
  install_new f b =
    Done (Some (f, next_page_id_ b),
          {| pool_size_ := pool_size_ b;
             num_instances_ := num_instances_ b;
             instance_index_ := instance_index_ b;
             next_page_id_ := wrap32 (next_page_id_ b + num_instances_ b);
             pages_ := <[Z.to_nat f :=
                         {| page_id_ := next_page_id_ b; pin_count_ := 1;
                            is_dirty_ := true; data_ := zero_data |}]> (pages_ b);
             replacer_ := Pin f (replacer_ b);
             page_table_ := <[next_page_id_ b := f]> (page_table_ b);
             free_list_ := free_list_ b;
             disk_manager_ := disk_manager_ b;
             deallocated_ := deallocated_ b |}).
Proof.
  intros Hp Hv. unfold install_new, AllocatePage.
  change (ValidatePageId (next_page_id_ b) (set_next_page_id _ b))
    with (ValidatePageId (next_page_id_ b) b).
  rewrite Hv. simpl. unfold get_page. simpl. by rewrite Hp.
Qed.

End call_paths.

(** C1, where the code departs from it: on a pool of one frame,
    [NewPage] returns page 0 in frame 0 with pin count 1; page 0 is then
    resident, yet [FetchPage(0)] returns no frame and leaves the pin count
    at 1 instead of raising it to 2. *)
Theorem FetchPgImp_refuses_pinned_resident_page :
  ∃ b0 b1 pg,
    BufferPoolManagerInstance.new 1 1 0 ∅ = Done b0 ∧
    NewPgImp 0 b0 = Done (Some (0, 0), b1) ∧
    page_table_ b1 !! 0 = Some 0 ∧
    page_at (pages_ b1) 0 = Some pg ∧ pin_count_ pg = 1 ∧
    ∀ fuel, FetchPgImp fuel 0 b1 = Done (None, b1).
Proof.
  eexists _, _, _. split_and!.
  - reflexivity.
  - vm_compute. reflexivity.
  - reflexivity.
  - reflexivity.
  - reflexivity.
  - intros fuel. eapply FetchPgImp_hit_pinned; [reflexivity..|done].
Qed.



(** C7: [DeletePgImp] on a page that is not resident calls the deallocation
    hook and returns [true]; on a resident page with a positive pin count it
    returns [false] and changes nothing; on a resident page with pin count 0
    it resets the frame's metadata, pushes the frame on the front of the
    free list, erases the page table entry, calls the deallocation hook and
    returns [true]. *)
Theorem DeletePgImp_spec (page_id : Z) (b : BufferPoolManagerInstance.t) :
  (page_table_ b !! page_id = None →
     DeletePgImp page_id b = Done (true, DeallocatePage page_id b)) ∧
  (∀ f pg,
     page_table_ b !! page_id = Some f → page_at (pages_ b) f = Some pg →
     (0 < pin_count_ pg → DeletePgImp page_id b = Done (false, b)) ∧
     (pin_count_ pg = 0 →
        ∃ b', DeletePgImp page_id b = Done (true, b') ∧
          page_at (pages_ b') f =
            Some {| page_id_ := INVALID_PAGE_ID; pin_count_ := 0;
                    is_dirty_ := false; data_ := data_ pg |} ∧
          (∀ g, g ≠ f → page_at (pages_ b') g = page_at (pages_ b) g) ∧
          free_list_ b' = f :: free_list_ b ∧
          page_table_ b' = delete page_id (page_table_ b) ∧
          deallocated_ b' = page_id :: deallocated_ b ∧
          replacer_ b' = replacer_ b ∧
          disk_manager_ b' = disk_manager_ b ∧
          next_page_id_ b' = next_page_id_ b)).
Proof.
  split.
  - intros Ht. unfold DeletePgImp. by rewrite Ht.
  - intros f pg Ht Hp. unfold DeletePgImp, get_page. rewrite Ht, Hp; simpl. split.
    + intros Hc. destruct (Z.ltb_spec 0 (pin_count_ pg)); [done|lia].
    + intros ->. simpl. eexists. split; [done|]. simpl.
      unfold page_at in *. destruct (Z.ltb_spec f 0); [done|].
      split_and!; try done.
      * apply list_lookup_insert_eq. by eapply lookup_lt_Some.
      * intros g Hg. destruct (Z.ltb_spec g 0); [done|].
        apply list_lookup_insert_ne. lia.
Qed.

Lemma DeletePgImp_spec_witness :
  ∃ b0 b1 b2,
    BufferPoolManagerInstance.new 1 1 0 ∅ = Done b0 ∧
    NewPgImp 0 b0 = Done (Some (0, 0), b1) ∧
    DeletePgImp 7 b1 = Done (true, DeallocatePage 7 b1) ∧
    DeletePgImp 0 b1 = Done (false, b1) ∧
    UnpinPgImp 0 false b1 = Done (true, b2) ∧
    ∃ b3, DeletePgImp 0 b2 = Done (true, b3) ∧
      page_at (pages_ b3) 0 =
        Some {| page_id_ := INVALID_PAGE_ID; pin_count_ := 0;
                is_dirty_ := false; data_ := zero_data |} ∧
      (∀ g, g ≠ 0 → page_at (pages_ b3) g = page_at (pages_ b2) g) ∧
      free_list_ b3 = 0 :: free_list_ b2 ∧
      page_table_ b3 = delete 0 (page_table_ b2) ∧
      deallocated_ b3 = 0 :: deallocated_ b2 ∧
      replacer_ b3 = replacer_ b2 ∧
      disk_manager_ b3 = disk_manager_ b2 ∧
      next_page_id_ b3 = next_page_id_ b2.
Proof.
  eexists _, _, _. split_and!.
  - reflexivity.
  - vm_compute. reflexivity.
  - apply (DeletePgImp_spec 7). reflexivity.
  - eapply (DeletePgImp_spec 0); [reflexivity..|done].
  - vm_compute. reflexivity.
  - eapply (proj2 (DeletePgImp_spec 0 _) 0 (mkPage 0 0 true zero_data)); reflexivity.
Defined.

(** ** Running a sequence of requests *)

Section running.





Lemma reachable_serves fuel qs b b' :
  reachable b → serves fuel qs b = Done b' → reachable b'.
Proof.
  revert b. induction qs as [|q qs IH]; intros b Hb; simpl.
  - by intros [= <-].
  - destruct (serve fuel q b) as [b1| |] eqn:E; simpl; [|done..].
    apply IH. by eapply reachable_serve.
Qed.

End running.

#[local] Arguments Pin : simpl never.
#[local] Arguments Unpin : simpl never.
#[local] Arguments Victim : simpl never.
#[local] Arguments zero_data : simpl never.








(** ** Page id allocation *)

#[local] Arguments wrap32 : simpl never.
#[local] Arguments to_uint32 : simpl never.

Section allocation.

Lemma wrap32_small z : - 2 ^ 31 ≤ z < 2 ^ 31 → wrap32 z = z.
Proof. intros H. unfold wrap32. rewrite Z.mod_small; lia. Qed.

Lemma to_uint32_small z : 0 ≤ z < 2 ^ 32 → to_uint32 z = z.
Proof. intros H. unfold to_uint32. by rewrite Z.mod_small. Qed.

(** One call, while the returned id is a non-negative [page_id_t] in the
    residue class of the instance: the assertion holds. *)
Lemma AllocatePage_returns b :
  0 ≤ next_page_id_ b < 2 ^ 31 →
  next_page_id_ b `mod` num_instances_ b = instance_index_ b →
  AllocatePage b =
    Done (next_page_id_ b,
          set_next_page_id (wrap32 (next_page_id_ b + num_instances_ b)) b).
Proof.
  intros Hr Hm. unfold AllocatePage, ValidatePageId. simpl.
  rewrite to_uint32_small by lia. rewrite Hm. by rewrite Z.eqb_refl.
Qed.

(** [n] calls, while the ids stay below [2^31]. *)
Lemma allocate_n_no_overflow n b :
  0 < num_instances_ b →
  0 ≤ next_page_id_ b →
  next_page_id_ b `mod` num_instances_ b = instance_index_ b →
  next_page_id_ b + (Z.of_nat n - 1) * num_instances_ b < 2 ^ 31 →
  ∃ b', allocate_n n b =
    Done ((λ k, next_page_id_ b + Z.of_nat k * num_instances_ b) <$> seq 0 n, b').
Proof.
  revert b. induction n as [|n IH]; intros b Hni H0 Hm Hlt.
  - by eexists.
  - replace (Z.of_nat (S n) - 1) with (Z.of_nat n) in Hlt by lia.
    assert (0 ≤ Z.of_nat n * num_instances_ b) as Hprod
      by (apply Z.mul_nonneg_nonneg; lia).
    cbn [allocate_n]. rewrite AllocatePage_returns; [|lia|done].
    cbn [mbind outcome_bind].
    destruct n as [|n].
    + eexists. cbn. by rewrite Z.add_0_r.
    + set (b1 := set_next_page_id _ b).
      replace (Z.of_nat (S n) * num_instances_ b)
        with (num_instances_ b + Z.of_nat n * num_instances_ b) in * by lia.
      assert (0 ≤ Z.of_nat n * num_instances_ b) as Hprod'
        by (apply Z.mul_nonneg_nonneg; lia).
      assert (next_page_id_ b1 = next_page_id_ b + num_instances_ b) as Hb1.
      { unfold b1; simpl. apply wrap32_small. lia. }
      destruct (IH b1) as [b' Hb'].
      * done.
      * rewrite Hb1. lia.
      * rewrite Hb1. simpl num_instances_. simpl instance_index_.
        rewrite <- Z.add_mod_idemp_r, Z.mod_same, Z.add_0_r by lia. done.
      * rewrite Hb1. simpl num_instances_. lia.
      * rewrite Hb'. eexists. cbn [mbind outcome_bind]. f_equal. f_equal.
        rewrite Hb1. simpl num_instances_.
        change (seq 0 (S (S n))) with (0%nat :: seq 1 (S n)).
        rewrite <- (fmap_S_seq 0). rewrite fmap_cons, <- list_fmap_compose.
        f_equal; [lia|]. apply list_fmap_ext. intros _ k _. simpl. lia.
Qed.

End allocation.

(** C5, as the code has it: the ids returned by successive [AllocatePage]
    calls are [instance_index], [instance_index + num_instances], ... as long
    as they fit in a [page_id_t], that is stay below [2^31]; each of them is
    congruent to [instance_index] modulo [num_instances]; and on a pool of
    three frames with [num_instances = 4] and [instance_index = 2] the first
    three [NewPage] calls return the ids 2, 6 and 10. *)
Theorem AllocatePage_sequence
    (pool_size : nat) (num_instances instance_index : Z)
    (disk : gmap Z (list byte)) (n : nat) :
  0 ≤ instance_index < num_instances →
  instance_index + (Z.of_nat n - 1) * num_instances < 2 ^ 31 →
  let ids := (λ k, instance_index + Z.of_nat k * num_instances) <$> seq 0 n in
  (∃ b b',
     BufferPoolManagerInstance.new pool_size num_instances instance_index disk = Done b ∧
     allocate_n n b = Done (ids, b')) ∧
  Forall (λ id, id `mod` num_instances = instance_index) ids ∧
  (∀ fuel, ∃ b0 b1 b2 b3 f1 f2 f3,
     BufferPoolManagerInstance.new 3 4 2 disk = Done b0 ∧
     NewPgImp fuel b0 = Done (Some (f1, 2), b1) ∧
     NewPgImp fuel b1 = Done (Some (f2, 6), b2) ∧
     NewPgImp fuel b2 = Done (Some (f3, 10), b3)).
Proof.
  intros [Hii Hlt'] Hlt ids.
  assert (0 < num_instances) as Hni by lia.
  split_and!.
  - set (b0 := BufferPoolManagerInstance.mk pool_size num_instances instance_index
                  (wrap32 instance_index) (replicate pool_size empty_page)
                  (ClockReplacer.new pool_size) ∅ (Z.of_nat <$> seq 0 pool_size)
                  disk []).
    assert (BufferPoolManagerInstance.new pool_size num_instances instance_index disk
            = Done b0) as Hnew.
    { unfold BufferPoolManagerInstance.new.
      destruct (Z.ltb_spec 0 num_instances); [|lia].
      destruct (Z.ltb_spec instance_index num_instances); [|lia]. done. }
    exists b0. destruct n as [|n]; [by eexists|].
    replace (Z.of_nat (S n) - 1) with (Z.of_nat n) in Hlt by lia.
    assert (0 ≤ Z.of_nat n * num_instances) as Hprod
      by (apply Z.mul_nonneg_nonneg; lia).
    assert (wrap32 instance_index = instance_index) as Hw
      by (apply wrap32_small; lia).
    destruct (allocate_n_no_overflow (S n) b0) as [b' Hb'].
    + done.
    + cbn [b0 next_page_id_]. lia.
    + cbn [b0 next_page_id_ num_instances_ instance_index_]. rewrite Hw.
      by apply Z.mod_small.
    + cbn [b0 next_page_id_ num_instances_]. rewrite Hw.
      replace (Z.of_nat (S n) - 1) with (Z.of_nat n) by lia. done.
    + exists b'. split; [done|]. rewrite Hb'.
      cbn [b0 next_page_id_ num_instances_]. by rewrite Hw.
  - apply Forall_fmap, Forall_forall. intros k _. unfold compose.
    rewrite Z.mod_add by lia. by apply Z.mod_small.
  - intros fuel. eexists _, _, _, _, _, _, _. split_and!.
    + reflexivity.
    + vm_compute. reflexivity.
    + vm_compute. reflexivity.
    + vm_compute. reflexivity.
Qed.

Lemma AllocatePage_sequence_witness :
  (∃ b b', BufferPoolManagerInstance.new 3 4 2 ∅ = Done b ∧
     allocate_n 3 b = Done ([2; 6; 10], b')) ∧
  Forall (λ id, id `mod` 4 = 2) [2; 6; 10].
Proof.
  destruct (AllocatePage_sequence 3 4 2 ∅ 3) as (H1 & H2 & _); [lia | lia |].
  split; [exact H1 | exact H2].
Defined.

(** C5 as stated fails: with [num_instances = 2^31] and [instance_index = 0]
    the second id is [-2^31], where the claim has [0 + 2^31]; the counter is
    a 32-bit [page_id_t] and wraps. *)
Lemma AllocatePage_wraps :
  ∃ b b', BufferPoolManagerInstance.new 1 (2 ^ 31) 0 ∅ = Done b ∧
    allocate_n 2 b = Done ([0; - 2 ^ 31], b') ∧
    [0; - 2 ^ 31] ≠ (λ k, 0 + Z.of_nat k * 2 ^ 31) <$> seq 0 2.
Proof.
  eexists _, _. split_and!.
  - reflexivity.
  - vm_compute. reflexivity.
  - vm_compute. discriminate.
Qed.

(** ** Frame ids stay inside the pool *)

Section replacer_slots.

Lemma sweep_slots fuel r f r' :
  sweep fuel r = Done (f, r') →
  f ≠ -1 ∧ (∃ i, frame_ids_ r !! i = Some f) ∧ slots_within r' r.
Proof.
  revert r. induction fuel as [|fuel IH]; intros r; simpl; [done|].
  destruct (frame_ids_ r !! now_ r) as [g|] eqn:Hg; [|done].
  destruct (pinned_ r !! now_ r) as [p|]; [|done].
  destruct (ref_bits_ r !! now_ r) as [rb|]; [|done].
  destruct (p || (g =? -1)) eqn:Hskip.
  - intros H. apply IH in H as (? & ? & ?). done.
  - destruct rb.
    + intros H. apply IH in H as (? & ? & ?). done.
    + intros [= <- <-]. apply orb_false_iff in Hskip as [_ Hne].
      apply Z.eqb_neq in Hne. split_and!; [done|by eexists|].
      intros i h Hi Hh. simpl in Hi.
      apply list_lookup_insert_Some in Hi as [(_ & ? & _)|(_ & ?)]; [congruence|done].
Qed.

Lemma Victim_slots fuel r v r' :
  Victim fuel r = Done (v, r') →
  slots_within r' r ∧
  (v = None → r' = r) ∧
  (∀ f, v = Some f → f ≠ -1 ∧ ∃ i, frame_ids_ r !! i = Some f).
Proof.
  unfold Victim.
  destruct (size_ r =? 0)%nat; [intros [= <- <-]; by split_and!; [intros ???|..]|].
  destruct (pinned_cnt r =? size_ r)%nat; [intros [= <- <-]; by split_and!; [intros ???|..]|].
  destruct (sweep fuel r) as [[f r'']| |] eqn:E; [|done..].
  intros [= <- <-]. apply sweep_slots in E as (? & ? & ?).
  split_and!; [done|done|]. by intros ? [= <-].
Qed.

Lemma Pin_slots f r i g :
  frame_ids_ (Pin f r) !! i = Some g → g = f ∨ frame_ids_ r !! i = Some g.
Proof.
  unfold Pin. destruct (find_slot f _); simpl; [by right|].
  destruct (find_slot (-1) _); simpl; [|by right].
  intros [(_ & ? & _)|(_ & ?)]%list_lookup_insert_Some; [by left|by right].
Qed.

Lemma Unpin_slots f r i g :
  frame_ids_ (Unpin f r) !! i = Some g → g = f ∨ frame_ids_ r !! i = Some g.
Proof.
  unfold Unpin. destruct (find_slot f _) as [j|]; simpl.
  - destruct (pinned_ r !! j) as [[]|]; simpl; by right.
  - destruct (find_slot (-1) _); simpl; [|by right].
    intros [(_ & ? & _)|(_ & ?)]%list_lookup_insert_Some; [by left|by right].
Qed.

End replacer_slots.

Section frames_in_range.

Implicit Types b : BufferPoolManagerInstance.t.

Lemma page_at_Some pages f pg :
  page_at pages f = Some pg → 0 ≤ f ∧ pages !! Z.to_nat f = Some pg.
Proof. unfold page_at. destruct (Z.ltb_spec f 0); [done|]. by split. Qed.

Lemma page_at_lt pages f pg :
  page_at pages f = Some pg → 0 ≤ f < Z.of_nat (length pages).
Proof.
  intros [? H%lookup_lt_Some]%page_at_Some. lia.
Qed.

Lemma page_at_in_range pages f :
  0 ≤ f < Z.of_nat (length pages) → is_Some (page_at pages f).
Proof.
  intros H. unfold page_at. destruct (Z.ltb_spec f 0); [lia|].
  apply lookup_lt_is_Some. lia.
Qed.

Lemma page_at_insert_eq pages f pg pg' :
  page_at pages f = Some pg →
  page_at (<[Z.to_nat f := pg']> pages) f = Some pg'.
Proof.
  intros [? H%lookup_lt_Some]%page_at_Some. unfold page_at.
  destruct (Z.ltb_spec f 0); [lia|]. by apply list_lookup_insert_eq.
Qed.

Lemma page_at_insert_ne pages f g pg' :
  0 ≤ f → f ≠ g →
  page_at (<[Z.to_nat f := pg']> pages) g = page_at pages g.
Proof.
  intros Hf Hne. unfold page_at. destruct (Z.ltb_spec g 0); [done|].
  apply list_lookup_insert_ne. lia.
Qed.

(** [frames_ok] only reads the pool size, the length of [pages_], the
    replacer, the free list and the page table. *)
Lemma frames_ok_ext b b' :
  frames_ok b →
  pool_size_ b' = pool_size_ b →
  length (pages_ b') = length (pages_ b) →
  replacer_ b' = replacer_ b →
  free_list_ b' = free_list_ b →
  page_table_ b' = page_table_ b →
  frames_ok b'.
Proof.
  intros [H1 H2 H3 H4 H5] Hs Hp Hr Hf Ht.
  split; rewrite ?Hs, ?Hp, ?Hr, ?Hf, ?Ht; done.
Qed.

Lemma frames_ok_new pool_size num_instances instance_index disk b :
  BufferPoolManagerInstance.new pool_size num_instances instance_index disk = Done b →
  frames_ok b.
Proof.
  unfold BufferPoolManagerInstance.new.
  destruct (negb _); [done|]. destruct (negb _); [done|].
  intros [= <-]. split; simpl.
  - by rewrite length_replicate.
  - apply wf_new.
  - intros f (k & -> & Hk)%list_elem_of_fmap.
    apply elem_of_seq in Hk. lia.
  - intros p f. by rewrite lookup_empty.
  - intros i f [-> _]%lookup_replicate. done.
Qed.

Lemma frames_ok_Pin b f :
  frames_ok b → 0 ≤ f < Z.of_nat (pool_size_ b) →
  frames_ok (set_replacer (Pin f (replacer_ b)) b).
Proof.
  intros [H1 H2 H3 H4 H5] Hf. split; simpl; try done.
  - by apply wf_Pin.
  - intros i g [->|Hg]%Pin_slots ?; eauto.
Qed.

Lemma frames_ok_Unpin b f :
  frames_ok b → 0 ≤ f < Z.of_nat (pool_size_ b) →
  frames_ok (set_replacer (Unpin f (replacer_ b)) b).
Proof.
  intros [H1 H2 H3 H4 H5] Hf. split; simpl; try done.
  - by apply wf_Unpin.
  - intros i g [->|Hg]%Unpin_slots ?; eauto.
Qed.

Lemma frames_ok_Victim fuel b v r :
  frames_ok b → Victim fuel (replacer_ b) = Done (v, r) →
  frames_ok (set_replacer r b) ∧
  (v = None → r = replacer_ b) ∧
  (∀ f, v = Some f → 0 ≤ f < Z.of_nat (pool_size_ b)).
Proof.
  intros [H1 H2 H3 H4 H5] Hv.
  pose proof (wf_Victim _ _ _ _ H2 Hv) as Hwf.
  apply Victim_slots in Hv as (Hin & Hnone & Hsome).
  split_and!; [|done|].
  - split; simpl; try done. intros i g Hg Hne. eauto.
  - intros f Hf. destruct (Hsome f Hf) as (Hne & i & Hi). eauto.
Qed.

Lemma frames_ok_put_page b f pg :
  frames_ok b → frames_ok (put_page f pg b).
Proof.
  intros H. eapply frames_ok_ext; [done|simpl; try done..].
  by rewrite length_insert.
Qed.

Lemma frames_ok_in_range b f :
  frames_ok b → 0 ≤ f < Z.of_nat (pool_size_ b) →
  ∃ pg, page_at (pages_ b) f = Some pg.
Proof.
  intros [H1 _ _ _ _] Hf. apply page_at_in_range. by rewrite H1.
Qed.

Lemma frames_ok_FlushPgImp p b x b' :
  frames_ok b → FlushPgImp p b = Done (x, b') → frames_ok b'.
Proof.
  intros Hok. unfold FlushPgImp, get_page.
  destruct (page_table_ b !! p) as [f|]; [|by intros [= _ <-]].
  destruct (page_at (pages_ b) f) as [pg|]; [|done]. simpl.
  intros [= _ <-]. apply frames_ok_put_page.
  eapply frames_ok_ext; [done|done..].
Qed.

Lemma frame_page_id_insert_eq pages f pg pg' :
  page_at pages f = Some pg →
  frame_page_id (<[Z.to_nat f := pg']> pages) f = Some (page_id_ pg').
Proof.
  intros H. unfold frame_page_id. by rewrite (page_at_insert_eq _ _ _ _ H).
Qed.

Lemma frame_page_id_insert_ne pages f g pg pg' :
  page_at pages f = Some pg → f ≠ g →
  frame_page_id (<[Z.to_nat f := pg']> pages) g = frame_page_id pages g.
Proof.
  intros [Hf _]%page_at_Some Hne. unfold frame_page_id.
  by rewrite page_at_insert_ne.
Qed.

(** Rewriting a frame without changing its page id. *)
Lemma frame_page_id_insert_same pages f g pg pg' :
  page_at pages f = Some pg → page_id_ pg' = page_id_ pg →
  frame_page_id (<[Z.to_nat f := pg']> pages) g = frame_page_id pages g.
Proof.
  intros Hp Hid. destruct (decide (f = g)) as [<-|Hne].
  - rewrite (frame_page_id_insert_eq _ _ _ _ Hp). unfold frame_page_id.
    rewrite Hp. simpl. congruence.
  - by eapply frame_page_id_insert_ne.
Qed.

(** [FlushPgImp] touches the disk and the dirty flag of one frame. *)
Lemma FlushPgImp_fields p b x b' :
  FlushPgImp p b = Done (x, b') →
  pool_size_ b' = pool_size_ b ∧ num_instances_ b' = num_instances_ b ∧
  instance_index_ b' = instance_index_ b ∧ next_page_id_ b' = next_page_id_ b ∧
  replacer_ b' = replacer_ b ∧ page_table_ b' = page_table_ b ∧
  free_list_ b' = free_list_ b ∧ deallocated_ b' = deallocated_ b ∧
  (∀ g, frame_page_id (pages_ b') g = frame_page_id (pages_ b) g).
Proof.
  unfold FlushPgImp, get_page.
  destruct (page_table_ b !! p) as [f|].
  - destruct (page_at (pages_ b) f) as [pg0|] eqn:Hp; simpl; [|done].
    intros [= _ <-]. simpl. split_and!; try done.
    intros g. by eapply frame_page_id_insert_same.
  - intros [= _ <-]. by split_and!.
Qed.

Lemma write_entries_fields es b b' :
  write_entries es b = Done b' →
  pool_size_ b' = pool_size_ b ∧ num_instances_ b' = num_instances_ b ∧
  instance_index_ b' = instance_index_ b ∧ next_page_id_ b' = next_page_id_ b ∧
  pages_ b' = pages_ b ∧ replacer_ b' = replacer_ b ∧
  page_table_ b' = page_table_ b ∧ free_list_ b' = free_list_ b ∧
  deallocated_ b' = deallocated_ b.
Proof.
  revert b. induction es as [|[p f] es IH]; intros b; simpl.
  - by intros [= <-].
  - unfold get_page. destruct (page_at (pages_ b) f) as [pg|]; [|done]. simpl.
    intros H%IH. simpl in H. done.
Qed.

Lemma frames_ok_FlushAllPgsImp b b' :
  frames_ok b → FlushAllPgsImp b = Done b' → frames_ok b'.
Proof.
  intros Hok H%write_entries_fields. destruct H as (?&?&?&?&Hp&?&?&?&?).
  eapply frames_ok_ext; [done|try done..]. by rewrite Hp.
Qed.

Lemma frames_ok_UnpinPgImp p d b x b' :
  frames_ok b → UnpinPgImp p d b = Done (x, b') → frames_ok b'.
Proof.
  intros Hok. unfold UnpinPgImp, get_page.
  destruct (page_table_ b !! p) as [f|] eqn:Ht; [|by intros [= _ <-]].
  destruct (page_at (pages_ b) f) as [pg|]; [|done]. simpl.
  destruct (0 <? pin_count_ pg); [|by intros [= _ <-]].
  intros [= _ <-].
  pose proof (fo_table _ Hok _ _ Ht) as Hf.
  destruct (pin_count_ pg - 1 =? 0).
  - apply (frames_ok_Unpin (put_page f _ b)); [by apply frames_ok_put_page|done].
  - apply (frames_ok_ext (put_page f pg b)); [by apply frames_ok_put_page|simpl..];
      try done. by rewrite !length_insert.
Qed.

Lemma frames_ok_DeletePgImp p b x b' :
  frames_ok b → DeletePgImp p b = Done (x, b') → frames_ok b'.
Proof.
  intros Hok. unfold DeletePgImp, get_page.
  destruct (page_table_ b !! p) as [f|] eqn:Ht.
  - destruct (page_at (pages_ b) f) as [pg|]; [|done]. simpl.
    destruct (0 <? pin_count_ pg); [by intros [= _ <-]|].
    intros [= _ <-].
    pose proof (fo_table _ Hok _ _ Ht) as Hf.
    destruct Hok as [H1 H2 H3 H4 H5]. split; simpl; try done.
    + by rewrite length_insert.
    + intros g [->|Hg]%elem_of_cons; eauto.
    + intros q g [_ Hq]%lookup_delete_Some. eauto.
  - intros [= _ <-]. eapply frames_ok_ext; [done|done..].
Qed.

Lemma frames_ok_install_fetched p f b x b' :
  frames_ok b → 0 ≤ f < Z.of_nat (pool_size_ b) →
  install_fetched p f b = Done (x, b') → frames_ok b'.
Proof.
  intros Hok Hf. unfold install_fetched, get_page.
  destruct (page_at (pages_ b) f) as [pg|]; [|done]. simpl.
  intros [= _ <-].
  destruct Hok as [H1 H2 H3 H4 H5].
  destruct (is_dirty_ pg); (split; simpl;
    [ by rewrite length_insert
    | by apply wf_Pin
    | done
    | intros q g [[_ <-]|[_ [_ Hq]%lookup_delete_Some]]%lookup_insert_Some; eauto
    | intros i g [->|Hg]%Pin_slots Hne; eauto ]).
Qed.

Lemma frames_ok_pop_free b f b1 :
  frames_ok b → pop_free b = (f, b1) →
  frames_ok b1 ∧ pool_size_ b1 = pool_size_ b ∧
  (f = -1 ∧ free_list_ b = [] ∧ b1 = b ∨
   0 ≤ f < Z.of_nat (pool_size_ b) ∧ free_list_ b = f :: free_list_ b1).
Proof.
  intros Hok. unfold pop_free. destruct (free_list_ b) as [|g rest] eqn:Hfl.
  - intros [= <- <-]. split_and!; [done..|]. by left.
  - intros [= <- <-]. destruct Hok as [H1 H2 H3 H4 H5].
    split_and!; [|done|].
    + split; simpl; try done. intros h Hh. apply H3. rewrite Hfl. by right.
    + right. split; [|done]. apply H3. rewrite Hfl. by left.
Qed.

Lemma frames_ok_FetchPgImp fuel p b x b' :
  frames_ok b → FetchPgImp fuel p b = Done (x, b') → frames_ok b'.
Proof.
  intros Hok. unfold FetchPgImp.
  destruct (page_table_ b !! p) as [f|] eqn:Ht.
  - unfold get_page. destruct (page_at (pages_ b) f) as [pg|]; [|done]. simpl.
    destruct (0 <? pin_count_ pg); [by intros [= _ <-]|].
    intros [= _ <-].
    pose proof (fo_table _ Hok _ _ Ht) as Hf.
    apply (frames_ok_Pin (put_page f _ b)); [by apply frames_ok_put_page|done].
  - destruct (pop_free b) as [f b1] eqn:Hpop.
    apply frames_ok_pop_free in Hpop as (Hok1 & Hsz & Hcase); [|done].
    destruct Hcase as [(-> & _ & ->)|[Hf _]].
    + simpl.
      destruct (Victim fuel (replacer_ b)) as [[v r]| |] eqn:Hv; [|done..]. simpl.
      apply frames_ok_Victim in Hv as (Hok2 & _ & Hrange); [|done].
      destruct v as [f|]; [|by intros [= _ <-]].
      apply frames_ok_install_fetched; [done|]. simpl. by apply Hrange.
    + destruct (Z.eqb_spec f (-1)); [lia|].
      apply frames_ok_install_fetched; [done|]. by rewrite Hsz.
Qed.

Lemma AllocatePage_Done b id b1 :
  AllocatePage b = Done (id, b1) →
  id = next_page_id_ b ∧
  b1 = set_next_page_id (wrap32 (next_page_id_ b + num_instances_ b)) b.
Proof.
  unfold AllocatePage. destruct (ValidatePageId _ _); [|done].
  by intros [= <- <-].
Qed.

Lemma frames_ok_install_new f b x b' :
  frames_ok b → 0 ≤ f < Z.of_nat (pool_size_ b) →
  install_new f b = Done (x, b') →
  frames_ok b' ∧ x = Some (f, next_page_id_ b).
Proof.
  intros Hok Hf. unfold install_new.
  destruct (AllocatePage b) as [[id b1]| |] eqn:Ha; [|done..]. simpl.
  apply AllocatePage_Done in Ha as [-> ->].
  unfold get_page. destruct (page_at _ f) as [pg|]; [|done]. simpl.
  intros [= <- <-]. split; [|done].
  destruct Hok as [H1 H2 H3 H4 H5]. split; simpl.
  - by rewrite length_insert.
  - by apply wf_Pin.
  - done.
  - intros q g [[_ <-]|[_ Hq]]%lookup_insert_Some; eauto.
  - intros i g [->|Hg]%Pin_slots Hne; eauto.
Qed.

Lemma frames_ok_set_page_table b m :
  frames_ok b → (∀ p f, m !! p = Some f → page_table_ b !! p = Some f) →
  frames_ok (set_page_table m b).
Proof.
  intros [H1 H2 H3 H4 H5] Hm. split; simpl; try done. eauto.
Qed.

Lemma frames_ok_NewPgImp fuel b x b' :
  frames_ok b → NewPgImp fuel b = Done (x, b') → frames_ok b'.
Proof.
  intros Hok. unfold NewPgImp.
  destruct (all_pinned b); [by intros [= _ <-]|].
  destruct (pop_free b) as [f b1] eqn:Hpop.
  apply frames_ok_pop_free in Hpop as (Hok1 & Hsz & Hcase); [|done].
  destruct Hcase as [(-> & _ & ->)|[Hf _]].
  - simpl.
    destruct (Victim fuel (replacer_ b)) as [[v r]| |] eqn:Hv; [|done..]. simpl.
    apply frames_ok_Victim in Hv as (Hok2 & _ & Hrange); [|done].
    destruct v as [f|]; [|by intros [= _ <-]].
    specialize (Hrange f eq_refl).
    set (b2 := set_replacer r b) in *.
    destruct (get_page b2 f) as [pg| |]; simpl; [|done..].
    destruct (if is_dirty_ pg then _ else _) as [[y b3]| |] eqn:Hfl; simpl; [|done..].
    assert (frames_ok b3 ∧ pool_size_ b3 = pool_size_ b) as [Hok3 Hsz3].
    { destruct (is_dirty_ pg).
      - split; [by eapply frames_ok_FlushPgImp|].
        by apply FlushPgImp_fields in Hfl as (-> & _).
      - injection Hfl as _ <-. done. }
    destruct (get_page b3 f) as [pg'| |]; simpl; [|done..].
    intros H. eapply frames_ok_install_new in H as [? _]; [done| |].
    + apply frames_ok_set_page_table; [done|].
      by intros q g [_ ?]%lookup_delete_Some.
    + simpl. by rewrite Hsz3.
  - destruct (Z.eqb_spec f (-1)); [lia|].
    intros H. eapply frames_ok_install_new in H as [? _]; [done|done|].
    by rewrite Hsz.
Qed.

Lemma frames_ok_serve fuel q b b' :
  frames_ok b → serve fuel q b = Done b' → frames_ok b'.
Proof.
  intros Hok. destruct q as [|p|p d|p| |p]; simpl.
  - destruct (NewPgImp fuel b) as [[x b1]| |] eqn:E; [|done..].
    intros [= <-]. by eapply frames_ok_NewPgImp.
  - destruct (FetchPgImp fuel p b) as [[x b1]| |] eqn:E; [|done..].
    intros [= <-]. by eapply frames_ok_FetchPgImp.
  - destruct (UnpinPgImp p d b) as [[x b1]| |] eqn:E; [|done..].
    intros [= <-]. by eapply frames_ok_UnpinPgImp.
  - destruct (FlushPgImp p b) as [[x b1]| |] eqn:E; [|done..].
    intros [= <-]. by eapply frames_ok_FlushPgImp.
  - by apply frames_ok_FlushAllPgsImp.
  - destruct (DeletePgImp p b) as [[x b1]| |] eqn:E; [|done..].
    intros [= <-]. by eapply frames_ok_DeletePgImp.
Qed.

Lemma reachable_frames_ok b : reachable b → frames_ok b.
Proof.
  induction 1; eauto using frames_ok_new, frames_ok_serve.
Qed.

End frames_in_range.

(** C9: when [NewPage] returns no frame, be it because every frame is pinned
    or because the free list is empty and the replacer has no victim, the
    state of the instance is the one before the call; in particular
    [next_page_id_] has not moved, and no page id is used up. *)
Theorem NewPgImp_failure_changes_nothing
    (fuel : nat) (b b' : BufferPoolManagerInstance.t) :
  reachable b →
  NewPgImp fuel b = Done (None, b') →
  b' = b ∧ next_page_id_ b' = next_page_id_ b.
Proof.
  intros Hok%reachable_frames_ok Hnew.
  assert (b' = b) as ->; [|done].
  revert Hnew. unfold NewPgImp.
  destruct (all_pinned b); [by intros [= <-]|].
  destruct (pop_free b) as [f b1] eqn:Hpop.
  apply frames_ok_pop_free in Hpop as (Hok1 & Hsz & Hcase); [|done].
  destruct Hcase as [(-> & _ & ->)|[Hf _]].
  - simpl.
    destruct (Victim fuel (replacer_ b)) as [[v r]| |] eqn:Hv; [|done..]. simpl.
    apply frames_ok_Victim in Hv as (Hok2 & Hnone & Hrange); [|done].
    destruct v as [f|].
    + destruct (get_page _ f) as [pg| |]; simpl; [|done..].
      destruct (if is_dirty_ pg then _ else _) as [[y b3]| |]; simpl; [|done..].
      destruct (get_page b3 f) as [pg'| |]; simpl; [|done..].
      unfold install_new.
      destruct (AllocatePage _) as [[id b4]| |]; simpl; [|done..].
      by destruct (get_page b4 f).
    + intros [= <-]. rewrite Hnone by done. by destruct b.
  - destruct (Z.eqb_spec f (-1)); [lia|].
    unfold install_new.
    destruct (AllocatePage _) as [[id b4]| |]; simpl; [|done..].
    by destruct (get_page b4 f).
Qed.

Lemma NewPgImp_failure_changes_nothing_witness :
  ∃ b0 b1,
    BufferPoolManagerInstance.new 1 1 0 ∅ = Done b0 ∧
    NewPgImp 0 b0 = Done (Some (0, 0), b1) ∧
    NewPgImp 0 b1 = Done (None, b1) ∧
    b1 = b1 ∧ next_page_id_ b1 = next_page_id_ b1.
Proof.
  eexists _, _. split; [reflexivity|]. split; [vm_compute; reflexivity|].
  split; [vm_compute; reflexivity|].
  apply (NewPgImp_failure_changes_nothing 0).
  - eapply (reachable_serve 0 NewPage).
    + by eapply (reachable_new 1 1 0 ∅).
    + vm_compute. reflexivity.
  - vm_compute. reflexivity.
Defined.

(** ** The page table and the free list partition the frames *)

Section directory.

Implicit Types b : BufferPoolManagerInstance.t.

(** [directory_ok] only reads the pool size, the free list, the page table
    and the page ids of the frames. *)
Lemma directory_ok_ext b b' :
  directory_ok b →
  pool_size_ b' = pool_size_ b →
  free_list_ b' = free_list_ b →
  page_table_ b' = page_table_ b →
  (∀ g, frame_page_id (pages_ b') g = frame_page_id (pages_ b) g) →
  directory_ok b'.
Proof.
  intros [H1 H2 H3 H4 H5 H6] Hs Hf Ht Hp.
  split; rewrite ?Hs, ?Hf, ?Ht; try done.
  - intros f Hin. rewrite Hp. eauto.
  - intros p f Hl. rewrite Hp. eauto.
  - intros f p Hl Hin. rewrite Hp in Hl. eauto.
Qed.

Lemma directory_ok_new pool_size num_instances instance_index disk b :
  BufferPoolManagerInstance.new pool_size num_instances instance_index disk = Done b →
  directory_ok b.
Proof.
  unfold BufferPoolManagerInstance.new.
  destruct (negb _); [done|]. destruct (negb _); [done|].
  intros [= <-]. split; simpl.
  - apply (NoDup_fmap_2 _), NoDup_seq.
  - intros f (k & -> & Hk)%list_elem_of_fmap. apply elem_of_seq in Hk.
    unfold frame_page_id, page_at.
    destruct (Z.ltb_spec (Z.of_nat k) 0); [lia|].
    rewrite Nat2Z.id, lookup_replicate_2 by lia. done.
  - intros p f. by rewrite lookup_empty.
  - apply lookup_empty.
  - intros f p Hp Hf. exfalso. apply Hf.
    unfold frame_page_id in Hp.
    destruct (page_at _ f) as [pg|] eqn:E; [|done].
    apply page_at_lt in E. rewrite length_replicate in E.
    apply list_elem_of_fmap. exists (Z.to_nat f). split; [lia|].
    apply elem_of_seq. lia.
  - rewrite length_fmap, length_seq, map_size_empty. lia.
Qed.

(** A frame [f] leaves the free list, or is taken from the page [old] it
    holds, and receives page [p]. *)
Lemma directory_ok_install b b' f p old rest :
  directory_ok b →
  frame_page_id (pages_ b) f = Some old →
  (free_list_ b = f :: rest ∨ free_list_ b = [] ∧ rest = []) →
  page_table_ b !! p = None → p ≠ INVALID_PAGE_ID →
  pool_size_ b' = pool_size_ b →
  free_list_ b' = rest →
  page_table_ b' = <[p := f]> (delete old (page_table_ b)) →
  frame_page_id (pages_ b') f = Some p →
  (∀ g, g ≠ f → frame_page_id (pages_ b') g = frame_page_id (pages_ b) g) →
  directory_ok b'.
Proof.
  intros [H1 H2 H3 H4 H5 H6] Hold Hfree Hp Hinv Hs Hf Ht Hpf Hpg.
  assert ((f ∉ rest) ∧ NoDup rest ∧ (∀ g, g ∈ rest → g ∈ free_list_ b))
    as (Hnin & Hnd & Hsub).
  { destruct Hfree as [Hfl|[Hfl ->]].
    - rewrite Hfl in H1. apply NoDup_cons in H1 as [? ?].
      split_and!; [done..|]. intros g Hg. rewrite Hfl. by right.
    - split_and!; [apply not_elem_of_nil|constructor|]. by intros g ?%elem_of_nil. }
  assert (∀ g, g ≠ f → g ∉ rest → g ∉ free_list_ b) as Hout.
  { intros g Hne Hg. destruct Hfree as [Hfl|[Hfl ->]]; rewrite Hfl.
    - rewrite not_elem_of_cons. done.
    - apply not_elem_of_nil. }
  assert (∀ g, page_table_ b !! old = Some g → g = f) as Hown.
  { intros g Hg. destruct Hfree as [Hfl|[Hfl ->]].
    - assert (old = INVALID_PAGE_ID) as ->; [|congruence].
      assert (f ∈ free_list_ b) as Hin by (rewrite Hfl; by left).
      apply H2 in Hin. congruence.
    - assert (page_table_ b !! old = Some f) as Hf'; [|congruence].
      apply H5; [done|]. rewrite Hfl. apply not_elem_of_nil. }
  split; rewrite ?Hs, ?Hf, ?Ht.
  - done.
  - intros g Hg. rewrite Hpg by (intros ->; done). eauto.
  - intros q g [[<- <-]|[Hne [Hne' Hq]%lookup_delete_Some]]%lookup_insert_Some;
      [done|].
    rewrite Hpg; [eauto|]. intros ->. apply H3 in Hq. congruence.
  - rewrite lookup_insert_ne by done. apply lookup_delete_None. by right.
  - intros g q Hq Hg. destruct (decide (g = f)) as [->|Hne].
    + assert (q = p) as -> by congruence. apply lookup_insert_eq.
    + rewrite Hpg in Hq by done.
      pose proof (H5 _ _ Hq (Hout _ Hne Hg)) as Hl.
      rewrite lookup_insert_ne by congruence.
      rewrite lookup_delete_ne; [done|]. intros <-. by apply Hne, Hown.
  - rewrite map_size_insert_None by (apply lookup_delete_None; by right).
    destruct Hfree as [Hfl|[Hfl ->]]; rewrite Hfl in H6; simpl in H6; simpl.
    + rewrite map_size_delete_None; [lia|].
      assert (old = INVALID_PAGE_ID) as ->; [|done].
      assert (f ∈ free_list_ b) as Hin by (rewrite Hfl; by left).
      apply H2 in Hin. congruence.
    + assert (page_table_ b !! old = Some f) as Hf'.
      { apply H5; [done|]. rewrite Hfl. apply not_elem_of_nil. }
      rewrite map_size_delete_Some by (by eexists).
      assert (size (page_table_ b) ≠ 0%nat)
        by (eapply map_size_ne_0_lookup_2; done).
      lia.
Qed.

Lemma directory_ok_put_same b f pg pg' :
  directory_ok b → page_at (pages_ b) f = Some pg → page_id_ pg' = page_id_ pg →
  directory_ok (put_page f pg' b).
Proof.
  intros Hok Hp Hid. eapply directory_ok_ext; [done|done..|].
  intros g. simpl. by eapply frame_page_id_insert_same.
Qed.

Lemma directory_ok_set_replacer b r :
  directory_ok b → directory_ok (set_replacer r b).
Proof. intros Hok. eapply directory_ok_ext; [done|done..]. Qed.

Lemma directory_ok_FlushPgImp p b x b' :
  directory_ok b → FlushPgImp p b = Done (x, b') → directory_ok b'.
Proof.
  intros Hok (?&?&?&?&?&?&?&?&?)%FlushPgImp_fields.
  eapply directory_ok_ext; done.
Qed.

Lemma directory_ok_FlushAllPgsImp b b' :
  directory_ok b → FlushAllPgsImp b = Done b' → directory_ok b'.
Proof.
  intros Hok H%write_entries_fields. destruct H as (?&?&?&?&Hp&?&?&?&?).
  eapply directory_ok_ext; [done|try done..]. by rewrite Hp.
Qed.

Lemma directory_ok_UnpinPgImp p d b x b' :
  directory_ok b → UnpinPgImp p d b = Done (x, b') → directory_ok b'.
Proof.
  intros Hok. unfold UnpinPgImp, get_page.
  destruct (page_table_ b !! p) as [f|] eqn:Ht; [|by intros [= _ <-]].
  destruct (page_at (pages_ b) f) as [pg|] eqn:Hp; simpl; [|done].
  destruct (0 <? pin_count_ pg); [|by intros [= _ <-]].
  intros [= _ <-]. apply directory_ok_set_replacer.
  by eapply directory_ok_put_same.
Qed.

Lemma directory_ok_DeletePgImp p b x b' :
  directory_ok b → DeletePgImp p b = Done (x, b') → directory_ok b'.
Proof.
  intros Hok. unfold DeletePgImp, get_page.
  destruct (page_table_ b !! p) as [f|] eqn:Ht.
  2: { intros [= _ <-]. eapply directory_ok_ext; [done|done..]. }
  destruct (page_at (pages_ b) f) as [pg|] eqn:Hp; simpl; [|done].
  destruct (0 <? pin_count_ pg); [by intros [= _ <-]|].
  intros [= _ <-].
  destruct Hok as [H1 H2 H3 H4 H5 H6].
  assert (frame_page_id (pages_ b) f = Some p) as Hfp by eauto.
  assert (f ∉ free_list_ b) as Hnin.
  { intros Hin%H2. congruence. }
  assert (∀ g, g ≠ f →
            frame_page_id (<[Z.to_nat f :=
               {| page_id_ := INVALID_PAGE_ID; pin_count_ := 0;
                  is_dirty_ := false; data_ := data_ pg |}]> (pages_ b)) g
            = frame_page_id (pages_ b) g) as Hother.
  { intros g Hne. by eapply frame_page_id_insert_ne. }
  split; simpl.
  - by constructor.
  - intros g [->|Hg]%elem_of_cons.
    + by rewrite (frame_page_id_insert_eq _ _ _ _ Hp).
    + rewrite Hother; [eauto|]. by intros ->.
  - intros q g [Hne Hq]%lookup_delete_Some.
    rewrite Hother; [eauto|]. intros ->. apply H3 in Hq. congruence.
  - apply lookup_delete_None. by right.
  - intros g q Hq [Hne Hg]%not_elem_of_cons.
    rewrite Hother in Hq by done.
    rewrite lookup_delete_ne; [eauto|].
    intros <-. apply Hne. pose proof (H5 _ _ Hq Hg). congruence.
  - rewrite map_size_delete_Some by (by eexists).
    assert (size (page_table_ b) ≠ 0%nat)
      by (eapply map_size_ne_0_lookup_2; done).
    lia.
Qed.

Lemma directory_ok_install_fetched p f b b0 rest x b' :
  directory_ok b0 → page_table_ b0 !! p = None → p ≠ INVALID_PAGE_ID →
  (free_list_ b0 = f :: rest ∨ free_list_ b0 = [] ∧ rest = []) →
  pool_size_ b = pool_size_ b0 → pages_ b = pages_ b0 →
  page_table_ b = page_table_ b0 → free_list_ b = rest →
  install_fetched p f b = Done (x, b') →
  directory_ok b'.
Proof.
  intros Hok Hp Hinv Hfree Hs Hpg Ht Hf. unfold install_fetched, get_page.
  destruct (page_at (pages_ b) f) as [pg|] eqn:Hpf; simpl; [|done].
  intros [= _ <-].
  eapply (directory_ok_install b0 _ f p (page_id_ pg) rest); try done.
  - unfold frame_page_id. by rewrite <- Hpg, Hpf.
  - simpl. by destruct (is_dirty_ pg).
  - simpl. by destruct (is_dirty_ pg).
  - simpl. destruct (is_dirty_ pg); simpl; by rewrite Ht.
  - simpl. erewrite frame_page_id_insert_eq; [done|].
    destruct (is_dirty_ pg); simpl; done.
  - intros g Hne. simpl. erewrite frame_page_id_insert_ne; [|
      destruct (is_dirty_ pg); simpl; done|done].
    destruct (is_dirty_ pg); simpl; by rewrite Hpg.
Qed.

Lemma directory_ok_FetchPgImp fuel p b x b' :
  frames_ok b → directory_ok b → p ≠ INVALID_PAGE_ID →
  FetchPgImp fuel p b = Done (x, b') → directory_ok b'.
Proof.
  intros Hfo Hok Hinv. unfold FetchPgImp.
  destruct (page_table_ b !! p) as [f|] eqn:Ht.
  - unfold get_page. destruct (page_at (pages_ b) f) as [pg|] eqn:Hp; simpl; [|done].
    destruct (0 <? pin_count_ pg); [by intros [= _ <-]|].
    intros [= _ <-]. apply directory_ok_set_replacer.
    by eapply directory_ok_put_same.
  - unfold pop_free. destruct (free_list_ b) as [|f rest] eqn:Hfl.
    + simpl.
      destruct (Victim fuel (replacer_ b)) as [[v r]| |] eqn:Hv; simpl; [|done..].
      destruct v as [f|]; [|intros [= _ <-]; by apply directory_ok_set_replacer].
      apply (directory_ok_install_fetched p f _ b []); try done. by right.
    + pose proof (fo_free _ Hfo f) as Hf. rewrite Hfl in Hf.
      destruct (Z.eqb_spec f (-1)); [specialize (Hf ltac:(by left)); lia|].
      apply (directory_ok_install_fetched p f _ b rest); try done. by left.
Qed.

Lemma directory_ok_install_new f b b0 rest old x b' :
  directory_ok b0 →
  page_table_ b0 !! next_page_id_ b = None → next_page_id_ b ≠ INVALID_PAGE_ID →
  (free_list_ b0 = f :: rest ∨ free_list_ b0 = [] ∧ rest = []) →
  frame_page_id (pages_ b0) f = Some old →
  pool_size_ b = pool_size_ b0 →
  (∀ g, frame_page_id (pages_ b) g = frame_page_id (pages_ b0) g) →
  page_table_ b = delete old (page_table_ b0) → free_list_ b = rest →
  install_new f b = Done (x, b') →
  directory_ok b'.
Proof.
  intros Hok Hp Hinv Hfree Hold Hs Hpg Ht Hf. unfold install_new.
  destruct (AllocatePage b) as [[id b1]| |] eqn:Ha; simpl; [|done..].
  apply AllocatePage_Done in Ha as [-> ->].
  unfold get_page. simpl.
  destruct (page_at (pages_ b) f) as [pg|] eqn:Hpf; simpl; [|done].
  intros [= _ <-].
  eapply (directory_ok_install b0 _ f (next_page_id_ b) old rest); try done.
  - simpl. by rewrite Ht.
  - simpl. by erewrite frame_page_id_insert_eq.
  - intros g Hne. simpl. erewrite frame_page_id_insert_ne; [|done..].
    apply Hpg.
Qed.

Lemma directory_ok_NewPgImp fuel b x b' :
  frames_ok b → directory_ok b →
  next_page_id_ b ≠ INVALID_PAGE_ID → page_table_ b !! next_page_id_ b = None →
  NewPgImp fuel b = Done (x, b') → directory_ok b'.
Proof.
  intros Hfo Hok Hinv Hfresh. unfold NewPgImp.
  destruct (all_pinned b); [by intros [= _ <-]|].
  unfold pop_free. destruct (free_list_ b) as [|f rest] eqn:Hfl.
  - simpl.
    destruct (Victim fuel (replacer_ b)) as [[v r]| |] eqn:Hv; simpl; [|done..].
    destruct v as [f|]; [|intros [= _ <-]; by apply directory_ok_set_replacer].
    set (b2 := set_replacer r b).
    destruct (get_page b2 f) as [pg| |] eqn:Hpg; simpl; [|done..].
    destruct (if is_dirty_ pg then _ else _) as [[y b3]| |] eqn:Hflush; simpl; [|done..].
    assert (pool_size_ b3 = pool_size_ b ∧ next_page_id_ b3 = next_page_id_ b ∧
            page_table_ b3 = page_table_ b ∧ free_list_ b3 = free_list_ b ∧
            ∀ g, frame_page_id (pages_ b3) g = frame_page_id (pages_ b) g)
      as (Hs3 & Hn3 & Ht3 & Hf3 & Hp3).
    { destruct (is_dirty_ pg).
      - apply FlushPgImp_fields in Hflush as (?&?&?&?&?&?&?&?&?). by split_and!.
      - injection Hflush as _ <-. by split_and!. }
    destruct (get_page b3 f) as [pg'| |] eqn:Hpg'; simpl; [|done..].
    unfold get_page in Hpg'.
    destruct (page_at (pages_ b3) f) as [pg''|] eqn:Hpf; [|done].
    injection Hpg' as ->.
    apply (directory_ok_install_new f _ b [] (page_id_ pg')); simpl;
      rewrite ?Hn3, ?Ht3, ?Hf3; try done.
    + by right.
    + rewrite <- Hp3. unfold frame_page_id. by rewrite Hpf.
  - pose proof (fo_free _ Hfo f) as Hf. rewrite Hfl in Hf.
    specialize (Hf ltac:(by left)).
    destruct (Z.eqb_spec f (-1)); [lia|].
    pose proof (do_free _ Hok f) as Hfree. rewrite Hfl in Hfree.
    specialize (Hfree ltac:(by left)).
    apply (directory_ok_install_new f _ b rest INVALID_PAGE_ID); simpl; try done.
    + by left.
    + symmetry. apply delete_id. apply (do_invalid _ Hok).
Qed.

Lemma directory_ok_serve fuel q b b' :
  frames_ok b → directory_ok b → admissible q b →
  serve fuel q b = Done b' → directory_ok b'.
Proof.
  intros Hfo Hok Hadm. destruct q as [|p|p d|p| |p]; simpl in *.
  - destruct (NewPgImp fuel b) as [[x b1]| |] eqn:E; [|done..].
    intros [= <-]. destruct Hadm. by eapply directory_ok_NewPgImp.
  - destruct (FetchPgImp fuel p b) as [[x b1]| |] eqn:E; [|done..].
    intros [= <-]. by eapply directory_ok_FetchPgImp.
  - destruct (UnpinPgImp p d b) as [[x b1]| |] eqn:E; [|done..].
    intros [= <-]. by eapply directory_ok_UnpinPgImp.
  - destruct (FlushPgImp p b) as [[x b1]| |] eqn:E; [|done..].
    intros [= <-]. by eapply directory_ok_FlushPgImp.
  - by apply directory_ok_FlushAllPgsImp.
  - destruct (DeletePgImp p b) as [[x b1]| |] eqn:E; [|done..].
    intros [= <-]. by eapply directory_ok_DeletePgImp.
Qed.

Lemma reachable_admissible_reachable b : reachable_admissible b → reachable b.
Proof. induction 1; eauto using reachable_new, reachable_serve. Qed.

Lemma reachable_admissible_directory_ok b :
  reachable_admissible b → directory_ok b.
Proof.
  induction 1 as [|fuel q b b' Hb IH Hadm Hserve].
  - by eapply directory_ok_new.
  - eapply directory_ok_serve; [|done..].
    by apply reachable_frames_ok, reachable_admissible_reachable.
Qed.

End directory.

(** C4, as the code has it: in every state reached from a fresh instance by
    requests among which no [FetchPage] asks for [INVALID_PAGE_ID] and no
    [NewPage] is about to allocate [INVALID_PAGE_ID] or an id that is already
    in the page table, the pool size is the length of the free list plus the
    number of page table entries. *)
Theorem pool_size_is_free_plus_directory (b : BufferPoolManagerInstance.t) :
  reachable_admissible b →
  pool_size_ b = (length (free_list_ b) + size (page_table_ b))%nat.
Proof. intros Hb. by apply do_count, reachable_admissible_directory_ok. Qed.

Lemma pool_size_is_free_plus_directory_witness :
  ∃ b0 b,
    BufferPoolManagerInstance.new 3 1 0 ∅ = Done b0 ∧
    serves 0 [NewPage; FetchPage 5] b0 = Done b ∧
    pool_size_ b = (length (free_list_ b) + size (page_table_ b))%nat.
Proof.
  eexists _, _. split; [reflexivity|]. split; [vm_compute; reflexivity|].
  apply pool_size_is_free_plus_directory.
  eapply (reachable_admissible_serve 0 (FetchPage 5)).
  - eapply (reachable_admissible_serve 0 NewPage).
    + by eapply (reachable_admissible_new 3 1 0 ∅).
    + split; [done|reflexivity].
    + vm_compute. reflexivity.
  - done.
  - vm_compute. reflexivity.
Defined.

(** C4 as stated fails. On a pool of two frames, [FetchPage(0)] followed by
    [NewPage], which allocates id 0, leaves one page table entry and an empty
    free list; so does [FetchPage(-1)] followed by [FetchPage(5)]. On a pool
    of three frames with [num_instances = 2^32 - 1], the second [NewPage]
    allocates id -1, and [FetchPage(5)] then leaves two entries and an empty
    free list. *)
Lemma pool_size_is_not_free_plus_directory :
  (∃ b0 b,
     BufferPoolManagerInstance.new 2 1 0 ∅ = Done b0 ∧
     serves 0 [FetchPage 0; NewPage] b0 = Done b ∧ reachable b ∧
     pool_size_ b ≠ (length (free_list_ b) + size (page_table_ b))%nat) ∧
  (∃ b0 b,
     BufferPoolManagerInstance.new 2 1 0 ∅ = Done b0 ∧
     serves 0 [FetchPage (-1); FetchPage 5] b0 = Done b ∧ reachable b ∧
     pool_size_ b ≠ (length (free_list_ b) + size (page_table_ b))%nat) ∧
  (∃ b0 b,
     BufferPoolManagerInstance.new 3 (2 ^ 32 - 1) 0 ∅ = Done b0 ∧
     serves 0 [NewPage; NewPage; FetchPage 5] b0 = Done b ∧ reachable b ∧
     pool_size_ b ≠ (length (free_list_ b) + size (page_table_ b))%nat).
Proof.
  split_and!.
  - eexists _, _. split; [reflexivity|].
    assert (∀ P Q R : Prop, P → (P → Q) → R → P ∧ Q ∧ R) as Hand by tauto.
    apply Hand.
    + vm_compute. reflexivity.
    + apply reachable_serves. by eapply (reachable_new 2 1 0 ∅).
    + vm_compute. lia.
  - eexists _, _. split; [reflexivity|].
    assert (∀ P Q R : Prop, P → (P → Q) → R → P ∧ Q ∧ R) as Hand by tauto.
    apply Hand.
    + vm_compute. reflexivity.
    + apply reachable_serves. by eapply (reachable_new 2 1 0 ∅).
    + vm_compute. lia.
  - eexists _, _. split; [reflexivity|].
    assert (∀ P Q R : Prop, P → (P → Q) → R → P ∧ Q ∧ R) as Hand by tauto.
    apply Hand.
    + vm_compute. reflexivity.
    + apply reachable_serves. by eapply (reachable_new 3 (2 ^ 32 - 1) 0 ∅).
    + vm_compute. lia.
Qed.

(** * Further properties of the replacer and of the pool *)

(** ** Registration, and the count of evictable frames *)

Section replacer_accounting.

Implicit Types r : ClockReplacer.t.

Lemma find_slot_first x l i :
  find_slot x l = Some i → ∀ j, (j < i)%nat → l !! j ≠ Some x.
Proof.
  revert i. induction l as [|y l IH]; intros i; simpl; [done|].
  destruct (Z.eqb_spec y x) as [->|Hne].
  - intros [= <-] j Hj. lia.
  - destruct (find_slot x l) as [k|] eqn:E; simpl; [|done].
    intros [= <-] [|j] Hj; simpl; [congruence|]. apply (IH k); [done|lia].
Qed.

(** With distinct slots, the slot that holds [f] is the one that is found. *)
Lemma slot_of_distinct r f i :
  wf r → slots_distinct r → f ≠ -1 →
  frame_ids_ r !! i = Some f → slot_of r f = Some i.
Proof.
  intros Hwf Hd Hf Hi. rewrite slot_of_full by done.
  destruct (find_slot_is_Some f (frame_ids_ r)) as [j Hj].
  { apply list_elem_of_lookup. by exists i. }
  rewrite Hj. f_equal. apply (Hd j i f); [by apply find_slot_Some|done..].
Qed.

Lemma registered_lookup r f :
  wf r → registered r f ↔ f ≠ -1 ∧ ∃ i, frame_ids_ r !! i = Some f.
Proof.
  intros Hwf. unfold registered. rewrite slot_of_full by done. split.
  - intros [Hf [i Hi]]. split; [done|]. exists i. by apply find_slot_Some.
  - intros [Hf [i Hi]]. split; [done|]. apply find_slot_is_Some.
    apply list_elem_of_lookup. by exists i.
Qed.

Lemma count_slots_insert_ids test ids ps i f f' p :
  ids !! i = Some f → ps !! i = Some p →
  (count_slots test (<[i := f']> ids) ps + bit (test f p) =
   count_slots test ids ps + bit (test f' p))%nat.
Proof.
  revert ps i. induction ids as [|g ids IH]; intros [|q ps] [|i]; simpl; try done.
  - intros [= ->] [= ->]. unfold bit. destruct (test f p), (test f' p); lia.
  - intros Hf Hp. specialize (IH _ _ Hf Hp). destruct (test g q); lia.
Qed.

Lemma count_slots_insert_ps test ids ps i f p p' :
  ids !! i = Some f → ps !! i = Some p →
  (count_slots test ids (<[i := p']> ps) + bit (test f p) =
   count_slots test ids ps + bit (test f p'))%nat.
Proof.
  revert ps i. induction ids as [|g ids IH]; intros [|q ps] [|i]; simpl; try done.
  - intros [= ->] [= ->]. unfold bit. destruct (test f p), (test f p'); lia.
  - intros Hf Hp. specialize (IH _ _ Hf Hp). destruct (test g q); lia.
Qed.

Lemma Size_full r :
  wf r → Size r = count_slots is_evictable_slot (frame_ids_ r) (pinned_ r).
Proof.
  intros Hwf. unfold Size.
  rewrite !take_ge; [done|by rewrite wf_pinned|by rewrite wf_frame_ids].
Qed.

(** Setting the pinned flag of an occupied slot. *)
Lemma Size_set_pinned r i f p p' rb :
  wf r → frame_ids_ r !! i = Some f → f ≠ -1 → pinned_ r !! i = Some p →
  (Size {| frame_ids_ := frame_ids_ r; pinned_ := <[i := p']> (pinned_ r);
           ref_bits_ := rb; max_size_ := max_size_ r; now_ := now_ r;
           size_ := size_ r |} + bit (negb p) = Size r + bit (negb p'))%nat.
Proof.
  intros Hwf Hf Hne Hp. rewrite (Size_full r) by done. unfold Size. simpl.
  rewrite !take_ge by (rewrite ?length_insert, ?wf_frame_ids, ?wf_pinned; done).
  pose proof (count_slots_insert_ps is_evictable_slot _ _ i f p p' Hf Hp) as H.
  unfold is_evictable_slot in H. apply Z.eqb_neq in Hne. rewrite Hne in H.
  exact H.
Qed.

(** Registering a frame in an empty slot. *)
Lemma Size_register r i f p' rb sz :
  wf r → frame_ids_ r !! i = Some (-1) → f ≠ -1 →
  Size {| frame_ids_ := <[i := f]> (frame_ids_ r); pinned_ := <[i := p']> (pinned_ r);
          ref_bits_ := rb; max_size_ := max_size_ r; now_ := now_ r;
          size_ := sz |} = (Size r + bit (negb p'))%nat.
Proof.
  intros Hwf Hf Hne. rewrite (Size_full r) by done. unfold Size. simpl.
  rewrite !take_ge by (rewrite ?length_insert, ?wf_frame_ids, ?wf_pinned; done).
  destruct (lookup_lt_is_Some_2 (pinned_ r) i) as [p Hp].
  { rewrite wf_pinned by done. rewrite <- (wf_frame_ids r) by done.
    by eapply lookup_lt_Some. }
  pose proof (count_slots_insert_ids is_evictable_slot _ (<[i := p']> (pinned_ r))
                i (-1) f p' Hf) as H1.
  rewrite list_lookup_insert_eq in H1 by (by eapply lookup_lt_Some).
  specialize (H1 eq_refl).
  pose proof (count_slots_insert_ps is_evictable_slot _ _ i (-1) p p' Hf Hp) as H2.
  unfold is_evictable_slot in *. apply Z.eqb_neq in Hne. rewrite Hne in H1.
  simpl in *. lia.
Qed.

Lemma Unpin_registered_pinned r f i :
  slot_of r f = Some i → pinned_ r !! i = Some true →
  Unpin f r = {| frame_ids_ := frame_ids_ r;
                 pinned_ := <[i := false]> (pinned_ r);
                 ref_bits_ := <[i := true]> (ref_bits_ r);
                 max_size_ := max_size_ r; now_ := now_ r; size_ := size_ r |}.
Proof. unfold slot_of, Unpin. by intros -> ->. Qed.

Lemma Unpin_full r f :
  slot_of r f = None → slot_of r (-1) = None → Unpin f r = r.
Proof. unfold slot_of, Unpin. by intros -> ->. Qed.

Lemma not_registered_slot_of r f :
  f ≠ -1 → ¬ registered r f → slot_of r f = None.
Proof.
  intros Hf Hnot. destruct (slot_of r f) eqn:E; [|done].
  destruct Hnot. split; [done|by eexists].
Qed.

Lemma not_free_slot_of r : ¬ has_free_slot r → slot_of r (-1) = None.
Proof.
  intros Hnot. destruct (slot_of r (-1)) eqn:E; [|done].
  destruct Hnot. by eexists.
Qed.

End replacer_accounting.

(** X1: how [Pin] and [Unpin] move [Size()]. On a registered pinned frame
    [Unpin] adds one and [Pin] changes nothing; on a registered frame that
    is not pinned [Pin] takes one away; on a frame that is not registered,
    with an empty slot left, [Pin] changes nothing and [Unpin] adds one;
    with no empty slot left both leave the replacer as it is. *)
Theorem Size_after_Pin_and_Unpin (r : ClockReplacer.t) (f : Z) :
  wf r → f ≠ -1 →
  (registered r f → pinned_flag r f = Some true →
     Size (Unpin f r) = S (Size r) ∧ Size (Pin f r) = Size r) ∧
  (registered r f → pinned_flag r f = Some false →
     S (Size (Pin f r)) = Size r) ∧
  (¬ registered r f → has_free_slot r →
     Size (Pin f r) = Size r ∧ Size (Unpin f r) = S (Size r)) ∧
  (¬ registered r f → ¬ has_free_slot r →
     Pin f r = r ∧ Unpin f r = r).
Proof.
  intros Hwf Hf. split_and!.
  - intros [_ [i Hi]] Hp. unfold pinned_flag in Hp. rewrite Hi in Hp. simpl in Hp.
    pose proof (slot_of_lookup _ _ _ Hi) as Hl.
    rewrite (Unpin_registered_pinned _ _ _ Hi Hp), (Pin_registered _ _ _ Hi).
    pose proof (Size_set_pinned r i f true false (<[i := true]> (ref_bits_ r))
                  Hwf Hl Hf Hp) as H1.
    pose proof (Size_set_pinned r i f true true (<[i := true]> (ref_bits_ r))
                  Hwf Hl Hf Hp) as H2.
    simpl in H1, H2. lia.
  - intros [_ [i Hi]] Hp. unfold pinned_flag in Hp. rewrite Hi in Hp. simpl in Hp.
    pose proof (slot_of_lookup _ _ _ Hi) as Hl.
    rewrite (Pin_registered _ _ _ Hi).
    pose proof (Size_set_pinned r i f false true (<[i := true]> (ref_bits_ r))
                  Hwf Hl Hf Hp) as H1.
    simpl in H1. lia.
  - intros Hnot%not_registered_slot_of [i Hi]; [|done].
    pose proof (slot_of_lookup _ _ _ Hi) as Hl.
    rewrite (Pin_fresh _ _ _ Hnot Hi), (Unpin_fresh _ _ _ Hnot Hi).
    rewrite !Size_register by done. simpl. lia.
  - intros Hnot%not_registered_slot_of Hfull%not_free_slot_of; [|done].
    by rewrite Pin_full, Unpin_full.
Qed.

Lemma Size_after_Pin_and_Unpin_witness :
  Size (Unpin 4 (Pin 4 (ClockReplacer.new 2))) = S (Size (Pin 4 (ClockReplacer.new 2))) ∧
  S (Size (Pin 4 (Unpin 4 (ClockReplacer.new 2)))) = Size (Unpin 4 (ClockReplacer.new 2)) ∧
  Size (Unpin 4 (ClockReplacer.new 2)) = S (Size (ClockReplacer.new 2)) ∧
  Pin 4 (Pin 3 (ClockReplacer.new 1)) = Pin 3 (ClockReplacer.new 1).
Proof.
  split_and!.
  - destruct (Size_after_Pin_and_Unpin (Pin 4 (ClockReplacer.new 2)) 4)
      as (H & _); [apply wf_Pin, wf_new | lia |].
    apply H; [|reflexivity]. split; [lia|]. exists 0%nat. reflexivity.
  - destruct (Size_after_Pin_and_Unpin (Unpin 4 (ClockReplacer.new 2)) 4)
      as (_ & H & _); [apply wf_Unpin, wf_new | lia |].
    apply H; [|reflexivity]. split; [lia|]. exists 0%nat. reflexivity.
  - destruct (Size_after_Pin_and_Unpin (ClockReplacer.new 2) 4)
      as (_ & _ & H & _); [apply wf_new | lia |].
    apply H; [|exists 0%nat; reflexivity].
    intros [_ [i Hi]]. vm_compute in Hi. discriminate.
  - destruct (Size_after_Pin_and_Unpin (Pin 3 (ClockReplacer.new 1)) 4)
      as (_ & _ & _ & H); [apply wf_Pin, wf_new | lia |].
    apply H.
    + intros [_ [i Hi]]. vm_compute in Hi. discriminate.
    + intros [i Hi]. vm_compute in Hi. discriminate.
Defined.

Section replacer_frames.

Implicit Types r : ClockReplacer.t.

(** Writing the flags of a slot that does not hold [g], or a frame other than
    [g] into a slot that did not hold [g], leaves what is seen of [g]. *)
Lemma observe_other r r' g i :
  wf r → g ≠ -1 →
  frame_ids_ r !! i ≠ Some g →
  (frame_ids_ r' = frame_ids_ r ∨
   ∃ h, h ≠ g ∧ frame_ids_ r' = <[i := h]> (frame_ids_ r)) →
  max_size_ r' = max_size_ r →
  (∀ j, j ≠ i → pinned_ r' !! j = pinned_ r !! j) →
  (∀ j, j ≠ i → ref_bits_ r' !! j = ref_bits_ r !! j) →
  slot_of r' g = slot_of r g ∧
  pinned_flag r' g = pinned_flag r g ∧ ref_bit r' g = ref_bit r g.
Proof.
  intros Hwf Hg Hi Hids Hmax Hp Hr.
  assert (slot_of r' g = slot_of r g) as Hslot.
  { unfold slot_of. rewrite Hmax.
    rewrite !take_ge; [..|by rewrite wf_frame_ids
      |destruct Hids as [->|(h & _ & ->)];
       rewrite ?length_insert, wf_frame_ids; done].
    destruct Hids as [->|(h & Hh & ->)]; [done|].
    by apply find_slot_insert_other. }
  split; [done|]. unfold pinned_flag, ref_bit. rewrite Hslot.
  destruct (slot_of r g) as [j|] eqn:Hj; simpl; [|done].
  assert (j ≠ i) as Hne.
  { intros ->. by apply slot_of_lookup in Hj. }
  by rewrite Hp, Hr.
Qed.

Lemma Pin_other r f g :
  wf r → g ≠ -1 → g ≠ f →
  slot_of (Pin f r) g = slot_of r g ∧
  pinned_flag (Pin f r) g = pinned_flag r g ∧ ref_bit (Pin f r) g = ref_bit r g.
Proof.
  intros Hwf Hg Hne. destruct (slot_of r f) as [i|] eqn:Hi.
  - rewrite (Pin_registered _ _ _ Hi). apply slot_of_lookup in Hi.
    apply (observe_other r _ g i); simpl; try done.
    + congruence.
    + by left.
    + intros j Hj. by rewrite list_lookup_insert_ne.
    + intros j Hj. by rewrite list_lookup_insert_ne.
  - destruct (slot_of r (-1)) as [i|] eqn:Hi'.
    + rewrite (Pin_fresh _ _ _ Hi Hi'). apply slot_of_lookup in Hi'.
      apply (observe_other r _ g i); simpl; try done.
      * congruence.
      * right. exists f. by split.
      * intros j Hj. by rewrite list_lookup_insert_ne.
      * intros j Hj. by rewrite list_lookup_insert_ne.
    + by rewrite Pin_full.
Qed.

Lemma Unpin_other r f g :
  wf r → g ≠ -1 → g ≠ f →
  slot_of (Unpin f r) g = slot_of r g ∧
  pinned_flag (Unpin f r) g = pinned_flag r g ∧ ref_bit (Unpin f r) g = ref_bit r g.
Proof.
  intros Hwf Hg Hne. destruct (slot_of r f) as [i|] eqn:Hi.
  - destruct (pinned_ r !! i) as [[]|] eqn:Hp.
    + rewrite (Unpin_registered_pinned _ _ _ Hi Hp). apply slot_of_lookup in Hi.
      apply (observe_other r _ g i); simpl; try done.
      * congruence.
      * by left.
      * intros j Hj. by rewrite list_lookup_insert_ne.
      * intros j Hj. by rewrite list_lookup_insert_ne.
    + unfold Unpin. unfold slot_of in Hi. by rewrite Hi, Hp.
    + unfold Unpin. unfold slot_of in Hi. by rewrite Hi, Hp.
  - destruct (slot_of r (-1)) as [i|] eqn:Hi'.
    + rewrite (Unpin_fresh _ _ _ Hi Hi'). apply slot_of_lookup in Hi'.
      apply (observe_other r _ g i); simpl; try done.
      * congruence.
      * right. exists f. by split.
      * intros j Hj. by rewrite list_lookup_insert_ne.
      * intros j Hj. by rewrite list_lookup_insert_ne.
    + by rewrite Unpin_full.
Qed.

End replacer_frames.

(** X2: [Pin(f)] and [Unpin(f)] leave every other frame as it was: whether
    it is registered, its pinned flag and its reference bit. *)
Theorem Pin_and_Unpin_leave_other_frames (r : ClockReplacer.t) (f g : Z) :
  wf r → g ≠ -1 → g ≠ f →
  ((registered (Pin f r) g ↔ registered r g) ∧
   pinned_flag (Pin f r) g = pinned_flag r g ∧
   ref_bit (Pin f r) g = ref_bit r g) ∧
  ((registered (Unpin f r) g ↔ registered r g) ∧
   pinned_flag (Unpin f r) g = pinned_flag r g ∧
   ref_bit (Unpin f r) g = ref_bit r g).
Proof.
  intros Hwf Hg Hne.
  destruct (Pin_other r f g) as (H1 & H2 & H3); [done..|].
  destruct (Unpin_other r f g) as (H4 & H5 & H6); [done..|].
  unfold registered. rewrite H1, H4. done.
Qed.

Lemma Pin_and_Unpin_leave_other_frames_witness :
  ((registered (Pin 1 (Unpin 0 (ClockReplacer.new 2))) 0 ↔
    registered (Unpin 0 (ClockReplacer.new 2)) 0) ∧
   pinned_flag (Pin 1 (Unpin 0 (ClockReplacer.new 2))) 0 =
     pinned_flag (Unpin 0 (ClockReplacer.new 2)) 0 ∧
   ref_bit (Pin 1 (Unpin 0 (ClockReplacer.new 2))) 0 =
     ref_bit (Unpin 0 (ClockReplacer.new 2)) 0) ∧
  ((registered (Unpin 1 (Unpin 0 (ClockReplacer.new 2))) 0 ↔
    registered (Unpin 0 (ClockReplacer.new 2)) 0) ∧
   pinned_flag (Unpin 1 (Unpin 0 (ClockReplacer.new 2))) 0 =
     pinned_flag (Unpin 0 (ClockReplacer.new 2)) 0 ∧
   ref_bit (Unpin 1 (Unpin 0 (ClockReplacer.new 2))) 0 =
     ref_bit (Unpin 0 (ClockReplacer.new 2)) 0).
Proof.
  apply (Pin_and_Unpin_leave_other_frames (Unpin 0 (ClockReplacer.new 2)) 1 0).
  - apply wf_Unpin, wf_new.
  - lia.
  - lia.
Defined.

Section replacer_distinct.

Implicit Types r : ClockReplacer.t.

Lemma slots_distinct_new n : slots_distinct (ClockReplacer.new n).
Proof. intros i j f [-> _]%lookup_replicate. done. Qed.

Lemma slots_distinct_register r f i :
  wf r → slots_distinct r → slot_of r f = None →
  ∀ r', frame_ids_ r' = <[i := f]> (frame_ids_ r) → slots_distinct r'.
Proof.
  intros Hwf Hd Hnone r' Hids a b h Ha Hb Hh. rewrite Hids in Ha, Hb.
  rewrite slot_of_full in Hnone by done. apply find_slot_None in Hnone.
  apply list_lookup_insert_Some in Ha as [(-> & <- & _)|(Hai & Ha)];
    apply list_lookup_insert_Some in Hb as [(Hbi & Hbf & _)|(Hbi & Hb)].
  - done.
  - destruct Hnone. apply list_elem_of_lookup. by exists b.
  - subst h. destruct Hnone. apply list_elem_of_lookup. by exists a.
  - by apply (Hd a b h).
Qed.

Lemma slots_distinct_Pin f r :
  wf r → slots_distinct r → slots_distinct (Pin f r).
Proof.
  intros Hwf Hd. destruct (slot_of r f) as [i|] eqn:Hi.
  - by rewrite (Pin_registered _ _ _ Hi).
  - destruct (slot_of r (-1)) as [i|] eqn:Hi'.
    + rewrite (Pin_fresh _ _ _ Hi Hi'). by eapply slots_distinct_register.
    + by rewrite Pin_full.
Qed.

Lemma slots_distinct_Unpin f r :
  wf r → slots_distinct r → slots_distinct (Unpin f r).
Proof.
  intros Hwf Hd. destruct (slot_of r f) as [i|] eqn:Hi.
  - unfold Unpin. unfold slot_of in Hi. rewrite Hi.
    by destruct (pinned_ r !! i) as [[]|].
  - destruct (slot_of r (-1)) as [i|] eqn:Hi'.
    + rewrite (Unpin_fresh _ _ _ Hi Hi'). by eapply slots_distinct_register.
    + by rewrite Unpin_full.
Qed.

(** What a returning [Victim] did. *)
Lemma Victim_Some_result fuel r f r' :
  Victim fuel r = Done (Some f, r') →
  ∃ i, frame_ids_ r !! i = Some f ∧ f ≠ -1 ∧ pinned_ r !! i = Some false ∧
       frame_ids_ r' = <[i := -1]> (frame_ids_ r) ∧ pinned_ r' = pinned_ r ∧
       now_ r' = ((i + 1) `mod` size_ r)%nat ∧
       size_ r' = size_ r ∧ max_size_ r' = max_size_ r.
Proof.
  unfold Victim. destruct (size_ r =? 0)%nat; [done|].
  destruct (pinned_cnt r =? size_ r)%nat; [done|].
  destruct (sweep fuel r) as [[g r'']| |] eqn:E; [|done..].
  intros [= <- <-]. by apply sweep_result in E.
Qed.

Lemma slots_distinct_Victim fuel r v r' :
  slots_distinct r → Victim fuel r = Done (v, r') → slots_distinct r'.
Proof.
  intros Hd Hv. destruct v as [f|].
  - apply Victim_Some_result in Hv as (i & _ & _ & _ & Hids & _).
    intros a b h Ha Hb Hh. rewrite Hids in Ha, Hb.
    apply list_lookup_insert_Some in Ha as [(_ & ? & _)|(_ & Ha)]; [congruence|].
    apply list_lookup_insert_Some in Hb as [(_ & ? & _)|(_ & Hb)]; [congruence|].
    by apply (Hd a b h).
  - by apply Victim_slots in Hv as (_ & -> & _).
Qed.

Lemma reachable_replacer_distinct r : reachable_replacer r → slots_distinct r.
Proof.
  induction 1 as [n|f r Hf Hr IH|f r Hf Hr IH|fuel r v r' Hr IH Hv].
  - apply slots_distinct_new.
  - apply slots_distinct_Pin; [by apply reachable_replacer_wf|done].
  - apply slots_distinct_Unpin; [by apply reachable_replacer_wf|done].
  - by eapply slots_distinct_Victim.
Qed.

(** The frame that [Victim] returns was registered and not pinned; it is no
    longer registered afterwards, [Size()] is one less, and the other frames
    keep their registration and their pinned flag. *)
Lemma Victim_Some_effect fuel r f r' :
  wf r → slots_distinct r →
  Victim fuel r = Done (Some f, r') →
  registered r f ∧ pinned_flag r f = Some false ∧
  ¬ registered r' f ∧ Size r = S (Size r') ∧
  (∀ g, g ≠ -1 → g ≠ f →
     slot_of r' g = slot_of r g ∧ pinned_flag r' g = pinned_flag r g).
Proof.
  intros Hwf Hd Hv. pose proof (wf_Victim _ _ _ _ Hwf Hv) as Hwf'.
  apply Victim_Some_result in Hv as (i & Hi & Hf & Hp & Hids & Hpin & _ & _ & Hmax).
  pose proof (slot_of_distinct _ _ _ Hwf Hd Hf Hi) as Hslot.
  split_and!.
  - split; [done|by eexists].
  - unfold pinned_flag. rewrite Hslot. done.
  - rewrite registered_lookup by done. intros [_ [j Hj]]. rewrite Hids in Hj.
    apply list_lookup_insert_Some in Hj as [(_ & ? & _)|(Hne & Hj)]; [congruence|].
    apply Hne. by apply (Hd i j f).
  - rewrite (Size_full r), (Size_full r') by done. rewrite Hids, Hpin.
    pose proof (count_slots_insert_ids is_evictable_slot _ _ i f (-1) false Hi Hp) as H.
    assert (is_evictable_slot f false = true) as E1.
    { unfold is_evictable_slot. apply Z.eqb_neq in Hf. by rewrite Hf. }
    rewrite E1 in H. change (is_evictable_slot (-1) false) with false in H.
    simpl in H. lia.
  - intros g Hg Hne.
    assert (slot_of r' g = slot_of r g) as Hs.
    { rewrite !slot_of_full by done. rewrite Hids.
      apply find_slot_insert_other; [done|congruence]. }
    split; [done|]. unfold pinned_flag. by rewrite Hs, Hpin.
Qed.

End replacer_distinct.

(** X3: in every state that the methods of a replacer can produce, the three
    vectors have [max_size_] entries, [size_ <= max_size_], the hand is below
    [size_] (or both are 0), every occupied slot is below [size_], and no
    frame occupies two slots. *)
Theorem reachable_replacer_invariant (r : ClockReplacer.t) :
  reachable_replacer r → wf r ∧ slots_distinct r.
Proof.
  intros Hr. split; [by apply reachable_replacer_wf|by apply reachable_replacer_distinct].
Qed.

Lemma reachable_replacer_invariant_witness :
  wf (Unpin 2 (Pin 1 (Pin 2 (ClockReplacer.new 3)))) ∧
  slots_distinct (Unpin 2 (Pin 1 (Pin 2 (ClockReplacer.new 3)))).
Proof.
  apply reachable_replacer_invariant.
  apply reachable_replacer_Unpin; [lia|].
  apply reachable_replacer_Pin; [lia|].
  apply reachable_replacer_Pin; [lia|].
  apply reachable_replacer_new.
Defined.

(** X4: when some registered frame is not pinned, [Victim] returns [true]
    within two revolutions of the hand. The frame it returns was registered
    and not pinned; afterwards it is not registered, [Size()] is one less,
    and the other frames keep their registration and their pinned flag. *)
Theorem Victim_evicts_unpinned_frame (r : ClockReplacer.t) (fuel : nat) :
  wf r → slots_distinct r → (0 < Size r)%nat → (2 * size_ r ≤ fuel)%nat →
  ∃ f r', Victim fuel r = Done (Some f, r') ∧
    registered r f ∧ pinned_flag r f = Some false ∧
    ¬ registered r' f ∧ Size r = S (Size r') ∧
    (∀ g, g ≠ -1 → g ≠ f →
       (registered r' g ↔ registered r g) ∧ pinned_flag r' g = pinned_flag r g).
Proof.
  intros Hwf Hd Hsize Hfuel.
  destruct (Victim_returns_evictable r fuel) as (f & r' & i & Hv & _); [done..|].
  exists f, r'. split; [done|].
  destruct (Victim_Some_effect _ _ _ _ Hwf Hd Hv) as (H1 & H2 & H3 & H4 & H5).
  split_and!; try done.
  intros g Hg Hne. destruct (H5 g Hg Hne) as [Hs Hp]. split; [|done].
  unfold registered. by rewrite Hs.
Qed.

Lemma Victim_evicts_unpinned_frame_witness :
  ∃ f r', Victim 4 (Unpin 7 (Pin 5 (ClockReplacer.new 2))) = Done (Some f, r') ∧
    registered (Unpin 7 (Pin 5 (ClockReplacer.new 2))) f ∧
    pinned_flag (Unpin 7 (Pin 5 (ClockReplacer.new 2))) f = Some false ∧
    ¬ registered r' f ∧
    Size (Unpin 7 (Pin 5 (ClockReplacer.new 2))) = S (Size r') ∧
    (∀ g, g ≠ -1 → g ≠ f →
       (registered r' g ↔ registered (Unpin 7 (Pin 5 (ClockReplacer.new 2))) g) ∧
       pinned_flag r' g = pinned_flag (Unpin 7 (Pin 5 (ClockReplacer.new 2))) g).
Proof.
  apply (Victim_evicts_unpinned_frame (Unpin 7 (Pin 5 (ClockReplacer.new 2))) 4).
  - apply wf_Unpin, wf_Pin, wf_new.
  - apply slots_distinct_Unpin; [apply wf_Pin, wf_new|].
    apply slots_distinct_Pin; [apply wf_new|apply slots_distinct_new].
  - apply Nat.ltb_lt. reflexivity.
  - apply Nat.leb_le. reflexivity.
Defined.

(** X5: when no registered frame is unpinned, [Victim] returns [false] and
    leaves the replacer as it is if every slot below [size_] is occupied; if
    one of them is empty it does not return, whatever the fuel. *)
Theorem Victim_without_evictable_frame (r : ClockReplacer.t) :
  wf r → Size r = 0%nat →
  ((∀ i, (i < size_ r)%nat → frame_ids_ r !! i ≠ Some (-1)) →
     ∀ fuel, Victim fuel r = Done (None, r)) ∧
  ((∃ i, (i < size_ r)%nat ∧ frame_ids_ r !! i = Some (-1)) →
     ∀ fuel, Victim fuel r = Diverge).
Proof.
  intros Hwf Hsize. split.
  - intros Hfull fuel. by apply Victim_all_pinned.
  - intros Hhole. by apply Victim_diverges.
Qed.

Lemma Victim_without_evictable_frame_witness :
  (∀ fuel, Victim fuel (Pin 1 (Pin 0 (ClockReplacer.new 2)))
           = Done (None, Pin 1 (Pin 0 (ClockReplacer.new 2)))) ∧
  (∀ fuel, Victim fuel hole_replacer = Diverge).
Proof.
  split.
  - destruct (Victim_without_evictable_frame (Pin 1 (Pin 0 (ClockReplacer.new 2))))
      as [H _]; [apply wf_Pin, wf_Pin, wf_new | reflexivity |].
    apply H. intros [|[|i]] Hi; vm_compute in Hi; [vm_compute; discriminate..|lia].
  - destruct (Victim_without_evictable_frame hole_replacer) as [_ H];
      [| reflexivity |].
    + apply (wf_Victim 2 (Unpin 0 (Pin 0 (ClockReplacer.new 1))) (Some 0));
        [apply wf_Unpin, wf_Pin, wf_new | reflexivity].
    + apply H. exists 0%nat. split; [apply Nat.ltb_lt|]; reflexivity.
Defined.

Section replacer_packed.

Implicit Types r : ClockReplacer.t.

Lemma no_holes_new n : no_holes (ClockReplacer.new n).
Proof. intros i Hi. simpl in Hi. lia. Qed.

(** Without holes the first empty slot is the one at [size_]. *)
Lemma packed_free_slot r :
  wf r → no_holes r → (size_ r < max_size_ r)%nat →
  slot_of r (-1) = Some (size_ r).
Proof.
  intros Hwf Hh Hlt. rewrite slot_of_full by done.
  destruct (lookup_lt_is_Some_2 (frame_ids_ r) (size_ r)) as [g Hg].
  { rewrite (wf_frame_ids _ Hwf). done. }
  assert (g = -1) as ->.
  { destruct (decide (g = -1)); [done|].
    pose proof (wf_occupied _ Hwf _ _ Hg ltac:(done)). lia. }
  destruct (find_slot_is_Some (-1) (frame_ids_ r)) as [j Hj].
  { by eapply list_elem_of_lookup_2. }
  rewrite Hj. f_equal.
  pose proof (find_slot_Some _ _ _ Hj) as Hj1.
  pose proof (find_slot_first _ _ _ Hj (size_ r)) as Hj2.
  destruct (decide (j < size_ r)%nat) as [Hlt'|]; [by apply Hh in Hlt'|].
  destruct (decide (size_ r < j)%nat) as [Hgt|]; [by apply Hj2 in Hgt|]. lia.
Qed.

Lemma packed_full r :
  wf r → no_holes r → size_ r = max_size_ r → slot_of r (-1) = None.
Proof.
  intros Hwf Hh Heq. rewrite slot_of_full by done.
  destruct (find_slot (-1) (frame_ids_ r)) as [j|] eqn:Hj; [|done].
  pose proof (find_slot_lt _ _ _ Hj) as Hlt.
  rewrite (wf_frame_ids _ Hwf), <- Heq in Hlt.
  apply find_slot_Some in Hj. by apply Hh in Hlt.
Qed.

Lemma no_holes_register r f :
  wf r → no_holes r → f ≠ -1 → slot_of r f = None →
  ∀ r', (∀ i, slot_of r (-1) = Some i →
           frame_ids_ r' = <[i := f]> (frame_ids_ r) ∧
           size_ r' = ((size_ r + 1) `min` max_size_ r)%nat) →
        (slot_of r (-1) = None → r' = r) →
  no_holes r'.
Proof.
  intros Hwf Hh Hf Hs r' Hsome Hnone.
  destruct (decide (size_ r < max_size_ r)%nat) as [Hlt|Hge].
  - destruct (Hsome _ (packed_free_slot r Hwf Hh Hlt)) as [Hids Hsz].
    intros i Hi. rewrite Hids. rewrite Hsz in Hi.
    destruct (decide (i = size_ r)) as [->|Hne].
    + intros H. apply list_lookup_insert_Some in H as [(_ & ? & _)|(? & _)]; done.
    + rewrite list_lookup_insert_ne by done. apply Hh. lia.
  - rewrite (Hnone (packed_full r Hwf Hh ltac:(pose proof (wf_size _ Hwf); lia))).
    done.
Qed.

Lemma no_holes_Pin f r : wf r → no_holes r → f ≠ -1 → no_holes (Pin f r).
Proof.
  intros Hwf Hh Hf. destruct (slot_of r f) as [i|] eqn:Hs.
  - rewrite (Pin_registered _ _ _ Hs). exact Hh.
  - apply (no_holes_register r f); [done..| |].
    + intros i Hi. by rewrite (Pin_fresh _ _ _ Hs Hi).
    + intros Hn. by apply Pin_full.
Qed.

Lemma no_holes_Unpin f r : wf r → no_holes r → f ≠ -1 → no_holes (Unpin f r).
Proof.
  intros Hwf Hh Hf. destruct (slot_of r f) as [i|] eqn:Hs.
  - unfold Unpin. fold (slot_of r f). rewrite Hs.
    by destruct (pinned_ r !! i) as [[]|].
  - apply (no_holes_register r f); [done..| |].
    + intros i Hi. by rewrite (Unpin_fresh _ _ _ Hs Hi).
    + intros Hn. unfold Unpin. fold (slot_of r f) (slot_of r (-1)).
      by rewrite Hs, Hn.
Qed.

(** A frame that is registered, or for which a slot is left, is registered
    and pinned after [Pin]. *)
Lemma Pin_pins r f :
  wf r → f ≠ -1 → registered r f ∨ has_free_slot r →
  registered (Pin f r) f ∧ pinned_flag (Pin f r) f = Some true.
Proof.
  intros Hwf Hf Hcase. pose proof (wf_Pin f r Hwf) as Hwf'.
  destruct (slot_of r f) as [i|] eqn:Hs.
  - pose proof (slot_of_lt _ _ _ Hs) as Hi.
    assert (slot_of (Pin f r) f = Some i) as Hs'.
    { rewrite (Pin_registered _ _ _ Hs). exact Hs. }
    split; [split; [done|by eexists]|].
    unfold pinned_flag. rewrite Hs'. simpl. rewrite (Pin_registered _ _ _ Hs). simpl.
    apply list_lookup_insert_eq. by rewrite (wf_pinned _ Hwf).
  - destruct Hcase as [[_ [? ?]]|[i Hi]]; [congruence|].
    pose proof (slot_of_lt _ _ _ Hi) as Hlt.
    assert (slot_of (Pin f r) f = Some i) as Hs'.
    { rewrite slot_of_full by done. rewrite (Pin_fresh _ _ _ Hs Hi). simpl.
      apply find_slot_insert_new; [by rewrite <- slot_of_full|].
      by rewrite (wf_frame_ids _ Hwf). }
    split; [split; [done|by eexists]|].
    unfold pinned_flag. rewrite Hs'. simpl. rewrite (Pin_fresh _ _ _ Hs Hi). simpl.
    apply list_lookup_insert_eq. by rewrite (wf_pinned _ Hwf).
Qed.

(** [Unpin] of a registered frame leaves it registered, and not pinned. *)
Lemma Unpin_unpins r f :
  wf r → registered r f →
  registered (Unpin f r) f ∧ pinned_flag (Unpin f r) f = Some false.
Proof.
  intros Hwf [Hf [i Hs]]. pose proof (slot_of_lt _ _ _ Hs) as Hi.
  destruct (lookup_lt_is_Some_2 (pinned_ r) i) as [p Hp].
  { by rewrite (wf_pinned _ Hwf). }
  unfold Unpin. fold (slot_of r f). rewrite Hs, Hp. destruct p.
  - assert (slot_of {| frame_ids_ := frame_ids_ r;
                       pinned_ := <[i := false]> (pinned_ r);
                       ref_bits_ := <[i := true]> (ref_bits_ r);
                       max_size_ := max_size_ r; now_ := now_ r;
                       size_ := size_ r |} f = Some i) as Hs' by exact Hs.
    split; [split; [done|by eexists]|].
    unfold pinned_flag. rewrite Hs'. simpl.
    apply list_lookup_insert_eq. by rewrite (wf_pinned _ Hwf).
  - split; [split; [done|by eexists]|]. unfold pinned_flag. rewrite Hs. done.
Qed.

(** An eviction from a full replacer followed by [Pin] of the evicted frame
    puts the frame back into its slot, pinned. *)
Lemma Victim_then_Pin fuel r f r1 :
  wf r → slots_distinct r → no_holes r → size_ r = max_size_ r →
  Victim fuel r = Done (Some f, r1) →
  ∃ i, frame_ids_ r !! i = Some f ∧ pinned_ r !! i = Some false ∧
       frame_ids_ (Pin f r1) = frame_ids_ r ∧
       pinned_ (Pin f r1) = <[i := true]> (pinned_ r) ∧
       size_ (Pin f r1) = size_ r ∧ max_size_ (Pin f r1) = max_size_ r.
Proof.
  intros Hwf Hd Hh Hfull Hv.
  pose proof (wf_Victim _ _ _ _ Hwf Hv) as Hwf1.
  pose proof (Victim_Some_effect _ _ _ _ Hwf Hd Hv) as (_ & _ & Hnr & _ & _).
  apply Victim_Some_result in Hv as (i & Hi & Hf & Hp & Hids & Hpin & _ & Hsz & Hmax).
  exists i. split; [done|]. split; [done|].
  pose proof (lookup_lt_Some _ _ _ Hi) as Hlt.
  assert (slot_of r1 f = None) as Hs by (by apply not_registered_slot_of).
  assert (slot_of r1 (-1) = Some i) as Hfree.
  { rewrite slot_of_full by done.
    destruct (find_slot_is_Some (-1) (frame_ids_ r1)) as [j Hj].
    { rewrite Hids. eapply list_elem_of_lookup_2.
      by apply list_lookup_insert_eq. }
    rewrite Hj. f_equal.
    pose proof (find_slot_Some _ _ _ Hj) as Hj1.
    pose proof (find_slot_first _ _ _ Hj i) as Hj2.
    destruct (decide (j = i)) as [|Hne]; [done|exfalso].
    rewrite Hids, list_lookup_insert_ne in Hj1 by done.
    pose proof (lookup_lt_Some _ _ _ Hj1) as Hjlt.
    rewrite (wf_frame_ids _ Hwf), <- Hfull in Hjlt. by apply Hh in Hjlt. }
  rewrite (Pin_fresh _ _ _ Hs Hfree). simpl.
  rewrite Hids, Hpin, Hsz, Hmax. split_and!; [|done|lia|done].
  rewrite list_insert_insert_eq. by apply list_insert_id.
Qed.

(** A slot that holds a frame that is not pinned makes [Size] positive. *)
Lemma Size_pos r i f :
  wf r → frame_ids_ r !! i = Some f → f ≠ -1 → pinned_ r !! i = Some false →
  (0 < Size r)%nat.
Proof.
  intros Hwf Hi Hf Hp. rewrite Size_full by done.
  destruct (count_slots is_evictable_slot (frame_ids_ r) (pinned_ r)) eqn:E; [|lia].
  pose proof (count_slots_0 _ _ _ _ _ _ E Hi Hp) as H.
  unfold is_evictable_slot in H. apply Z.eqb_neq in Hf. by rewrite Hf in H.
Qed.

(** When no registered frame is left unpinned, [Size] is zero. *)
Lemma Size_zero r :
  wf r →
  (∀ i f, frame_ids_ r !! i = Some f → f ≠ -1 → pinned_ r !! i = Some true) →
  Size r = 0%nat.
Proof.
  intros Hwf Hall. rewrite Size_full by done.
  destruct (count_slots is_evictable_slot (frame_ids_ r) (pinned_ r)) eqn:E; [done|].
  destruct (count_slots_pos is_evictable_slot (frame_ids_ r) (pinned_ r))
    as (i & f & p & Hi & Hp & Ht); [lia|].
  unfold is_evictable_slot in Ht. apply andb_true_iff in Ht as [Hf Hp'].
  apply negb_true_iff, Z.eqb_neq in Hf. rewrite (Hall _ _ Hi Hf) in Hp.
  injection Hp as <-. done.
Qed.

End replacer_packed.

(** ** Frames, free list and page table in every reachable state *)

Section pages_invariant.

Implicit Types b : BufferPoolManagerInstance.t.

Lemma pages_ok_ext b b' :
  pages_ok b →
  free_list_ b' = free_list_ b → page_table_ b' = page_table_ b →
  pages_ b' = pages_ b → pages_ok b'.
Proof.
  intros [H1 H2 H3 H4 H5] Hf Ht Hp. split; rewrite ?Hf, ?Ht, ?Hp; done.
Qed.

(** The page table maps at most one page to a frame. *)
Lemma pages_ok_inj b p q f :
  pages_ok b → page_table_ b !! p = Some f → page_table_ b !! q = Some f → p = q.
Proof.
  intros Hok Hp Hq. apply (pk_table _ Hok) in Hp. apply (pk_table _ Hok) in Hq.
  congruence.
Qed.

Lemma pages_ok_new pool_size num_instances instance_index disk b :
  BufferPoolManagerInstance.new pool_size num_instances instance_index disk = Done b →
  pages_ok b.
Proof.
  unfold BufferPoolManagerInstance.new.
  destruct (negb _); [done|]. destruct (negb _); [done|].
  intros [= <-]. split; simpl.
  - apply (NoDup_fmap_2 _), NoDup_seq.
  - intros f (k & -> & Hk)%list_elem_of_fmap. apply elem_of_seq in Hk.
    exists empty_page. split; [|done]. unfold page_at.
    destruct (Z.ltb_spec (Z.of_nat k) 0); [lia|].
    rewrite Nat2Z.id. apply lookup_replicate_2. lia.
  - intros p f. by rewrite lookup_empty.
  - intros p f. by rewrite lookup_empty.
  - intros f pg [_ [-> _]%lookup_replicate]%page_at_Some. simpl. lia.
Qed.

(** Taking frames off the free list, or entries out of the page table. *)
Lemma pages_ok_shrink b rest m :
  pages_ok b → NoDup rest → (∀ f, f ∈ rest → f ∈ free_list_ b) →
  (∀ p f, m !! p = Some f → page_table_ b !! p = Some f) →
  pages_ok (set_page_table m (set_free_list rest b)).
Proof.
  intros [H1 H2 H3 H4 H5] Hnd Hsub Hm. split; simpl; eauto.
  intros p f Hp Hin. eapply H4; eauto.
Qed.

(** Rewriting a frame that is not free, when the entries that point to it
    carry the new page id. *)
Lemma pages_ok_put b f pg pg' :
  pages_ok b → page_at (pages_ b) f = Some pg → f ∉ free_list_ b →
  0 ≤ pin_count_ pg' ≤ 1 →
  (∀ q, page_table_ b !! q = Some f → q = page_id_ pg') →
  pages_ok (put_page f pg' b).
Proof.
  intros [H1 H2 H3 H4 H5] Hp Hnin Hpin Hent.
  pose proof (page_at_Some _ _ _ Hp) as [Hf0 _].
  split; simpl; try done.
  - intros g Hg. rewrite page_at_insert_ne; [eauto|done|]. by intros ->.
  - intros q g Hq. destruct (decide (g = f)) as [->|Hne].
    + rewrite (frame_page_id_insert_eq _ _ _ _ Hp). f_equal. symmetry. eauto.
    + rewrite (frame_page_id_insert_ne _ _ _ _ _ Hp) by done. eauto.
  - intros g pg0 Hg. destruct (decide (g = f)) as [->|Hne].
    + rewrite (page_at_insert_eq _ _ _ _ Hp) in Hg. by injection Hg as <-.
    + rewrite page_at_insert_ne in Hg by done. eauto.
Qed.

Lemma pages_ok_insert_entry b p f :
  pages_ok b → frame_page_id (pages_ b) f = Some p → f ∉ free_list_ b →
  pages_ok (set_page_table (<[p := f]> (page_table_ b)) b).
Proof.
  intros [H1 H2 H3 H4 H5] Hp Hnin. split; simpl; try done.
  - intros q g [[<- <-]|[_ Hq]]%lookup_insert_Some; eauto.
  - intros q g [[<- <-]|[_ Hq]]%lookup_insert_Some; eauto.
Qed.

Lemma pages_ok_push b f pg :
  pages_ok b → page_at (pages_ b) f = Some pg →
  page_id_ pg = INVALID_PAGE_ID → pin_count_ pg = 0 → is_dirty_ pg = false →
  f ∉ free_list_ b → (∀ q, page_table_ b !! q ≠ Some f) →
  pages_ok (set_free_list (f :: free_list_ b) b).
Proof.
  intros [H1 H2 H3 H4 H5] Hp Hid Hpin Hd Hnin Hent. split; simpl; try done.
  - by constructor.
  - intros g [->|Hg]%elem_of_cons; [by exists pg|eauto].
  - intros q g Hq [->|Hg]%elem_of_cons; [by apply (Hent q)|by eapply H4].
Qed.

(** Installing page [p] in a frame [f] that no entry points to. *)
Lemma pages_ok_install b f p pg pg' :
  pages_ok b → page_at (pages_ b) f = Some pg → f ∉ free_list_ b →
  (∀ q, page_table_ b !! q ≠ Some f) →
  page_id_ pg' = p → 0 ≤ pin_count_ pg' ≤ 1 →
  pages_ok (set_page_table (<[p := f]> (page_table_ b)) (put_page f pg' b)).
Proof.
  intros Hok Hp Hnin Hent Hid Hpin.
  apply (pages_ok_insert_entry (put_page f pg' b)).
  - eapply pages_ok_put; [done..|]. intros q Hq. by apply Hent in Hq.
  - simpl. rewrite (frame_page_id_insert_eq _ _ _ _ Hp). by rewrite Hid.
  - done.
Qed.

Lemma pages_ok_FlushPgImp p b x b' :
  pages_ok b → FlushPgImp p b = Done (x, b') → pages_ok b'.
Proof.
  intros Hok. unfold FlushPgImp, get_page.
  destruct (page_table_ b !! p) as [f|] eqn:Ht; [|by intros [= _ <-]].
  destruct (page_at (pages_ b) f) as [pg|] eqn:Hp; simpl; [|done].
  intros [= _ <-].
  apply (pages_ok_ext (put_page f (mkPage (page_id_ pg) (pin_count_ pg) false (data_ pg)) b));
    [|done..].
  apply (pages_ok_put b f pg); [done|done|by apply (pk_disjoint b Hok p)|simpl; by apply (pk_pins b Hok f)|].
  intros q Hq. simpl. pose proof (pk_table _ Hok _ _ Hq) as Hid.
  unfold frame_page_id in Hid. rewrite Hp in Hid. by injection Hid.
Qed.

Lemma pages_ok_FlushAllPgsImp b b' :
  pages_ok b → FlushAllPgsImp b = Done b' → pages_ok b'.
Proof.
  intros Hok H%write_entries_fields. destruct H as (?&?&?&?&?&?&?&?&?).
  by eapply pages_ok_ext.
Qed.

Lemma pages_ok_UnpinPgImp p d b x b' :
  pages_ok b → UnpinPgImp p d b = Done (x, b') → pages_ok b'.
Proof.
  intros Hok. unfold UnpinPgImp, get_page.
  destruct (page_table_ b !! p) as [f|] eqn:Ht; [|by intros [= _ <-]].
  destruct (page_at (pages_ b) f) as [pg|] eqn:Hp; simpl; [|done].
  destruct (Z.ltb_spec 0 (pin_count_ pg)); [|by intros [= _ <-]].
  intros [= _ <-].
  eapply (pages_ok_ext (put_page f _ b)); [|simpl; reflexivity..].
  apply (pages_ok_put b f pg); [done|done|by apply (pk_disjoint b Hok p)| |].
  - simpl. pose proof (pk_pins _ Hok _ _ Hp). lia.
  - intros q Hq. simpl. pose proof (pk_table _ Hok _ _ Hq) as Hid.
    unfold frame_page_id in Hid. rewrite Hp in Hid. by injection Hid.
Qed.

Lemma pages_ok_DeletePgImp p b x b' :
  pages_ok b → DeletePgImp p b = Done (x, b') → pages_ok b'.
Proof.
  intros Hok. unfold DeletePgImp, get_page.
  destruct (page_table_ b !! p) as [f|] eqn:Ht.
  2: { intros [= _ <-]. by eapply pages_ok_ext. }
  destruct (page_at (pages_ b) f) as [pg|] eqn:Hp; simpl; [|done].
  destruct (0 <? pin_count_ pg); [by intros [= _ <-]|].
  intros [= _ <-].
  set (blank := mkPage INVALID_PAGE_ID 0 false (data_ pg)).
  set (b1 := set_page_table (delete p (page_table_ b)) (set_free_list (free_list_ b) b)).
  assert (pages_ok b1) as Hok1.
  { apply pages_ok_shrink; [done|by apply pk_nodup|done|].
    by intros q g [_ ?]%lookup_delete_Some. }
  assert (∀ q, page_table_ b1 !! q ≠ Some f) as Hent.
  { intros q Hq. simpl in Hq. apply lookup_delete_Some in Hq as [Hne Hq].
    apply Hne. by apply (pages_ok_inj b p q f). }
  assert (f ∉ free_list_ b) as Hnin by (by apply (pk_disjoint b Hok p)).
  assert (pages_ok (put_page f blank b1)) as Hok2.
  { eapply pages_ok_put; [done..| |]; [simpl; lia|].
    intros q Hq. by apply Hent in Hq. }
  eapply pages_ok_ext; [apply (pages_ok_push (put_page f blank b1) f blank)|..];
    try done.
  simpl. by eapply page_at_insert_eq.
Qed.

(** The tail of the two installing calls, after the frame was chosen: the
    frame [f] is out of the free list and the entry of its old page is
    erased. *)
Lemma pages_ok_installed b f p pg pg' rest T b' :
  pages_ok b → page_at (pages_ b) f = Some pg →
  (free_list_ b = f :: rest ∨ (free_list_ b = [] ∧ rest = [])) →
  (T = delete (page_id_ pg) (page_table_ b) ∨
   T = page_table_ b ∧ free_list_ b = f :: rest) →
  page_id_ pg' = p → 0 ≤ pin_count_ pg' ≤ 1 →
  free_list_ b' = rest → page_table_ b' = <[p := f]> T →
  pages_ b' = <[Z.to_nat f := pg']> (pages_ b) →
  pages_ok b'.
Proof.
  intros Hok Hp Hfree HT Hid Hpin Hf Ht Hpg.
  assert (NoDup rest ∧ (f ∉ rest) ∧ (∀ g, g ∈ rest → g ∈ free_list_ b))
    as (Hnd & Hnin & Hsub).
  { destruct Hfree as [Hfl|[Hfl ->]].
    - pose proof (pk_nodup _ Hok) as H. rewrite Hfl in H.
      apply NoDup_cons in H as [? ?]. split_and!; [done..|].
      intros g Hg. rewrite Hfl. by right.
    - split_and!; [constructor|apply not_elem_of_nil|]. by intros g ?%elem_of_nil. }
  set (b1 := set_page_table T (set_free_list rest b)).
  assert (pages_ok b1 ∧ ∀ q, T !! q ≠ Some f) as [Hok1 Hent].
  { destruct HT as [->|[-> Hfl]].
    - split.
      + apply pages_ok_shrink; [done..|]. by intros q g [_ ?]%lookup_delete_Some.
      + intros q [Hne Hq]%lookup_delete_Some. apply Hne.
        pose proof (pk_table _ Hok _ _ Hq) as Hq'. unfold frame_page_id in Hq'.
        rewrite Hp in Hq'. by injection Hq'.
    - split; [apply pages_ok_shrink; auto|].
      intros q Hq. apply (pk_disjoint _ Hok) in Hq. apply Hq. rewrite Hfl. by left. }
  eapply pages_ok_ext; [apply (pages_ok_install b1 f p pg pg')|..]; try done.
Qed.

Lemma pages_ok_install_fetched p f b rest x b' pg :
  pages_ok b → page_at (pages_ b) f = Some pg →
  (free_list_ b = f :: rest ∨ (free_list_ b = [] ∧ rest = [])) →
  ∀ b1, pages_ b1 = pages_ b → page_table_ b1 = page_table_ b →
        free_list_ b1 = rest →
  install_fetched p f b1 = Done (x, b') → pages_ok b'.
Proof.
  intros Hok Hp Hfree b1 Hpg Ht Hf. unfold install_fetched, get_page.
  rewrite Hpg, Hp. simpl. intros [= _ <-].
  apply (pages_ok_installed b f p pg
           (mkPage p 1 false
              (ReadPage p (set_page_table
                 (<[p := f]> (delete (page_id_ pg) (page_table_
                    (if is_dirty_ pg then WritePage (page_id_ pg) (data_ pg) b1 else b1))))
                 (if is_dirty_ pg then WritePage (page_id_ pg) (data_ pg) b1 else b1))))
           rest (delete (page_id_ pg) (page_table_ b)));
    [done|done|done|by left|done|simpl; lia|..].
  - simpl. by destruct (is_dirty_ pg).
  - simpl. destruct (is_dirty_ pg); simpl; by rewrite Ht.
  - simpl. destruct (is_dirty_ pg); simpl; by rewrite Hpg.
Qed.

Lemma pages_ok_FetchPgImp fuel p b x b' :
  frames_ok b → pages_ok b → FetchPgImp fuel p b = Done (x, b') → pages_ok b'.
Proof.
  intros Hfo Hok. unfold FetchPgImp.
  destruct (page_table_ b !! p) as [f|] eqn:Ht.
  - unfold get_page. destruct (page_at (pages_ b) f) as [pg|] eqn:Hp; simpl; [|done].
    destruct (Z.ltb_spec 0 (pin_count_ pg)); [by intros [= _ <-]|].
    intros [= _ <-].
    eapply (pages_ok_ext (put_page f _ b)); [|simpl; reflexivity..].
    apply (pages_ok_put b f pg); [done|done|by apply (pk_disjoint b Hok p)| |].
    + simpl. pose proof (pk_pins _ Hok _ _ Hp). lia.
    + intros q Hq. simpl. pose proof (pk_table _ Hok _ _ Hq) as Hid.
      unfold frame_page_id in Hid. rewrite Hp in Hid. by injection Hid.
  - unfold pop_free. destruct (free_list_ b) as [|f rest] eqn:Hfl.
    + simpl.
      destruct (Victim fuel (replacer_ b)) as [[v r]| |] eqn:Hv; simpl; [|done..].
      destruct v as [f|]; [|intros [= _ <-]; by eapply pages_ok_ext].
      apply frames_ok_Victim in Hv as (_ & _ & Hrange); [|done].
      destruct (frames_ok_in_range b f Hfo (Hrange f eq_refl)) as [pg Hp].
      apply (pages_ok_install_fetched p f b [] _ _ pg); try done.
      right. by rewrite Hfl.
    + pose proof (fo_free _ Hfo f) as Hf. rewrite Hfl in Hf.
      specialize (Hf ltac:(by left)).
      destruct (Z.eqb_spec f (-1)); [lia|].
      destruct (frames_ok_in_range b f Hfo Hf) as [pg Hp].
      apply (pages_ok_install_fetched p f b rest _ _ pg); try done.
      left. by rewrite Hfl.
Qed.

Lemma pages_ok_install_new f b rest T x b' pg :
  pages_ok b → page_at (pages_ b) f = Some pg →
  (free_list_ b = f :: rest ∨ (free_list_ b = [] ∧ rest = [])) →
  (T = delete (page_id_ pg) (page_table_ b) ∨
   T = page_table_ b ∧ free_list_ b = f :: rest) →
  ∀ b1, pages_ b1 = pages_ b → page_table_ b1 = T → free_list_ b1 = rest →
  install_new f b1 = Done (x, b') → pages_ok b'.
Proof.
  intros Hok Hp Hfree HT b1 Hpg Ht Hf. unfold install_new.
  destruct (AllocatePage b1) as [[id b2]| |] eqn:Ha; simpl; [|done..].
  apply AllocatePage_Done in Ha as [-> ->].
  unfold get_page. simpl. rewrite Hpg, Hp. simpl. intros [= _ <-].
  apply (pages_ok_installed b f (next_page_id_ b1) pg
           (mkPage (next_page_id_ b1) 1 true zero_data) rest T);
    [done|done|done|done|done|simpl; lia|..].
  - done.
  - simpl. by rewrite Ht.
  - simpl. by rewrite Hpg.
Qed.

Lemma pages_ok_NewPgImp fuel b x b' :
  frames_ok b → pages_ok b → NewPgImp fuel b = Done (x, b') → pages_ok b'.
Proof.
  intros Hfo Hok. unfold NewPgImp.
  destruct (all_pinned b); [by intros [= _ <-]|].
  unfold pop_free. destruct (free_list_ b) as [|f rest] eqn:Hfl.
  - simpl.
    destruct (Victim fuel (replacer_ b)) as [[v r]| |] eqn:Hv; simpl; [|done..].
    destruct v as [f|]; [|intros [= _ <-]; by eapply pages_ok_ext].
    set (b2 := set_replacer r b).
    destruct (get_page b2 f) as [pg| |] eqn:Hpg; simpl; [|done..].
    destruct (if is_dirty_ pg then _ else _) as [[y b3]| |] eqn:Hflush; simpl; [|done..].
    assert (pages_ok b3 ∧ free_list_ b3 = []) as [Hok3 Hfl3].
    { destruct (is_dirty_ pg).
      - split.
        + eapply pages_ok_FlushPgImp; [|done]. by eapply pages_ok_ext.
        + apply FlushPgImp_fields in Hflush as (_&_&_&_&_&_&->&_). done.
      - injection Hflush as _ <-. split; [by eapply pages_ok_ext|done]. }
    destruct (get_page b3 f) as [pg'| |] eqn:Hpg'; simpl; [|done..].
    unfold get_page in Hpg'.
    destruct (page_at (pages_ b3) f) as [pg''|] eqn:Hpf; [|done].
    injection Hpg' as ->.
    apply (pages_ok_install_new f b3 [] (delete (page_id_ pg') (page_table_ b3)) _ _ pg'); try done.
    + by right.
    + by left.
  - pose proof (fo_free _ Hfo f) as Hf. rewrite Hfl in Hf.
    specialize (Hf ltac:(by left)).
    destruct (Z.eqb_spec f (-1)); [lia|].
    destruct (frames_ok_in_range b f Hfo Hf) as [pg Hp].
    apply (pages_ok_install_new f b rest (page_table_ b) _ _ pg); try done.
    + left. by rewrite Hfl.
    + right. by rewrite Hfl.
Qed.

Lemma pages_ok_serve fuel q b b' :
  frames_ok b → pages_ok b → serve fuel q b = Done b' → pages_ok b'.
Proof.
  intros Hfo Hok. destruct q as [|p|p d|p| |p]; simpl.
  - destruct (NewPgImp fuel b) as [[x b1]| |] eqn:E; [|done..].
    intros [= <-]. by eapply pages_ok_NewPgImp.
  - destruct (FetchPgImp fuel p b) as [[x b1]| |] eqn:E; [|done..].
    intros [= <-]. by eapply pages_ok_FetchPgImp.
  - destruct (UnpinPgImp p d b) as [[x b1]| |] eqn:E; [|done..].
    intros [= <-]. by eapply pages_ok_UnpinPgImp.
  - destruct (FlushPgImp p b) as [[x b1]| |] eqn:E; [|done..].
    intros [= <-]. by eapply pages_ok_FlushPgImp.
  - by apply pages_ok_FlushAllPgsImp.
  - destruct (DeletePgImp p b) as [[x b1]| |] eqn:E; [|done..].
    intros [= <-]. by eapply pages_ok_DeletePgImp.
Qed.

Lemma reachable_pages_ok b : reachable b → pages_ok b.
Proof.
  induction 1 as [| fuel q b b' Hb IH Hserve]; [by eapply pages_ok_new|].
  eapply pages_ok_serve; [|done..]. by apply reachable_frames_ok.
Qed.

End pages_invariant.

(** ** The replacer follows the frames *)

Section replacer_invariant.

Implicit Types b : BufferPoolManagerInstance.t.

Lemma frame_pin_count_insert_eq pages f pg pg' :
  page_at pages f = Some pg →
  frame_pin_count (<[Z.to_nat f := pg']> pages) f = Some (pin_count_ pg').
Proof.
  intros Hp. unfold frame_pin_count. by rewrite (page_at_insert_eq _ _ _ _ Hp).
Qed.

Lemma frame_pin_count_insert_ne pages f g pg' :
  0 ≤ f → f ≠ g →
  frame_pin_count (<[Z.to_nat f := pg']> pages) g = frame_pin_count pages g.
Proof.
  intros Hf Hne. unfold frame_pin_count. by rewrite page_at_insert_ne.
Qed.

Lemma frame_pin_count_insert_same pages f pg pg' :
  page_at pages f = Some pg → pin_count_ pg' = pin_count_ pg →
  ∀ g, frame_pin_count (<[Z.to_nat f := pg']> pages) g = frame_pin_count pages g.
Proof.
  intros Hp Heq g. pose proof (page_at_Some _ _ _ Hp) as [Hf _].
  destruct (decide (f = g)) as [<-|Hne].
  - rewrite (frame_pin_count_insert_eq _ _ _ _ Hp). unfold frame_pin_count.
    rewrite Hp. simpl. by rewrite Heq.
  - by apply frame_pin_count_insert_ne.
Qed.

(** Distinct values of [0 .. n-1] are at most [n]. *)
Lemma bounded_NoDup_length (l : list Z) (n : nat) :
  NoDup l → (∀ x, x ∈ l → 0 ≤ x < Z.of_nat n) → (length l ≤ n)%nat.
Proof.
  intros Hnd Hin.
  assert (l ⊆+ Z.of_nat <$> seq 0 n) as Hsub.
  { apply NoDup_submseteq; [done|]. intros x Hx. apply list_elem_of_fmap.
    exists (Z.to_nat x). split; [pose proof (Hin x Hx); lia|].
    apply elem_of_seq. pose proof (Hin x Hx). lia. }
  apply submseteq_length in Hsub. by rewrite length_fmap, length_seq in Hsub.
Qed.

Lemma occupied_NoDup r :
  slots_distinct r → no_holes r → NoDup (take (size_ r) (frame_ids_ r)).
Proof.
  intros Hd Hh. apply NoDup_alt. intros i j x Hi Hj.
  apply lookup_take_Some in Hi as [Hi Hilt]. apply lookup_take_Some in Hj as [Hj _].
  apply (Hd i j x); [done..|]. intros ->. by apply Hh in Hilt.
Qed.

Lemma registered_occupied r f :
  wf r → registered r f ↔ f ≠ -1 ∧ f ∈ take (size_ r) (frame_ids_ r).
Proof.
  intros Hwf. rewrite registered_lookup by done. split.
  - intros [Hf [i Hi]]. split; [done|]. apply list_elem_of_lookup. exists i.
    apply lookup_take_Some. split; [done|]. by apply (wf_occupied _ Hwf i f).
  - intros [Hf [i Hi]%list_elem_of_lookup]. split; [done|]. exists i.
    by apply lookup_take_Some in Hi as [Hi _].
Qed.

(** A frame of the pool that the replacer does not hold finds a slot. *)
Lemma replacer_ok_room b f :
  frames_ok b → replacer_ok b →
  0 ≤ f < Z.of_nat (pool_size_ b) → ¬ registered (replacer_ b) f →
  slot_of (replacer_ b) (-1) = Some (size_ (replacer_ b)).
Proof.
  intros Hfo Hrk Hf Hnr. pose proof (fo_replacer _ Hfo) as Hwf.
  apply packed_free_slot; [done|by apply rk_holes|].
  assert (length (f :: take (size_ (replacer_ b)) (frame_ids_ (replacer_ b)))
          ≤ pool_size_ b)%nat as Hlen.
  { apply bounded_NoDup_length.
    - constructor; [|apply occupied_NoDup; by destruct Hrk].
      intros Hin. apply Hnr. apply registered_occupied; [done|]. split; [lia|done].
    - intros x [->|Hx]%elem_of_cons; [done|].
      apply list_elem_of_lookup in Hx as [i Hi].
      apply lookup_take_Some in Hi as [Hi Hlt].
      apply (fo_slots _ Hfo i x Hi). intros ->. by apply (rk_holes _ Hrk) in Hlt. }
  simpl in Hlen. rewrite length_take, (wf_frame_ids _ Hwf) in Hlen.
  pose proof (wf_size _ Hwf). rewrite (rk_max _ Hrk). lia.
Qed.

(** With an empty free list every slot of the replacer is taken. *)
Lemma replacer_ok_full b :
  frames_ok b → replacer_ok b → free_list_ b = [] →
  size_ (replacer_ b) = max_size_ (replacer_ b).
Proof.
  intros Hfo Hrk Hfree. pose proof (fo_replacer _ Hfo) as Hwf.
  assert (Z.of_nat <$> seq 0 (pool_size_ b) ⊆+
          take (size_ (replacer_ b)) (frame_ids_ (replacer_ b))) as Hsub.
  { apply NoDup_submseteq; [apply (NoDup_fmap_2 _), NoDup_seq|].
    intros x (k & -> & Hk)%list_elem_of_fmap. apply elem_of_seq in Hk.
    destruct (rk_known _ Hrk (Z.of_nat k)) as [Hr|Hin]; [lia| |].
    - by apply registered_occupied in Hr as [_ ?].
    - rewrite Hfree in Hin. by apply elem_of_nil in Hin. }
  apply submseteq_length in Hsub.
  rewrite length_fmap, length_seq, length_take in Hsub.
  pose proof (wf_size _ Hwf). rewrite (rk_max _ Hrk) in *. lia.
Qed.

Lemma replacer_ok_new pool_size num_instances instance_index disk b :
  BufferPoolManagerInstance.new pool_size num_instances instance_index disk = Done b →
  replacer_ok b.
Proof.
  unfold BufferPoolManagerInstance.new.
  destruct (negb _); [done|]. destruct (negb _); [done|].
  intros [= <-]. split; simpl.
  - done.
  - apply slots_distinct_new.
  - apply no_holes_new.
  - intros f Hf. right. apply list_elem_of_fmap. exists (Z.to_nat f).
    split; [lia|]. apply elem_of_seq. lia.
  - intros f n _ [Hf [i Hi]]. apply slot_of_lookup in Hi. simpl in Hi.
    apply lookup_replicate in Hi as [? _]. done.
Qed.

(** Calls that leave the replacer and the pin counts alone. *)
Lemma replacer_ok_same b b' :
  replacer_ok b → pool_size_ b' = pool_size_ b → replacer_ b' = replacer_ b →
  (∀ f, f ∈ free_list_ b → f ∈ free_list_ b') →
  (∀ f, frame_pin_count (pages_ b') f = frame_pin_count (pages_ b) f) →
  replacer_ok b'.
Proof.
  intros [H1 H2 H3 H4 H5] Hpool Hr Hfree Hpins.
  split; rewrite ?Hr, ?Hpool; try done.
  - intros f Hf. destruct (H4 f Hf); auto.
  - intros f n Hn. rewrite Hpins in Hn. eauto.
Qed.

(** A call that pins frame [f], taken from the free list or resident. *)
Lemma replacer_ok_Pin b b' f :
  frames_ok b → replacer_ok b → 0 ≤ f < Z.of_nat (pool_size_ b) →
  pool_size_ b' = pool_size_ b → replacer_ b' = Pin f (replacer_ b) →
  (∀ g, g ∈ free_list_ b → g = f ∨ g ∈ free_list_ b') →
  (∀ g, g ≠ f → frame_pin_count (pages_ b') g = frame_pin_count (pages_ b) g) →
  (∀ n, frame_pin_count (pages_ b') f = Some n → 0 < n) →
  replacer_ok b'.
Proof.
  intros Hfo Hrk Hf Hpool Hr Hfree Hpins Hpin.
  pose proof (fo_replacer _ Hfo) as Hwf.
  assert (f ≠ -1) as Hf1 by lia.
  assert (registered (replacer_ b) f ∨ has_free_slot (replacer_ b)) as Hcase.
  { destruct (slot_of (replacer_ b) f) as [i|] eqn:Hs.
    - left. split; [done|by eexists].
    - right. unfold has_free_slot. rewrite (replacer_ok_room b f); [by eexists|done..|].
      intros [_ [? ?]]. congruence. }
  destruct (Pin_pins _ _ Hwf Hf1 Hcase) as [Hreg Hflag].
  split; rewrite ?Hr, ?Hpool.
  - rewrite <- (rk_max _ Hrk). unfold Pin.
    destruct (find_slot _ _); [done|]. by destruct (find_slot _ _).
  - apply slots_distinct_Pin; [done|by apply rk_distinct].
  - apply no_holes_Pin; [done|by apply rk_holes|done].
  - intros g Hg. destruct (decide (g = f)) as [->|Hne]; [by left|].
    destruct (rk_known _ Hrk g Hg) as [[Hg1 Hs]|Hin].
    + left. split; [done|].
      by destruct (Pin_other _ f g Hwf Hg1 Hne) as (-> & _).
    + destruct (Hfree g Hin); [done|by right].
  - intros g n Hn Hg. destruct (decide (g = f)) as [->|Hne].
    + rewrite Hflag. f_equal. symmetry. apply Z.ltb_lt. eauto.
    + destruct Hg as [Hg1 Hs].
      destruct (Pin_other _ f g Hwf Hg1 Hne) as (Hs' & -> & _).
      rewrite Hpins in Hn by done. apply (rk_mirror _ Hrk); [done|].
      split; [done|]. by rewrite <- Hs'.
Qed.

(** A call that takes the last pin off the resident frame [f]. *)
Lemma replacer_ok_Unpin b b' f :
  frames_ok b → replacer_ok b → registered (replacer_ b) f →
  pool_size_ b' = pool_size_ b → replacer_ b' = Unpin f (replacer_ b) →
  (∀ g, g ∈ free_list_ b → g ∈ free_list_ b') →
  (∀ g, g ≠ f → frame_pin_count (pages_ b') g = frame_pin_count (pages_ b) g) →
  (∀ n, frame_pin_count (pages_ b') f = Some n → n ≤ 0) →
  replacer_ok b'.
Proof.
  intros Hfo Hrk Hreg0 Hpool Hr Hfree Hpins Hpin.
  pose proof (fo_replacer _ Hfo) as Hwf.
  pose proof Hreg0 as [Hf1 _].
  destruct (Unpin_unpins _ _ Hwf Hreg0) as [Hreg Hflag].
  split; rewrite ?Hr, ?Hpool.
  - rewrite <- (rk_max _ Hrk). unfold Unpin.
    destruct (find_slot _ _) as [i|]; [by destruct (pinned_ _ !! i) as [[]|]|].
    by destruct (find_slot _ _).
  - apply slots_distinct_Unpin; [done|by apply rk_distinct].
  - apply no_holes_Unpin; [done|by apply rk_holes|done].
  - intros g Hg. destruct (decide (g = f)) as [->|Hne]; [by left|].
    destruct (rk_known _ Hrk g Hg) as [[Hg1 Hs]|Hin].
    + left. split; [done|].
      by destruct (Unpin_other _ f g Hwf Hg1 Hne) as (-> & _).
    + right. auto.
  - intros g n Hn Hg. destruct (decide (g = f)) as [->|Hne].
    + rewrite Hflag. f_equal. symmetry. apply Z.ltb_ge. eauto.
    + destruct Hg as [Hg1 Hs].
      destruct (Unpin_other _ f g Hwf Hg1 Hne) as (Hs' & -> & _).
      rewrite Hpins in Hn by done. apply (rk_mirror _ Hrk); [done|].
      split; [done|]. by rewrite <- Hs'.
Qed.

(** A call that evicts frame [f] and pins it for another page. *)
Lemma replacer_ok_evict fuel b b' f r1 :
  frames_ok b → replacer_ok b → free_list_ b = [] →
  Victim fuel (replacer_ b) = Done (Some f, r1) →
  pool_size_ b' = pool_size_ b → replacer_ b' = Pin f r1 →
  (∀ g, g ≠ f → frame_pin_count (pages_ b') g = frame_pin_count (pages_ b) g) →
  (∀ n, frame_pin_count (pages_ b') f = Some n → 0 < n) →
  replacer_ok b'.
Proof.
  intros Hfo Hrk Hfree Hv Hpool Hr Hpins Hpin.
  pose proof (fo_replacer _ Hfo) as Hwf.
  pose proof (wf_Pin f _ (wf_Victim _ _ _ _ Hwf Hv)) as Hwf'.
  destruct (Victim_then_Pin fuel (replacer_ b) f r1)
    as (i & Hi & Hp & Hids & Hpinned & Hsz & Hmax);
    [done|by apply rk_distinct|by apply rk_holes|by apply replacer_ok_full|done|].
  assert (f ≠ -1) as Hf1.
  { by apply Victim_Some_result in Hv as (? & _ & ? & _). }
  assert (∀ g, slot_of (replacer_ b') g = slot_of (replacer_ b) g) as Hslot.
  { intros g. rewrite Hr, !slot_of_full by done. by rewrite Hids. }
  split; rewrite ?Hpool.
  - rewrite Hr, Hmax. by apply rk_max.
  - intros j k g. rewrite Hr, Hids. by apply rk_distinct.
  - intros j. rewrite Hr, Hids, Hsz. by apply rk_holes.
  - intros g Hg. left. destruct (rk_known _ Hrk g Hg) as [[Hg1 Hs]|Hin].
    + split; [done|]. by rewrite Hslot.
    + rewrite Hfree in Hin. by apply elem_of_nil in Hin.
  - intros g n Hn [Hg1 Hs]. rewrite Hslot in Hs. destruct Hs as [j Hj].
    unfold pinned_flag. rewrite Hslot, Hj. simpl. rewrite Hr, Hpinned.
    destruct (decide (g = f)) as [->|Hne].
    + rewrite (slot_of_distinct _ _ _ Hwf (rk_distinct _ Hrk) Hf1 Hi) in Hj.
      injection Hj as <-. rewrite list_lookup_insert_eq.
      * f_equal. symmetry. apply Z.ltb_lt. eauto.
      * by eapply lookup_lt_Some.
    + assert (i ≠ j) as Hij.
      { intros ->. apply slot_of_lookup in Hj. congruence. }
      rewrite list_lookup_insert_ne by done. rewrite Hpins in Hn by done.
      pose proof (rk_mirror _ Hrk g n Hn) as Hm. unfold pinned_flag in Hm.
      rewrite Hj in Hm. apply Hm. split; [done|by eexists].
Qed.

End replacer_invariant.

Section replacer_invariant_calls.

Implicit Types b : BufferPoolManagerInstance.t.

Lemma FlushPgImp_pins p b x b' :
  FlushPgImp p b = Done (x, b') →
  ∀ g, frame_pin_count (pages_ b') g = frame_pin_count (pages_ b) g.
Proof.
  unfold FlushPgImp, get_page.
  destruct (page_table_ b !! p) as [f|]; [|by intros [= _ <-]].
  destruct (page_at (pages_ b) f) as [pg|] eqn:Hp; simpl; [|done].
  intros [= _ <-]. simpl. by apply (frame_pin_count_insert_same _ _ pg).
Qed.

Lemma replacer_ok_FlushPgImp p b x b' :
  replacer_ok b → FlushPgImp p b = Done (x, b') → replacer_ok b'.
Proof.
  intros Hrk H. pose proof (FlushPgImp_pins _ _ _ _ H) as Hpins.
  apply FlushPgImp_fields in H as (Hpool & _ & _ & _ & Hr & _ & Hfree & _).
  apply (replacer_ok_same b); [done..| |done]. intros f. by rewrite Hfree.
Qed.

Lemma replacer_ok_FlushAllPgsImp b b' :
  replacer_ok b → FlushAllPgsImp b = Done b' → replacer_ok b'.
Proof.
  intros Hrk H%write_entries_fields.
  destruct H as (Hpool & _ & _ & _ & Hpages & Hr & _ & Hfree & _).
  apply (replacer_ok_same b); [done..| |].
  - intros f. by rewrite Hfree.
  - intros f. by rewrite Hpages.
Qed.

Lemma replacer_ok_DeletePgImp p b x b' :
  pages_ok b → replacer_ok b → DeletePgImp p b = Done (x, b') → replacer_ok b'.
Proof.
  intros Hok Hrk. unfold DeletePgImp, get_page.
  destruct (page_table_ b !! p) as [f|] eqn:Ht.
  2: { intros [= _ <-]. by apply (replacer_ok_same b). }
  destruct (page_at (pages_ b) f) as [pg|] eqn:Hp; simpl; [|done].
  destruct (Z.ltb_spec 0 (pin_count_ pg)); [by intros [= _ <-]|].
  intros [= _ <-]. apply (replacer_ok_same b); [done..| |]; simpl.
  - intros g Hg. by right.
  - apply (frame_pin_count_insert_same _ _ pg); [done|]. simpl.
    pose proof (pk_pins _ Hok _ _ Hp). lia.
Qed.

(** The frame of a resident page is registered in the replacer. *)
Lemma resident_registered b p f :
  frames_ok b → pages_ok b → replacer_ok b →
  page_table_ b !! p = Some f → registered (replacer_ b) f.
Proof.
  intros Hfo Hok Hrk Ht.
  destruct (rk_known _ Hrk f (fo_table _ Hfo _ _ Ht)) as [|Hin]; [done|].
  by apply (pk_disjoint _ Hok _ _ Ht) in Hin.
Qed.

Lemma replacer_ok_UnpinPgImp p d b x b' :
  frames_ok b → pages_ok b → replacer_ok b →
  UnpinPgImp p d b = Done (x, b') → replacer_ok b'.
Proof.
  intros Hfo Hok Hrk. unfold UnpinPgImp, get_page.
  destruct (page_table_ b !! p) as [f|] eqn:Ht; [|by intros [= _ <-]].
  destruct (page_at (pages_ b) f) as [pg|] eqn:Hp; simpl; [|done].
  destruct (Z.ltb_spec 0 (pin_count_ pg)) as [Hpos|]; [|by intros [= _ <-]].
  pose proof (pk_pins _ Hok _ _ Hp) as Hpin.
  assert (pin_count_ pg - 1 = 0) as Hcnt by lia. rewrite Hcnt. simpl.
  intros [= _ <-]. pose proof (page_at_Some _ _ _ Hp) as [Hf _].
  apply (replacer_ok_Unpin b _ f); simpl; try done.
  - by eapply resident_registered.
  - intros g Hne. by apply frame_pin_count_insert_ne.
  - intros n. rewrite (frame_pin_count_insert_eq _ _ _ _ Hp). simpl.
    intros [= <-]. done.
Qed.

Lemma replacer_ok_install_fetched p f b1 b x b' :
  frames_ok b → replacer_ok b → 0 ≤ f < Z.of_nat (pool_size_ b) →
  pool_size_ b1 = pool_size_ b → pages_ b1 = pages_ b →
  (replacer_ b1 = replacer_ b ∧
   (∀ g, g ∈ free_list_ b → g = f ∨ g ∈ free_list_ b1) ∨
   free_list_ b = [] ∧
   ∃ fuel, Victim fuel (replacer_ b) = Done (Some f, replacer_ b1)) →
  install_fetched p f b1 = Done (x, b') → replacer_ok b'.
Proof.
  intros Hfo Hrk Hf Hpool Hpages Hcase.
  destruct (frames_ok_in_range b f Hfo Hf) as [pg Hp].
  rewrite (install_fetched_eq p f b1 pg) by (by rewrite Hpages).
  simpl. intros [= _ <-].
  assert (∀ g, g ≠ f →
          frame_pin_count (<[Z.to_nat f :=
             {| page_id_ := p; pin_count_ := 1; is_dirty_ := false;
                data_ := default zero_data
                  ((if is_dirty_ pg
                    then <[page_id_ pg := data_ pg]> (disk_manager_ b1)
                    else disk_manager_ b1) !! p) |}]> (pages_ b1)) g =
          frame_pin_count (pages_ b) g) as Hpins.
  { intros g Hne. rewrite Hpages. apply frame_pin_count_insert_ne; [lia|done]. }
  assert (∀ n, frame_pin_count (<[Z.to_nat f :=
             {| page_id_ := p; pin_count_ := 1; is_dirty_ := false;
                data_ := default zero_data
                  ((if is_dirty_ pg
                    then <[page_id_ pg := data_ pg]> (disk_manager_ b1)
                    else disk_manager_ b1) !! p) |}]> (pages_ b1)) f = Some n →
          0 < n) as Hpin.
  { intros n. rewrite Hpages, (frame_pin_count_insert_eq _ _ _ _ Hp). simpl.
    intros [= <-]. done. }
  destruct Hcase as [[Hr Hfree]|[Hfree [fuel Hv]]].
  - apply (replacer_ok_Pin b _ f); simpl; try done. by rewrite Hr.
  - apply (replacer_ok_evict fuel b _ f (replacer_ b1)); simpl; done.
Qed.

Lemma replacer_ok_FetchPgImp fuel p b x b' :
  frames_ok b → pages_ok b → replacer_ok b →
  FetchPgImp fuel p b = Done (x, b') → replacer_ok b'.
Proof.
  intros Hfo Hok Hrk. unfold FetchPgImp.
  destruct (page_table_ b !! p) as [f|] eqn:Ht.
  - unfold get_page. destruct (page_at (pages_ b) f) as [pg|] eqn:Hp; simpl; [|done].
    destruct (Z.ltb_spec 0 (pin_count_ pg)); [by intros [= _ <-]|].
    intros [= _ <-]. pose proof (page_at_Some _ _ _ Hp) as [Hf _].
    apply (replacer_ok_Pin b _ f); simpl; try done.
    + by apply (fo_table _ Hfo p).
    + intros g Hg. by right.
    + intros g Hne. by apply frame_pin_count_insert_ne.
    + intros n. rewrite (frame_pin_count_insert_eq _ _ _ _ Hp). simpl.
      intros [= <-]. pose proof (pk_pins _ Hok _ _ Hp). lia.
  - unfold pop_free. destruct (free_list_ b) as [|f rest] eqn:Hfl.
    + simpl.
      destruct (Victim fuel (replacer_ b)) as [[v r]| |] eqn:Hv; simpl; [|done..].
      destruct v as [f|].
      * pose proof (frames_ok_Victim _ _ _ _ Hfo Hv) as (_ & _ & Hrange).
        apply (replacer_ok_install_fetched p f _ b); try done.
        -- by apply Hrange.
        -- right. split; [done|]. by exists fuel.
      * intros [= _ <-].
        pose proof (frames_ok_Victim _ _ _ _ Hfo Hv) as (_ & Hn & _).
        apply (replacer_ok_same b); simpl; try done. by apply Hn.
    + pose proof (fo_free _ Hfo f) as Hf. rewrite Hfl in Hf.
      specialize (Hf ltac:(by left)).
      destruct (Z.eqb_spec f (-1)); [lia|].
      apply (replacer_ok_install_fetched p f _ b); try done.
      left. split; [done|]. simpl. intros g Hg. rewrite Hfl in Hg.
      apply elem_of_cons in Hg as [->|Hg]; [by left|by right].
Qed.

Lemma replacer_ok_install_new f b1 b x b' :
  frames_ok b → replacer_ok b → 0 ≤ f < Z.of_nat (pool_size_ b) →
  pool_size_ b1 = pool_size_ b →
  (∀ g, frame_pin_count (pages_ b1) g = frame_pin_count (pages_ b) g) →
  (replacer_ b1 = replacer_ b ∧
   (∀ g, g ∈ free_list_ b → g = f ∨ g ∈ free_list_ b1) ∨
   free_list_ b = [] ∧
   ∃ fuel, Victim fuel (replacer_ b) = Done (Some f, replacer_ b1)) →
  install_new f b1 = Done (x, b') → replacer_ok b'.
Proof.
  intros Hfo Hrk Hf Hpool Hpages Hcase.
  destruct (frames_ok_in_range b f Hfo Hf) as [pg Hp].
  assert (∃ pg1, page_at (pages_ b1) f = Some pg1) as [pg1 Hp1].
  { pose proof (Hpages f) as H. unfold frame_pin_count in H. rewrite Hp in H.
    destruct (page_at (pages_ b1) f); [by eexists|done]. }
  unfold install_new.
  destruct (AllocatePage b1) as [[id b2]| |] eqn:Ha; simpl; [|done..].
  apply AllocatePage_Done in Ha as [-> ->].
  unfold get_page. simpl. rewrite Hp1. simpl. intros [= _ <-].
  assert (∀ g, g ≠ f →
          frame_pin_count (<[Z.to_nat f :=
             {| page_id_ := next_page_id_ b1; pin_count_ := 1;
                is_dirty_ := true; data_ := zero_data |}]> (pages_ b1)) g =
          frame_pin_count (pages_ b) g) as Hpins.
  { intros g Hne. rewrite <- Hpages. apply frame_pin_count_insert_ne; [lia|done]. }
  assert (∀ n, frame_pin_count (<[Z.to_nat f :=
             {| page_id_ := next_page_id_ b1; pin_count_ := 1;
                is_dirty_ := true; data_ := zero_data |}]> (pages_ b1)) f = Some n →
          0 < n) as Hpin.
  { intros n. rewrite (frame_pin_count_insert_eq _ _ _ _ Hp1). simpl.
    intros [= <-]. done. }
  destruct Hcase as [[Hr Hfree]|[Hfree [fuel Hv]]].
  - apply (replacer_ok_Pin b _ f); simpl; try done. by rewrite Hr.
  - apply (replacer_ok_evict fuel b _ f (replacer_ b1)); simpl; done.
Qed.

Lemma replacer_ok_NewPgImp fuel b x b' :
  frames_ok b → pages_ok b → replacer_ok b →
  NewPgImp fuel b = Done (x, b') → replacer_ok b'.
Proof.
  intros Hfo Hok Hrk. unfold NewPgImp.
  destruct (all_pinned b); [by intros [= _ <-]|].
  unfold pop_free. destruct (free_list_ b) as [|f rest] eqn:Hfl.
  - simpl.
    destruct (Victim fuel (replacer_ b)) as [[v r]| |] eqn:Hv; simpl; [|done..].
    destruct v as [f|].
    2: { intros [= _ <-].
         pose proof (frames_ok_Victim _ _ _ _ Hfo Hv) as (_ & Hn & _).
         apply (replacer_ok_same b); simpl; try done. by apply Hn. }
    pose proof (frames_ok_Victim _ _ _ _ Hfo Hv) as (_ & _ & Hrange).
    set (b2 := set_replacer r b).
    destruct (get_page b2 f) as [pg| |] eqn:Hpg; simpl; [|done..].
    destruct (if is_dirty_ pg then _ else _) as [[y b3]| |] eqn:Hflush; simpl; [|done..].
    assert (pool_size_ b3 = pool_size_ b ∧ replacer_ b3 = r ∧
            ∀ g, frame_pin_count (pages_ b3) g = frame_pin_count (pages_ b) g)
      as (Hpool3 & Hr3 & Hpins3).
    { destruct (is_dirty_ pg).
      - pose proof (FlushPgImp_pins _ _ _ _ Hflush) as Hpins.
        apply FlushPgImp_fields in Hflush as (? & _ & _ & _ & ? & _). done.
      - by injection Hflush as _ <-. }
    destruct (get_page b3 f) as [pg'| |] eqn:Hpg'; simpl; [|done..].
    apply (replacer_ok_install_new f _ b); try done.
    + by apply Hrange.
    + right. split; [done|]. exists fuel. simpl. by rewrite Hr3.
  - pose proof (fo_free _ Hfo f) as Hf. rewrite Hfl in Hf.
    specialize (Hf ltac:(by left)).
    destruct (Z.eqb_spec f (-1)); [lia|].
    apply (replacer_ok_install_new f _ b); try done.
    left. split; [done|]. simpl. intros g Hg. rewrite Hfl in Hg.
    apply elem_of_cons in Hg as [->|Hg]; [by left|by right].
Qed.

Lemma replacer_ok_serve fuel q b b' :
  frames_ok b → pages_ok b → replacer_ok b →
  serve fuel q b = Done b' → replacer_ok b'.
Proof.
  intros Hfo Hok Hrk. destruct q as [|p|p d|p| |p]; simpl.
  - destruct (NewPgImp fuel b) as [[x b1]| |] eqn:E; [|done..].
    intros [= <-]. by eapply replacer_ok_NewPgImp.
  - destruct (FetchPgImp fuel p b) as [[x b1]| |] eqn:E; [|done..].
    intros [= <-]. by eapply replacer_ok_FetchPgImp.
  - destruct (UnpinPgImp p d b) as [[x b1]| |] eqn:E; [|done..].
    intros [= <-]. by eapply replacer_ok_UnpinPgImp.
  - destruct (FlushPgImp p b) as [[x b1]| |] eqn:E; [|done..].
    intros [= <-]. by eapply replacer_ok_FlushPgImp.
  - by apply replacer_ok_FlushAllPgsImp.
  - destruct (DeletePgImp p b) as [[x b1]| |] eqn:E; [|done..].
    intros [= <-]. by eapply replacer_ok_DeletePgImp.
Qed.

Lemma reachable_replacer_ok b : reachable b → replacer_ok b.
Proof.
  induction 1 as [| fuel q b b' Hb IH Hserve]; [by eapply replacer_ok_new|].
  eapply replacer_ok_serve; [| |done..].
  - by apply reachable_frames_ok.
  - by apply reachable_pages_ok.
Qed.

End replacer_invariant_calls.

Section pool_calls.

Implicit Types b : BufferPoolManagerInstance.t.

Lemma forallb_lookup {A} (t : A → bool) (l : list A) :
  forallb t l = true ↔ ∀ i x, l !! i = Some x → t x = true.
Proof.
  induction l as [|y l IH]; simpl.
  - split; [by intros _ i x|done].
  - rewrite andb_true_iff, IH. split.
    + intros [Hy Hl] [|i] x; simpl; [by intros [= <-]|by apply Hl].
    + intros H. split; [by apply (H 0%nat)|]. intros i x. by apply (H (S i)).
Qed.

Lemma forallb_false_lookup {A} (t : A → bool) (l : list A) :
  forallb t l = false → ∃ i x, l !! i = Some x ∧ t x = false.
Proof.
  induction l as [|y l IH]; simpl; [done|].
  destruct (t y) eqn:Hy; simpl.
  - intros (i & x & ? & ?)%IH. by exists (S i), x.
  - intros _. by exists 0%nat, y.
Qed.

(** The first loop of [NewPgImp] finds every frame pinned. *)
Lemma all_pinned_true b :
  frames_ok b →
  all_pinned b = true ↔
  ∀ f n, frame_pin_count (pages_ b) f = Some n → 0 < n.
Proof.
  intros Hfo. unfold all_pinned.
  rewrite take_ge by (by rewrite (fo_pages _ Hfo)). rewrite forallb_lookup. split.
  - intros H f n Hn. unfold frame_pin_count in Hn.
    destruct (page_at (pages_ b) f) as [pg|] eqn:Hp; [|done]. injection Hn as <-.
    apply page_at_Some in Hp as [_ Hp]. apply H in Hp.
    apply negb_true_iff, Z.leb_gt in Hp. done.
  - intros H i pg Hi. apply negb_true_iff, Z.leb_gt.
    apply (H (Z.of_nat i)). unfold frame_pin_count, page_at.
    destruct (Z.ltb_spec (Z.of_nat i) 0); [lia|]. by rewrite Nat2Z.id, Hi.
Qed.

Lemma all_pinned_false b :
  all_pinned b = false →
  ∃ f n, frame_pin_count (pages_ b) f = Some n ∧ n ≤ 0.
Proof.
  unfold all_pinned. intros (i & pg & Hi & Hp)%forallb_false_lookup.
  apply lookup_take_Some in Hi as [Hi _].
  apply negb_false_iff, Z.leb_le in Hp.
  exists (Z.of_nat i), (pin_count_ pg). split; [|done].
  unfold frame_pin_count, page_at.
  destruct (Z.ltb_spec (Z.of_nat i) 0); [lia|]. by rewrite Nat2Z.id, Hi.
Qed.

(** What [Victim] answers to the pool. *)
Lemma pool_Victim b fuel :
  frames_ok b → pages_ok b → replacer_ok b →
  (2 * pool_size_ b ≤ fuel)%nat →
  (∃ f r', Victim fuel (replacer_ b) = Done (Some f, r') ∧
           0 ≤ f < Z.of_nat (pool_size_ b) ∧ registered (replacer_ b) f ∧
           frame_pin_count (pages_ b) f = Some 0) ∨
  (Victim fuel (replacer_ b) = Done (None, replacer_ b) ∧
   ∀ f n, registered (replacer_ b) f →
          frame_pin_count (pages_ b) f = Some n → 0 < n).
Proof.
  intros Hfo Hok Hrk Hfuel. pose proof (fo_replacer _ Hfo) as Hwf.
  destruct (Size (replacer_ b)) as [|k] eqn:Hsize.
  - right. split; [apply Victim_all_pinned; [done..|by apply rk_holes]|].
    intros f n [Hf [i Hi]] Hn.
    pose proof (rk_mirror _ Hrk f n Hn ltac:(split; [done|by eexists])) as Hm.
    destruct (Z.ltb_spec 0 n); [done|exfalso].
    unfold pinned_flag in Hm. rewrite Hi in Hm. simpl in Hm.
    pose proof (Size_pos _ i f Hwf (slot_of_lookup _ _ _ Hi) Hf Hm). lia.
  - left.
    destruct (Victim_returns_evictable (replacer_ b) fuel)
      as (f & r' & i & Hv & Hi & Hf & Hp & _); [done|lia| |].
    { pose proof (wf_size _ Hwf). rewrite (rk_max _ Hrk) in *. lia. }
    exists f, r'. split; [done|].
    pose proof (fo_slots _ Hfo _ _ Hi Hf) as Hrange.
    pose proof (slot_of_distinct _ _ _ Hwf (rk_distinct _ Hrk) Hf Hi) as Hs.
    assert (registered (replacer_ b) f) as Hreg by (split; [done|by eexists]).
    split_and!; [lia|lia|done|].
    destruct (frames_ok_in_range b f Hfo Hrange) as [pg Hpg].
    unfold frame_pin_count. rewrite Hpg. simpl. f_equal.
    pose proof (rk_mirror _ Hrk f (pin_count_ pg)) as Hm.
    unfold frame_pin_count in Hm. rewrite Hpg in Hm.
    specialize (Hm eq_refl Hreg). unfold pinned_flag in Hm. rewrite Hs in Hm.
    simpl in Hm. rewrite Hp in Hm. injection Hm as Hm. symmetry in Hm.
    apply Z.ltb_ge in Hm. pose proof (pk_pins _ Hok _ _ Hpg). lia.
Qed.

(** With an empty free list and a frame that is not pinned, [Victim] gives
    a frame. *)
Lemma pool_Victim_Some b fuel :
  frames_ok b → pages_ok b → replacer_ok b →
  (2 * pool_size_ b ≤ fuel)%nat →
  free_list_ b = [] → all_pinned b = false →
  ∃ f r', Victim fuel (replacer_ b) = Done (Some f, r') ∧
          0 ≤ f < Z.of_nat (pool_size_ b) ∧
          frame_pin_count (pages_ b) f = Some 0.
Proof.
  intros Hfo Hok Hrk Hfuel Hfree Hall.
  destruct (pool_Victim b fuel) as [(f & r' & ? & ? & _ & ?)|[_ Hpinned]];
    [done..|by exists f, r'|exfalso].
  apply all_pinned_false in Hall as (g & n & Hn & Hle).
  assert (0 ≤ g < Z.of_nat (pool_size_ b)) as Hg.
  { unfold frame_pin_count in Hn.
    destruct (page_at (pages_ b) g) as [pg|] eqn:Hp; [|done].
    apply page_at_lt in Hp. by rewrite (fo_pages _ Hfo) in Hp. }
  destruct (rk_known _ Hrk g Hg) as [Hreg|Hin].
  - pose proof (Hpinned g n Hreg Hn). lia.
  - rewrite Hfree in Hin. by apply elem_of_nil in Hin.
Qed.

(** With every frame pinned, the free list is empty and [Victim] gives
    none. *)
Lemma pool_Victim_None b fuel :
  frames_ok b → pages_ok b → replacer_ok b →
  (2 * pool_size_ b ≤ fuel)%nat → all_pinned b = true →
  free_list_ b = [] ∧ Victim fuel (replacer_ b) = Done (None, replacer_ b).
Proof.
  intros Hfo Hok Hrk Hfuel Hall.
  pose proof (proj1 (all_pinned_true b Hfo) Hall) as Hpins. split.
  - destruct (free_list_ b) as [|f rest] eqn:Hfl; [done|exfalso].
    destruct (pk_free _ Hok f) as (pg & Hp & _ & Hpin & _); [rewrite Hfl; by left|].
    pose proof (Hpins f 0) as H. unfold frame_pin_count in H. rewrite Hp in H.
    simpl in H. rewrite Hpin in H. specialize (H eq_refl). lia.
  - destruct (pool_Victim b fuel) as [(f & r' & _ & _ & _ & Hn)|[? _]];
      [done..| |done].
    apply Hpins in Hn. lia.
Qed.

Lemma set_replacer_same b : set_replacer (replacer_ b) b = b.
Proof. by destruct b. Qed.

End pool_calls.

Section pool_progress.

Implicit Types b : BufferPoolManagerInstance.t.

Lemma FlushPgImp_Done p b :
  frames_ok b → ∃ x b', FlushPgImp p b = Done (x, b').
Proof.
  intros Hfo. unfold FlushPgImp, get_page.
  destruct (page_table_ b !! p) as [f|] eqn:Ht; [|by eexists _, _].
  destruct (frames_ok_in_range b f Hfo (fo_table _ Hfo _ _ Ht)) as [pg ->].
  simpl. by eexists _, _.
Qed.

(** [FlushPgImp] writes the data of the frame of the page. *)
Lemma FlushPgImp_disk p b x b' f pg :
  FlushPgImp p b = Done (x, b') →
  page_table_ b !! p = Some f → page_at (pages_ b) f = Some pg →
  x = true ∧ disk_manager_ b' = <[p := data_ pg]> (disk_manager_ b) ∧
  pages_ b' = <[Z.to_nat f := {| page_id_ := page_id_ pg;
                                 pin_count_ := pin_count_ pg;
                                 is_dirty_ := false; data_ := data_ pg |}]> (pages_ b).
Proof.
  unfold FlushPgImp, get_page. intros H Ht Hp. rewrite Ht, Hp in H. simpl in H.
  by injection H as <- <-.
Qed.

Lemma write_entries_Done es b :
  frames_ok b → (∀ p f, (p, f) ∈ es → page_table_ b !! p = Some f) →
  ∃ b', write_entries es b = Done b'.
Proof.
  intros Hfo. revert b Hfo. induction es as [|[p f] es IH]; intros b Hfo Hes; simpl.
  - by eexists.
  - assert (page_table_ b !! p = Some f) as Ht by (apply Hes; by left).
    unfold get_page.
    destruct (frames_ok_in_range b f Hfo (fo_table _ Hfo _ _ Ht)) as [pg ->].
    simpl. apply IH.
    + by destruct Hfo.
    + intros q g Hq. simpl. apply Hes. by right.
Qed.

Lemma FlushAllPgsImp_Done b : frames_ok b → ∃ b', FlushAllPgsImp b = Done b'.
Proof.
  intros Hfo. apply write_entries_Done; [done|].
  intros p f. by rewrite elem_of_map_to_list.
Qed.



Lemma install_new_Abort f b :
  ValidatePageId (next_page_id_ b) b = false → install_new f b = Abort.
Proof.
  intros Hv. unfold install_new, AllocatePage.
  change (ValidatePageId (next_page_id_ b)
            (set_next_page_id (wrap32 (next_page_id_ b + num_instances_ b)) b))
    with (ValidatePageId (next_page_id_ b) b).
  by rewrite Hv.
Qed.

(** Up to the call of [AllocatePage], a [NewPgImp] that finds a frame
    without pins chooses a frame [f] whose pin count is 0, writes its page
    when it is resident and dirty, and erases the entry of its page. *)
Lemma NewPgImp_chooses b fuel :
  frames_ok b → pages_ok b → replacer_ok b →
  (2 * pool_size_ b ≤ fuel)%nat → all_pinned b = false →
  ∃ f b1 pg1,
    NewPgImp fuel b = install_new f b1 ∧
    0 ≤ f < Z.of_nat (pool_size_ b) ∧
    frame_pin_count (pages_ b) f = Some 0 ∧
    page_at (pages_ b1) f = Some pg1 ∧
    next_page_id_ b1 = next_page_id_ b ∧ num_instances_ b1 = num_instances_ b ∧
    instance_index_ b1 = instance_index_ b ∧
    (∀ g, frame_page_id (pages_ b1) g = frame_page_id (pages_ b) g ∧
          frame_pin_count (pages_ b1) g = frame_pin_count (pages_ b) g) ∧
    (∀ q, page_table_ b !! q = Some f → page_table_ b1 !! q = None) ∧
    (∀ q pg, page_table_ b !! q = Some f → page_at (pages_ b) f = Some pg →
             is_dirty_ pg = true → disk_manager_ b1 !! q = Some (data_ pg)).
Proof.
  intros Hfo Hok Hrk Hfuel Hall. unfold NewPgImp. rewrite Hall.
  unfold pop_free. destruct (free_list_ b) as [|f rest] eqn:Hfl.
  - destruct (pool_Victim_Some b fuel) as (f & r1 & Hv & Hf & Hpin); [done..|].
    simpl. rewrite Hv. simpl.
    destruct (frames_ok_in_range b f Hfo Hf) as [pg Hp].
    assert (get_page (set_replacer r1 b) f = Done pg) as ->.
    { unfold get_page. simpl. by rewrite Hp. }
    simpl. set (b2 := set_replacer r1 b).
    assert (frames_ok b2) as Hfo2.
    { by apply (frames_ok_Victim fuel b (Some f) r1). }
    assert (∃ y b3, (if is_dirty_ pg then FlushPgImp (page_id_ pg) b2
                     else Done (false, b2)) = Done (y, b3) ∧
            next_page_id_ b3 = next_page_id_ b ∧
            num_instances_ b3 = num_instances_ b ∧
            instance_index_ b3 = instance_index_ b ∧
            page_table_ b3 = page_table_ b ∧
            (∀ g, frame_page_id (pages_ b3) g = frame_page_id (pages_ b) g ∧
                  frame_pin_count (pages_ b3) g = frame_pin_count (pages_ b) g) ∧
            (∀ q pg0, page_table_ b !! q = Some f →
                      page_at (pages_ b) f = Some pg0 → is_dirty_ pg0 = true →
                      disk_manager_ b3 !! q = Some (data_ pg0)))
      as (y & b3 & -> & Hn3 & Hi3 & Hx3 & Ht3 & Hpg3 & Hdisk3).
    { destruct (is_dirty_ pg) eqn:Hd.
      - destruct (FlushPgImp_Done (page_id_ pg) b2 Hfo2) as (y & b3 & Hflush).
        exists y, b3. split; [done|].
        pose proof (FlushPgImp_pins _ _ _ _ Hflush) as Hpins.
        pose proof (FlushPgImp_fields _ _ _ _ Hflush)
          as (_ & ? & ? & ? & _ & ? & _ & _ & Hids).
        split_and!; try done.
        intros q pg0 Hq Hp0 _. rewrite Hp in Hp0. injection Hp0 as <-.
        pose proof (pk_table _ Hok _ _ Hq) as Hid. unfold frame_page_id in Hid.
        rewrite Hp in Hid. injection Hid as Hid. rewrite Hid in Hflush.
        destruct (FlushPgImp_disk q b2 y b3 f pg Hflush Hq Hp) as (_ & -> & _).
        apply lookup_insert_eq.
      - exists false, b2. split_and!; try done.
        intros q pg0 _ Hp0 Hd0. congruence. }
    simpl.
    assert (∃ pg', page_at (pages_ b3) f = Some pg' ∧ page_id_ pg' = page_id_ pg)
      as (pg' & Hp' & Hid').
    { destruct (Hpg3 f) as [H _]. unfold frame_page_id in H. rewrite Hp in H.
      destruct (page_at (pages_ b3) f) as [pg'|]; [|done].
      exists pg'. split; [done|]. by injection H. }
    assert (get_page b3 f = Done pg') as ->.
    { unfold get_page. by rewrite Hp'. }
    simpl. eexists f, _, pg'. split; [reflexivity|]. simpl.
    split; [done|]. split_and!; try done.
    intros q Hq. rewrite Ht3, Hid'.
    pose proof (pk_table _ Hok _ _ Hq) as Hid. unfold frame_page_id in Hid.
    rewrite Hp in Hid. injection Hid as ->. apply lookup_delete_eq.
  - assert (f ∈ free_list_ b) as Hin by (rewrite Hfl; by left).
    pose proof (fo_free _ Hfo f Hin) as Hf.
    destruct (pk_free _ Hok f Hin) as (pg & Hp & _ & Hpin & Hd).
    destruct (Z.eqb_spec f (-1)); [lia|].
    eexists f, _, pg. split; [reflexivity|]. simpl. split; [done|].
    split_and!; try done.
    + unfold frame_pin_count. by rewrite Hp, <- Hpin.
    + intros q Hq. by apply (pk_disjoint _ Hok) in Hq.
    + intros q pg0 Hq. by apply (pk_disjoint _ Hok) in Hq.
Qed.

(** [FetchPgImp] of a page that is not resident, when a frame is without
    pins: the same choice, then the tail of the call. *)
Lemma FetchPgImp_chooses b fuel p :
  frames_ok b → pages_ok b → replacer_ok b →
  (2 * pool_size_ b ≤ fuel)%nat →
  page_table_ b !! p = None → all_pinned b = false →
  ∃ f b1 pg,
    FetchPgImp fuel p b = install_fetched p f b1 ∧
    0 ≤ f < Z.of_nat (pool_size_ b) ∧
    page_at (pages_ b) f = Some pg ∧ pin_count_ pg = 0 ∧
    pages_ b1 = pages_ b ∧ page_table_ b1 = page_table_ b ∧
    disk_manager_ b1 = disk_manager_ b.
Proof.
  intros Hfo Hok Hrk Hfuel Ht Hall.
  destruct (free_list_ b) as [|f rest] eqn:Hfl.
  - destruct (pool_Victim_Some b fuel) as (f & r1 & Hv & Hf & Hpin); [done..|].
    destruct (frames_ok_in_range b f Hfo Hf) as [pg Hp].
    exists f, (set_replacer r1 b), pg.
    split; [by apply FetchPgImp_miss_victim|]. split; [done|]. split_and!; try done.
    unfold frame_pin_count in Hpin. rewrite Hp in Hpin. by injection Hpin.
  - assert (f ∈ free_list_ b) as Hin by (rewrite Hfl; by left).
    pose proof (fo_free _ Hfo f Hin) as Hf.
    destruct (pk_free _ Hok f Hin) as (pg & Hp & _ & Hpin & Hd).
    exists f, (set_free_list rest b), pg.
    split; [apply FetchPgImp_miss_free; [done..|lia]|]. split; [done|]. by split_and!.
Qed.


End pool_progress.

(** X6. In every state reached from a fresh instance, whatever the requests,
    the free list holds no frame twice; a frame on the free list holds no
    page, has pin count 0, is clean and is the frame of no page table entry;
    the frame of a page table entry holds the page of the entry, so no two
    entries share a frame; and every pin count is 0 or 1. *)
Theorem reachable_pool_consistent (b : BufferPoolManagerInstance.t) :
  reachable b →
  NoDup (free_list_ b) ∧
  (∀ f, f ∈ free_list_ b →
     ∃ pg, page_at (pages_ b) f = Some pg ∧ page_id_ pg = INVALID_PAGE_ID ∧
           pin_count_ pg = 0 ∧ is_dirty_ pg = false ∧
           ∀ p, page_table_ b !! p ≠ Some f) ∧
  (∀ p f, page_table_ b !! p = Some f → frame_page_id (pages_ b) f = Some p) ∧
  (∀ p q f, page_table_ b !! p = Some f → page_table_ b !! q = Some f → p = q) ∧
  (∀ f pg, page_at (pages_ b) f = Some pg → pin_count_ pg = 0 ∨ pin_count_ pg = 1).
Proof.
  intros Hok%reachable_pages_ok. split_and!.
  - by apply pk_nodup.
  - intros f Hin. destruct (pk_free _ Hok f Hin) as (pg & ? & ? & ? & ?).
    exists pg. split_and!; try done.
    intros p Hp. by apply (pk_disjoint _ Hok) in Hp.
  - by apply pk_table.
  - intros p q f. by apply pages_ok_inj.
  - intros f pg Hp. pose proof (pk_pins _ Hok _ _ Hp). lia.
Qed.

Lemma reachable_pool_consistent_witness :
  ∃ b0 b,
    BufferPoolManagerInstance.new 2 1 0 ∅ = Done b0 ∧
    serves 4 [NewPage; FetchPage 0; FetchPage 7; DeletePage 7] b0 = Done b ∧
    ∀ f pg, page_at (pages_ b) f = Some pg → pin_count_ pg = 0 ∨ pin_count_ pg = 1.
Proof.
  eexists _, _. split; [reflexivity|]. split; [vm_compute; reflexivity|].
  apply reachable_pool_consistent.
  eapply (reachable_serves 4 [NewPage; FetchPage 0; FetchPage 7; DeletePage 7]).
  - by eapply (reachable_new 2 1 0 ∅).
  - vm_compute. reflexivity.
Defined.





Section flush_all.

Implicit Types b : BufferPoolManagerInstance.t.

Lemma write_entries_disk es b b' :
  write_entries es b = Done b' → NoDup es.*1 →
  (∀ p f pg, (p, f) ∈ es → page_at (pages_ b) f = Some pg →
             disk_manager_ b' !! p = Some (data_ pg)) ∧
  (∀ p, p ∉ es.*1 → disk_manager_ b' !! p = disk_manager_ b !! p).
Proof.
  revert b. induction es as [|[p f] es IH]; intros b; simpl.
  - intros [= <-] _. split; [|done]. by intros p f pg ?%elem_of_nil.
  - unfold get_page. destruct (page_at (pages_ b) f) as [pg|] eqn:Hp; simpl; [|done].
    intros Hw [Hnin Hnd]%NoDup_cons.
    destruct (IH _ Hw Hnd) as [Hin Hout]. simpl in Hin, Hout. split.
    + intros q g pg0 [[= -> ->]|Hq]%elem_of_cons Hg; [|by eapply Hin].
      rewrite Hout by done. rewrite Hp in Hg. injection Hg as <-.
      apply lookup_insert_eq.
    + intros q [Hne Hq]%not_elem_of_cons. rewrite Hout by done.
      by apply lookup_insert_ne.
Qed.

End flush_all.

(** X9. [NewPgImp] in a reachable state, with fuel for two turns of the
    clock. When every frame is pinned it returns no page and changes
    nothing. Otherwise it reaches [AllocatePage]: when the assertion of
    [ValidatePageId] fails the process stops; when it holds, the call
    returns the id [next_page_id_] and a frame whose pin count was 0, which
    now holds the new page, zeroed, dirty and pinned once; the page table
    maps the id to the frame, the counter advanced by [num_instances_]
    (wrapping), the other frames keep page id and pin count, the entry of
    the page that was in the frame is erased, and that page was written to
    disk if it was dirty. *)
Theorem NewPgImp_in_reachable_pool (b : BufferPoolManagerInstance.t) (fuel : nat) :
  reachable b → (2 * pool_size_ b ≤ fuel)%nat →
  (all_pinned b = true → NewPgImp fuel b = Done (None, b)) ∧
  (all_pinned b = false → ValidatePageId (next_page_id_ b) b = false →
   NewPgImp fuel b = Abort) ∧
  (all_pinned b = false → ValidatePageId (next_page_id_ b) b = true →
   ∃ f b',
     NewPgImp fuel b = Done (Some (f, next_page_id_ b), b') ∧
     frame_pin_count (pages_ b) f = Some 0 ∧
     page_at (pages_ b') f =
       Some {| page_id_ := next_page_id_ b; pin_count_ := 1;
               is_dirty_ := true; data_ := zero_data |} ∧
     page_table_ b' !! next_page_id_ b = Some f ∧
     next_page_id_ b' = wrap32 (next_page_id_ b + num_instances_ b) ∧
     (∀ g, g ≠ f →
        frame_page_id (pages_ b') g = frame_page_id (pages_ b) g ∧
        frame_pin_count (pages_ b') g = frame_pin_count (pages_ b) g) ∧
     (∀ q, page_table_ b !! q = Some f → q ≠ next_page_id_ b →
        page_table_ b' !! q = None) ∧
     (∀ q pg, page_table_ b !! q = Some f → page_at (pages_ b) f = Some pg →
        is_dirty_ pg = true → disk_manager_ b' !! q = Some (data_ pg))).
Proof.
  intros Hb Hfuel.
  pose proof (reachable_frames_ok b Hb) as Hfo.
  pose proof (reachable_pages_ok b Hb) as Hok.
  pose proof (reachable_replacer_ok b Hb) as Hrk.
  split; [|split].
  - intros Hall. unfold NewPgImp. by rewrite Hall.
  - intros Hall Hval.
    destruct (NewPgImp_chooses b fuel Hfo Hok Hrk Hfuel Hall)
      as (f & b1 & pg1 & -> & _ & _ & _ & Hn & Hi & Hx & _).
    apply install_new_Abort. unfold ValidatePageId in *. by rewrite Hn, Hi, Hx.
  - intros Hall Hval.
    destruct (NewPgImp_chooses b fuel Hfo Hok Hrk Hfuel Hall)
      as (f & b1 & pg1 & -> & Hf & Hpin & Hp1 & Hn & Hi & Hx & Hpg & Ht & Hd).
    rewrite (install_new_eq f b1 pg1 Hp1)
      by (unfold ValidatePageId in *; by rewrite Hn, Hi, Hx).
    eexists f, _. split; [by rewrite Hn|]. simpl. split_and!.
    + done.
    + rewrite ?Hn. by apply (page_at_insert_eq _ _ pg1).
    + rewrite ?Hn. apply lookup_insert_eq.
    + by rewrite ?Hn, ?Hi.
    + intros g Hne. destruct (Hpg g) as [<- <-]. split.
      * apply (frame_page_id_insert_ne _ _ _ pg1); done.
      * apply frame_pin_count_insert_ne; [lia|done].
    + intros q Hq Hne. rewrite lookup_insert_ne by (by rewrite ?Hn). by apply Ht.
    + done.
Qed.

Lemma NewPgImp_in_reachable_pool_witness :
  ∃ b0 b,
    BufferPoolManagerInstance.new 1 1 0 ∅ = Done b0 ∧
    serves 2 [NewPage; UnpinPage 0 true] b0 = Done b ∧
    ∃ f b',
      NewPgImp 2 b = Done (Some (f, next_page_id_ b), b') ∧
      frame_pin_count (pages_ b) f = Some 0 ∧
      page_at (pages_ b') f =
        Some {| page_id_ := next_page_id_ b; pin_count_ := 1;
                is_dirty_ := true; data_ := zero_data |} ∧
      page_table_ b' !! next_page_id_ b = Some f ∧
      next_page_id_ b' = wrap32 (next_page_id_ b + num_instances_ b) ∧
      (∀ g, g ≠ f →
         frame_page_id (pages_ b') g = frame_page_id (pages_ b) g ∧
         frame_pin_count (pages_ b') g = frame_pin_count (pages_ b) g) ∧
      (∀ q, page_table_ b !! q = Some f → q ≠ next_page_id_ b →
         page_table_ b' !! q = None) ∧
      (∀ q pg, page_table_ b !! q = Some f → page_at (pages_ b) f = Some pg →
         is_dirty_ pg = true → disk_manager_ b' !! q = Some (data_ pg)).
Proof.
  eexists _, _. split; [reflexivity|]. split; [vm_compute; reflexivity|].
  refine (proj2 (proj2 (NewPgImp_in_reachable_pool _ 2 _ _)) _ _).
  - eapply (reachable_serves 2 [NewPage; UnpinPage 0 true]).
    + by eapply (reachable_new 1 1 0 ∅).
    + vm_compute. reflexivity.
  - apply Nat.leb_le. reflexivity.
  - vm_compute. reflexivity.
  - vm_compute. reflexivity.
Defined.

(** X10. [FetchPgImp] of a page that is not resident, in a reachable state
    with fuel for two turns of the clock. When every frame is pinned it
    returns no page and changes nothing. Otherwise it returns a frame whose
    pin count was 0: the page that was in it is written to disk if it was
    dirty and its entry is erased; the frame holds the requested page,
    clean, pinned once, with the bytes read from disk; the page table maps
    the page to the frame; and the other frames are untouched. *)
Theorem FetchPgImp_miss_in_reachable_pool
    (b : BufferPoolManagerInstance.t) (fuel : nat) (p : Z) :
  reachable b → (2 * pool_size_ b ≤ fuel)%nat →
  page_table_ b !! p = None →
  (all_pinned b = true → FetchPgImp fuel p b = Done (None, b)) ∧
  (all_pinned b = false →
   ∃ f b' pg,
     FetchPgImp fuel p b = Done (Some f, b') ∧
     page_at (pages_ b) f = Some pg ∧ pin_count_ pg = 0 ∧
     disk_manager_ b' =
       (if is_dirty_ pg then <[page_id_ pg := data_ pg]> (disk_manager_ b)
        else disk_manager_ b) ∧
     page_at (pages_ b') f =
       Some {| page_id_ := p; pin_count_ := 1; is_dirty_ := false;
               data_ := ReadPage p b' |} ∧
     page_table_ b' = <[p := f]> (delete (page_id_ pg) (page_table_ b)) ∧
     (∀ g, g ≠ f → page_at (pages_ b') g = page_at (pages_ b) g)).
Proof.
  intros Hb Hfuel Ht.
  pose proof (reachable_frames_ok b Hb) as Hfo.
  pose proof (reachable_pages_ok b Hb) as Hok.
  pose proof (reachable_replacer_ok b Hb) as Hrk.
  split.
  - intros Hall. destruct (pool_Victim_None b fuel) as [Hfl Hv]; [done..|].
    unfold FetchPgImp, pop_free. rewrite Ht, Hfl. simpl. rewrite Hv. simpl.
    by rewrite set_replacer_same.
  - intros Hall.
    destruct (FetchPgImp_chooses b fuel p Hfo Hok Hrk Hfuel Ht Hall)
      as (f & b1 & pg & -> & Hf & Hp & Hpin & Hpg & Htb & Hdisk).
    rewrite (install_fetched_eq p f b1 pg) by (by rewrite Hpg).
    eexists f, _, pg. split; [reflexivity|]. simpl. rewrite Hpg, Htb, Hdisk.
    split_and!; try done.
    + by apply (page_at_insert_eq _ _ pg).
    + intros g Hne. apply page_at_insert_ne; [lia|done].
Qed.

Lemma FetchPgImp_miss_in_reachable_pool_witness :
  ∃ b0 b,
    BufferPoolManagerInstance.new 1 1 0 ∅ = Done b0 ∧
    serves 2 [NewPage; UnpinPage 0 true] b0 = Done b ∧
    ∃ f b' pg,
      FetchPgImp 2 5 b = Done (Some f, b') ∧
      page_at (pages_ b) f = Some pg ∧ pin_count_ pg = 0 ∧
      disk_manager_ b' =
        (if is_dirty_ pg then <[page_id_ pg := data_ pg]> (disk_manager_ b)
         else disk_manager_ b) ∧
      page_at (pages_ b') f =
        Some {| page_id_ := 5; pin_count_ := 1; is_dirty_ := false;
                data_ := ReadPage 5 b' |} ∧
      page_table_ b' = <[5 := f]> (delete (page_id_ pg) (page_table_ b)) ∧
      (∀ g, g ≠ f → page_at (pages_ b') g = page_at (pages_ b) g).
Proof.
  eexists _, _. split; [reflexivity|]. split; [vm_compute; reflexivity|].
  refine (proj2 (FetchPgImp_miss_in_reachable_pool _ 2 5 _ _ _) _).
  - eapply (reachable_serves 2 [NewPage; UnpinPage 0 true]).
    + by eapply (reachable_new 1 1 0 ∅).
    + vm_compute. reflexivity.
  - apply Nat.leb_le. reflexivity.
  - vm_compute. reflexivity.
  - vm_compute. reflexivity.
Defined.



(** X12. [FlushAllPgsImp] in a reachable state returns, writes to disk the
    data of the frame of every page table entry, leaves the other pages of
    the disk as they were, and changes nothing else: unlike [FlushPgImp] it
    leaves the dirty flags as they are. *)
Theorem FlushAllPgsImp_writes_resident_pages (b : BufferPoolManagerInstance.t) :
  reachable b →
  ∃ b', FlushAllPgsImp b = Done b' ∧
    pages_ b' = pages_ b ∧ page_table_ b' = page_table_ b ∧
    free_list_ b' = free_list_ b ∧ replacer_ b' = replacer_ b ∧
    next_page_id_ b' = next_page_id_ b ∧
    (∀ p f pg, page_table_ b !! p = Some f → page_at (pages_ b) f = Some pg →
       disk_manager_ b' !! p = Some (data_ pg)) ∧
    (∀ p, page_table_ b !! p = None →
       disk_manager_ b' !! p = disk_manager_ b !! p).
Proof.
  intros Hfo%reachable_frames_ok.
  destruct (FlushAllPgsImp_Done b Hfo) as [b' Hflush]. exists b'.
  split; [done|].
  pose proof (write_entries_fields _ _ _ Hflush)
    as (_ & _ & _ & ? & ? & ? & ? & ? & _).
  destruct (write_entries_disk _ _ _ Hflush) as [Hin Hout];
    [apply NoDup_fst_map_to_list|].
  split_and!; try done.
  - intros p f pg Hp. apply Hin. by apply elem_of_map_to_list.
  - intros p Hp. apply Hout.
    intros ([q f] & -> & Hq%elem_of_map_to_list)%list_elem_of_fmap.
    simpl in Hp. congruence.
Qed.

Lemma FlushAllPgsImp_writes_resident_pages_witness :
  ∃ b0 b,
    BufferPoolManagerInstance.new 2 1 0 ∅ = Done b0 ∧
    serves 4 [NewPage; NewPage] b0 = Done b ∧
    ∃ b', FlushAllPgsImp b = Done b' ∧
      pages_ b' = pages_ b ∧ page_table_ b' = page_table_ b ∧
      free_list_ b' = free_list_ b ∧ replacer_ b' = replacer_ b ∧
      next_page_id_ b' = next_page_id_ b ∧
      (∀ p f pg, page_table_ b !! p = Some f → page_at (pages_ b) f = Some pg →
         disk_manager_ b' !! p = Some (data_ pg)) ∧
      (∀ p, page_table_ b !! p = None →
         disk_manager_ b' !! p = disk_manager_ b !! p).
Proof.
  eexists _, _. split; [reflexivity|]. split; [vm_compute; reflexivity|].
  apply FlushAllPgsImp_writes_resident_pages.
  eapply (reachable_serves 4 [NewPage; NewPage]).
  - by eapply (reachable_new 2 1 0 ∅).
  - vm_compute. reflexivity.
Defined.

(** X13. A [FlushPgImp] that returns tells whether the page is resident;
    for a resident page the disk then holds the data of its frame and the
    frame is clean, with the same page id, pin count and data; and a second
    [FlushPgImp] of the same page changes nothing more. *)
Theorem FlushPgImp_twice
    (p : Z) (b b' : BufferPoolManagerInstance.t) (x : bool) :
  FlushPgImp p b = Done (x, b') →
  (x = true ↔ is_Some (page_table_ b !! p)) ∧
  (∀ f pg, page_table_ b !! p = Some f → page_at (pages_ b) f = Some pg →
     disk_manager_ b' !! p = Some (data_ pg) ∧
     page_at (pages_ b') f =
       Some {| page_id_ := page_id_ pg; pin_count_ := pin_count_ pg;
               is_dirty_ := false; data_ := data_ pg |}) ∧
  FlushPgImp p b' = Done (x, b').
Proof.
  unfold FlushPgImp, get_page.
  destruct (page_table_ b !! p) as [f|] eqn:Ht.
  2: { intros [= <- <-]. rewrite Ht. split_and!; [|done..].
       split; [done|by intros [? ?]]. }
  destruct (page_at (pages_ b) f) as [pg|] eqn:Hp; simpl; [|done].
  intros [= <- <-]. simpl. split_and!.
  - split; [by eexists|done].
  - intros g pg0 [= <-] Hp0. rewrite Hp in Hp0. injection Hp0 as <-.
    split; [apply lookup_insert_eq|by apply (page_at_insert_eq _ _ pg)].
  - rewrite Ht, (page_at_insert_eq _ _ _ _ Hp). simpl.
    unfold put_page, WritePage. simpl.
    by rewrite insert_insert_eq, list_insert_insert_eq.
Qed.

Lemma FlushPgImp_twice_witness :
  ∃ b0 b x b',
    BufferPoolManagerInstance.new 2 1 0 ∅ = Done b0 ∧
    serves 4 [NewPage] b0 = Done b ∧
    FlushPgImp 0 b = Done (x, b') ∧ FlushPgImp 0 b' = Done (x, b').
Proof.
  eexists _, _, _, _. split; [reflexivity|]. split; [vm_compute; reflexivity|].
  refine (let H := _ in conj H (proj2 (proj2 (FlushPgImp_twice 0 _ _ _ H)))).
  vm_compute. reflexivity.
Defined.

Section round_trip.

Implicit Types b : BufferPoolManagerInstance.t.

(** [Unpin] after [Pin] of a registered frame that was not pinned: only
    the reference bit of the frame is changed. *)
Lemma Unpin_Pin_registered r f i :
  wf r → slot_of r f = Some i → pinned_ r !! i = Some false →
  Unpin f (Pin f r) =
    {| frame_ids_ := frame_ids_ r; pinned_ := pinned_ r;
       ref_bits_ := <[i := true]> (ref_bits_ r);
       max_size_ := max_size_ r; now_ := now_ r; size_ := size_ r |}.
Proof.
  intros Hwf Hs Hp. rewrite (Pin_registered _ _ _ Hs).
  pose proof (slot_of_lt _ _ _ Hs) as Hi.
  rewrite (Unpin_registered_pinned _ f i); simpl.
  - rewrite !list_insert_insert_eq. f_equal. by apply list_insert_id.
  - exact Hs.
  - apply list_lookup_insert_eq. by rewrite (wf_pinned _ Hwf).
Qed.

End round_trip.

(** X14. In a reachable state, [FetchPgImp] of a resident page whose pin
    count is 0 followed by [UnpinPgImp] of the page brings the pool back to
    the state it was in, but for the dirty flag of the frame, which is set
    when [UnpinPgImp] is told so, and the reference bit of the frame in the
    replacer, which is set. *)
Theorem FetchPgImp_then_UnpinPgImp
    (b : BufferPoolManagerInstance.t) (fuel : nat) (p f : Z) (pg : Page)
    (d : bool) :
  reachable b →
  page_table_ b !! p = Some f → page_at (pages_ b) f = Some pg →
  pin_count_ pg = 0 →
  ∃ b1 i,
    FetchPgImp fuel p b = Done (Some f, b1) ∧
    slot_of (replacer_ b) f = Some i ∧
    UnpinPgImp p d b1 =
      Done (true,
            set_replacer
              {| frame_ids_ := frame_ids_ (replacer_ b);
                 pinned_ := pinned_ (replacer_ b);
                 ref_bits_ := <[i := true]> (ref_bits_ (replacer_ b));
                 max_size_ := max_size_ (replacer_ b);
                 now_ := now_ (replacer_ b); size_ := size_ (replacer_ b) |}
              (put_page f {| page_id_ := page_id_ pg; pin_count_ := 0;
                             is_dirty_ := is_dirty_ pg || d;
                             data_ := data_ pg |} b)).
Proof.
  intros Hb Ht Hp Hpin.
  pose proof (reachable_frames_ok b Hb) as Hfo.
  pose proof (reachable_pages_ok b Hb) as Hok.
  pose proof (reachable_replacer_ok b Hb) as Hrk.
  pose proof (fo_replacer _ Hfo) as Hwf.
  destruct (resident_registered b p f Hfo Hok Hrk Ht) as [Hf [i Hi]].
  pose proof (rk_mirror _ Hrk f 0) as Hm. unfold frame_pin_count in Hm.
  rewrite Hp in Hm. simpl in Hm. rewrite Hpin in Hm.
  specialize (Hm eq_refl ltac:(split; [done|by eexists])).
  unfold pinned_flag in Hm. rewrite Hi in Hm. simpl in Hm.
  eexists _, i. split; [|split; [done|]].
  - apply (FetchPgImp_hit_unpinned fuel p b f pg); [done..|lia].
  - rewrite (UnpinPgImp_pinned p d _ f
               {| page_id_ := page_id_ pg; pin_count_ := pin_count_ pg + 1;
                  is_dirty_ := is_dirty_ pg; data_ := data_ pg |}); simpl.
    + rewrite Hpin. simpl. rewrite (Unpin_Pin_registered _ _ i) by done.
      unfold put_page. simpl. by rewrite list_insert_insert_eq.
    + done.
    + by apply (page_at_insert_eq _ _ pg).
    + simpl. lia.
Qed.

Lemma FetchPgImp_then_UnpinPgImp_witness :
  ∃ b0 b,
    BufferPoolManagerInstance.new 2 1 0 ∅ = Done b0 ∧
    serves 4 [NewPage; UnpinPage 0 false] b0 = Done b ∧
    ∃ b1 i,
      FetchPgImp 4 0 b = Done (Some 0, b1) ∧
      slot_of (replacer_ b) 0 = Some i ∧
      UnpinPgImp 0 false b1 =
        Done (true,
              set_replacer
                {| frame_ids_ := frame_ids_ (replacer_ b);
                   pinned_ := pinned_ (replacer_ b);
                   ref_bits_ := <[i := true]> (ref_bits_ (replacer_ b));
                   max_size_ := max_size_ (replacer_ b);
                   now_ := now_ (replacer_ b); size_ := size_ (replacer_ b) |}
                (put_page 0 {| page_id_ := 0; pin_count_ := 0;
                               is_dirty_ := true;
                               data_ := zero_data |} b)).
Proof.
  eexists _, _. split; [reflexivity|]. split; [vm_compute; reflexivity|].
  apply (FetchPgImp_then_UnpinPgImp _ 4 0 0
           {| page_id_ := 0; pin_count_ := 0; is_dirty_ := true;
              data_ := zero_data |} false).
  - eapply (reachable_serves 4 [NewPage; UnpinPage 0 false]).
    + by eapply (reachable_new 2 1 0 ∅).
    + vm_compute. reflexivity.
  - vm_compute. reflexivity.
  - vm_compute. reflexivity.
  - reflexivity.
Defined.
